(** * Prooffolio backend: profile synthesis and job ranking

    A shallow embedding of [src/backend/server.js] (the final variant of the
    pipeline) and the properties its specification states about it
    (Part II), followed by further properties read off the code (Part III).

    Conventions of the embedding.
    - A JavaScript string is a [string]: a sequence of code units below 256.
    - A JavaScript number is an IEEE-754 binary64 value, [spec_float] with
      precision 53 and maximal exponent 1024, computed with the operations
      of [SpecFloat]; counts and indices (lengths, array positions) are
      [nat] or [Z].
    - A [Map] is an association list in insertion order, a [Set] a list
      without repetition in insertion order.
    - The external capabilities (PDF text extraction, the completion
      service, the clock, JSON text, the disk, the upload library) are
      parameters of the handlers. *)

From Stdlib Require Import ZArith List String Ascii Bool Lia Arith.
From Stdlib Require Import Permutation Sorted.
From Stdlib Require OrderedTypeEx ListSet.
From Stdlib Require Import Floats.SpecFloat.
Import ListNotations.

(* ================================================================== *)
(** * Part I: the embedding                                             *)
(* ================================================================== *)

(** ** Strings of the runtime *)
Module JS.

Definition code (c : ascii) : nat := nat_of_ascii c.

(** [\s] of a regular expression and the characters [trim] removes,
    restricted to code units below 256: TAB, LF, VT, FF, CR, SP, NBSP. *)
Definition is_space (c : ascii) : bool :=
  let n := code c in
  ((9 <=? n) && (n <=? 13)) || (n =? 32) || (n =? 160).

Definition lower_char (c : ascii) : ascii :=
  let n := code c in
  if ((65 <=? n) && (n <=? 90))
     || ((192 <=? n) && (n <=? 222) && negb (n =? 215))
  then ascii_of_nat (n + 32) else c.

Fixpoint toLowerCase (s : string) : string :=
  match s with
  | EmptyString => EmptyString
  | String c r => String (lower_char c) (toLowerCase r)
  end.

Fixpoint trimStart (s : string) : string :=
  match s with
  | EmptyString => EmptyString
  | String c r => if is_space c then trimStart r else s
  end.

(** [trimEnd]: a character stays when it is no space or something that
    stays follows it. *)
Fixpoint trimEnd (s : string) : string :=
  match s with
  | EmptyString => EmptyString
  | String c r =>
      match trimEnd r with
      | EmptyString => if is_space c then EmptyString else String c EmptyString
      | r' => String c r'
      end
  end.

Definition trim (s : string) : string := trimEnd (trimStart s).

(** [s.slice(0, n)] for a count [n]. *)
Fixpoint slice0 (n : nat) (s : string) : string :=
  match n, s with
  | S k, String c r => String c (slice0 k r)
  | _, _ => EmptyString
  end.

(** A string in a condition: the empty string is falsy. *)
Definition truthy (s : string) : bool :=
  match s with EmptyString => false | _ => true end.

Fixpoint repeat_char (c : ascii) (n : nat) : string :=
  match n with
  | O => EmptyString
  | S k => String c (repeat_char c k)
  end.

Fixpoint mem (x : string) (l : list string) : bool :=
  match l with
  | [] => false
  | y :: r => if String.eqb x y then true else mem x r
  end.

(** [[...new Set(arr)]]: each element is added unless present; first
    occurrences stay, in order. *)
Definition set_add (acc : list string) (x : string) : list string :=
  if mem x acc then acc else acc ++ [x].

Definition uniq (l : list string) : list string := fold_left set_add l [].

(** [arr.join(sep)]. *)
Fixpoint join (sep : string) (l : list string) : string :=
  match l with
  | [] => EmptyString
  | [x] => x
  | x :: r => x ++ sep ++ join sep r
  end.

End JS.

(** ** Chunker: [createChunksFromText] *)
Module Chunker.

Record Chunk := { artifact_id : string; text : string }.

Definition is_terminator (c : ascii) : bool :=
  let n := JS.code c in (n =? 46) || (n =? 33) || (n =? 63).

(** Where the scan of [split(/(?<=[.!?])\s+/)] stands: after an ordinary
    character, after one of [.!?], or inside a separator. *)
Inductive scan := Plain | AfterTerm | InSep.

Definition push_char (c : ascii) (ps : list string) : list string :=
  match ps with
  | [] => [String c EmptyString]
  | p :: r => String c p :: r
  end.

Fixpoint split_sentences_from (st : scan) (s : string) : list string :=
  match s with
  | EmptyString => [EmptyString]
  | String c r =>
      if JS.is_space c then
        match st with
        | InSep => split_sentences_from InSep r
        | AfterTerm => EmptyString :: split_sentences_from InSep r
        | Plain => push_char c (split_sentences_from Plain r)
        end
      else
        push_char c
          (split_sentences_from (if is_terminator c then AfterTerm else Plain) r)
  end.

Definition split_sentences (s : string) : list string :=
  split_sentences_from Plain s.

(** The body of the [for] loop; the loop stops ([break]) once the chunk
    count reaches [maxChunks]. *)
Fixpoint chunk_loop (artifactId : string) (maxChunks : nat)
  (sentences : list string) (chunks : list Chunk) (buf : string)
  : list Chunk * string :=
  match sentences with
  | [] => (chunks, buf)
  | s :: rest =>
      let next := if JS.truthy buf then (buf ++ " " ++ s)%string else s in
      let '(chunks1, buf1) :=
        if 800 <? String.length next then
          ((if 120 <? String.length buf
            then chunks ++ [ {| artifact_id := artifactId; text := JS.trim buf |} ]
            else chunks), s)
        else (chunks, next) in
      if maxChunks <=? List.length chunks1 then (chunks1, buf1)
      else chunk_loop artifactId maxChunks rest chunks1 buf1
  end.

Definition createChunksFromText (text : string) (artifactId : string)
  (maxChunks maxChars : nat) : list Chunk :=
  let excerpt := JS.slice0 maxChars text in
  let sentences := split_sentences excerpt in
  let '(chunks, buf) := chunk_loop artifactId maxChunks sentences [] EmptyString in
  let chunks :=
    if (120 <? String.length buf) && (List.length chunks <? maxChunks)
    then chunks ++ [ {| artifact_id := artifactId; text := JS.trim buf |} ]
    else chunks in
  firstn maxChunks chunks.

(** Vocabulary of the further properties. *)

(** The characters a list of sentences takes, one separator after each. *)
Definition weight (l : list string) : nat :=
  fold_right (fun s n => S (String.length s) + n) 0 l.

End Chunker.

(** ** Skill merger: [mergeSkills] *)
Module Skills.

(** A level is the string a skill carries; the data model has three. *)
Definition Level : Type := string.

Definition beginner : Level := "beginner"%string.
Definition intermediate : Level := "intermediate"%string.
Definition advanced : Level := "advanced"%string.

Record Evidence := { artifact_id : string; snippet : string }.

Record Skill := { name : string; level : Level; evidence : list Evidence }.

(** [LEVEL_RANK] is a plain object: besides its own three names, a lookup
    finds the names every object inherits. *)
Definition inherited_names : list string :=
  ["constructor"; "__defineGetter__"; "__defineSetter__"; "hasOwnProperty";
   "__lookupGetter__"; "__lookupSetter__"; "isPrototypeOf"; "propertyIsEnumerable";
   "toString"; "valueOf"; "__proto__"; "toLocaleString"]%string.

(** What [LEVEL_RANK[level] || 0] evaluates to: a number, or, for an
    inherited name, the function or object found on the prototype; a
    comparison converts that one to its text. *)
Inductive RankValue := RankNumber (n : nat) | RankObject (text : string).

(** The text of an inherited value, as the runtime prints it. *)
Definition inherited_text (key : string) : string :=
  if String.eqb key "__proto__" then "[object Object]"%string
  else ("function " ++ (if String.eqb key "constructor" then "Object" else key)
        ++ "() { [native code] }")%string.

Definition LEVEL_RANK (l : Level) : RankValue :=
  if String.eqb l "beginner" then RankNumber 1
  else if String.eqb l "intermediate" then RankNumber 2
  else if String.eqb l "advanced" then RankNumber 3
  else if JS.mem l inherited_names then RankObject (inherited_text l)
  else RankNumber 0.

(** [incRank > curRank]: two numbers are compared as numbers, two texts
    by code units, and a text against a number is [NaN], never greater. *)
Definition rank_gt (incRank curRank : RankValue) : bool :=
  match incRank, curRank with
  | RankNumber a, RankNumber b => b <? a
  | RankObject s, RankObject t => String.ltb t s
  | _, _ => false
  end.

Definition norm (s : string) : string := JS.toLowerCase (JS.trim s).

(** A [Map] from normalized names to skills, in insertion order: [set] on
    a key that is present replaces the value where it stands. *)
Definition Map := list (string * Skill).

Fixpoint map_get (k : string) (m : Map) : option Skill :=
  match m with
  | [] => None
  | (k', v) :: r => if String.eqb k k' then Some v else map_get k r
  end.

Fixpoint map_set (k : string) (v : Skill) (m : Map) : Map :=
  match m with
  | [] => [(k, v)]
  | (k', v') :: r =>
      if String.eqb k k' then (k, v) :: r else (k', v') :: map_set k v r
  end.

(** [new Map(entries)]. *)
Definition map_of (entries : list (string * Skill)) : Map :=
  fold_left (fun m e => map_set (fst e) (snd e) m) entries [].

Definition map_values (m : Map) : list Skill := List.map snd m.

(** The entry a base skill contributes: its evidence is cut to three. *)
Definition base_entry (s : Skill) : string * Skill :=
  (norm (name s),
   {| name := name s; level := level s; evidence := firstn 3 (evidence s) |}).

Definition evidence_id (artifact : string) (snip : string) : string :=
  (artifact ++ "|" ++ snip)%string.

(** The loop that merges evidence: snippets are cut to 240 characters, an
    entry whose identity was seen is skipped, and the loop stops at three. *)
Fixpoint merge_evidence_loop (es : list Evidence) (seen : list string)
  (mergedEv : list Evidence) : list Evidence :=
  match es with
  | [] => mergedEv
  | e :: rest =>
      let snip := JS.slice0 240 (snippet e) in
      let id := evidence_id (artifact_id e) snip in
      let '(seen1, merged1) :=
        if JS.mem id seen then (seen, mergedEv)
        else (id :: seen,
              mergedEv ++ [ {| artifact_id := artifact_id e; snippet := snip |} ]) in
      if 3 <=? List.length merged1 then merged1
      else merge_evidence_loop rest seen1 merged1
  end.

Definition merge_evidence (es : list Evidence) : list Evidence :=
  merge_evidence_loop es [] [].

(** One iteration of the loop over the incoming skills. *)
Definition merge_one (m : Map) (s : Skill) : Map :=
  let key := norm (name s) in
  let ev := evidence s in
  match map_get key m with
  | Some cur =>
      let curRank := LEVEL_RANK (level cur) in
      let incRank := LEVEL_RANK (level s) in
      let lvl := if rank_gt incRank curRank then level s else level cur in
      map_set key
        {| name := name cur; level := lvl;
           evidence := merge_evidence (evidence cur ++ ev) |} m
  | None =>
      map_set key
        {| name := name s; level := level s; evidence := firstn 3 ev |} m
  end.

Definition MAX_SKILLS : nat := 120.

Definition mergeSkills (base incoming : list Skill) : list Skill :=
  let map := map_of (List.map base_entry base) in
  firstn MAX_SKILLS (map_values (fold_left merge_one incoming map)).

(** Vocabulary of the statements. *)
Definition key (s : Skill) : string := norm (name s).
Definition keys (l : list Skill) : list string := List.map key l.

(** The rank of a level in the order beginner < intermediate < advanced;
    every other level ranks 0. *)
Definition level_rank (l : Level) : nat :=
  if String.eqb l beginner then 1
  else if String.eqb l intermediate then 2
  else if String.eqb l advanced then 3
  else 0.

Definition rank (s : Skill) : nat := level_rank (level s).

(** A skill whose level is one of the three of the data model, and a
    skill whose level is a name every object inherits. *)
Definition graded (s : Skill) : Prop := In (level s) [beginner; intermediate; advanced].
Definition inherited (s : Skill) : Prop := In (level s) inherited_names.

(** The highest rank among the entries of [l] named [k] (0 when none). *)
Fixpoint max_rank (k : string) (l : list Skill) : nat :=
  match l with
  | [] => 0
  | s :: r => if String.eqb (key s) k then Nat.max (rank s) (max_rank k r)
              else max_rank k r
  end.

(** Vocabulary of the proofs. *)

(** Well-formed maps: keys are distinct and every value sits under the
    normalized form of its own name. *)
Definition wf (m : Map) : Prop :=
  NoDup (List.map fst m) /\ Forall (fun e => key (snd e) = fst e) m.

(** The rank stored under a key (0 when the key is absent). *)
Definition krank (k : string) (m : Map) : nat :=
  match map_get k m with Some v => rank v | None => 0 end.

(** Every skill of the map has at most three evidence entries. *)
Definition ev3 (m : Map) : Prop :=
  Forall (fun e => List.length (evidence (snd e)) <= 3) m.

(** The identity of an evidence entry as the merging loop computes it. *)
Definition eid (e : Evidence) : string := evidence_id (artifact_id e) (snippet e).

(** Evidence that came out of the merging loop. *)
Definition clean (v : Skill) : Prop :=
  List.length (evidence v) <= 3 /\ NoDup (evidence v).

(** Keys, names and levels of a map, without the evidence. *)
Definition skel (m : Map) : list (string * (string * Level)) :=
  List.map (fun e => (fst e, (name (snd e), level (snd e)))) m.

(** An incoming skill whose name is in the map with a level it does not
    exceed changes neither names nor levels. *)
Definition dominated (m : Map) (s : Skill) : Prop :=
  exists v, map_get (key s) m = Some v
            /\ rank_gt (LEVEL_RANK (level s)) (LEVEL_RANK (level v)) = false.

(** The level the comparison of the loop keeps. *)
Definition kept_level (cur inc : Level) : Level :=
  if rank_gt (LEVEL_RANK inc) (LEVEL_RANK cur) then inc else cur.

(** A family of skills with pairwise distinct names: ["x"], ["xx"], ... *)
Definition numbered (n : nat) : Skill :=
  {| name := JS.repeat_char "x"%char (S n); level := beginner; evidence := [] |}.

(** Vocabulary of the further properties. *)

(** Evidence whose snippets have at most 240 characters. *)
Definition short (v : Skill) : Prop :=
  Forall (fun e => String.length (snippet e) <= 240) (evidence v).

(** An evidence entry [e] that is the entry [e'] of an input, as it came
    or with its snippet cut to 240 characters. *)
Definition comes_from (e e' : Evidence) : Prop :=
  artifact_id e = artifact_id e'
  /\ (snippet e = snippet e' \/ snippet e = JS.slice0 240 (snippet e')).

(** Every evidence entry under key [k] comes from an input skill of that
    name. *)
Definition traced (src : list Skill) (entry : string * Skill) : Prop :=
  forall e, In e (evidence (snd entry)) ->
    exists s e', In s src /\ key s = fst entry /\ In e' (evidence s) /\ comes_from e e'.

End Skills.

(** ** Numbers of the runtime *)
Module Num.
Local Open Scope Z_scope.

(** binary64. *)
Definition prec : Z := 53.
Definition emax : Z := 1024.
Definition number : Type := spec_float.

Definition add : number -> number -> number := SFadd prec emax.
Definition sub : number -> number -> number := SFsub prec emax.
Definition mul : number -> number -> number := SFmul prec emax.
Definition div : number -> number -> number := SFdiv prec emax.
Definition ltb : number -> number -> bool := SFltb.
Definition leb : number -> number -> bool := SFleb.

(** The number an integer denotes (rounded to nearest even above 2^53). *)
Definition of_Z (z : Z) : number := binary_normalize prec emax z 0 false.
Definition of_nat (n : nat) : number := of_Z (Z.of_nat n).

Definition zero : number := S754_zero false.
Definition one : number := of_Z 1.
Definition hundred : number := of_Z 100.
(** The literals [0.7] and [0.3]: the nearest binary64 values. *)
Definition lit_0_7 : number := S754_finite false 6305039478318694 (-53).
Definition lit_0_3 : number := S754_finite false 5404319552844595 (-54).

Definition is_nan (x : number) : bool :=
  match x with S754_nan => true | _ => false end.

(** A number in a condition: [0], [-0] and [NaN] are falsy. *)
Definition truthy (x : number) : bool :=
  match x with S754_zero _ | S754_nan => false | _ => true end.

(** [Math.min] and [Math.max] of two numbers: [NaN] when either is, and
    [-0] counts as below [+0]. *)
Definition Math_min (x y : number) : number :=
  match SFcompare x y with
  | None => S754_nan
  | Some Lt => x
  | Some Gt => y
  | Some Eq =>
      match x, y with
      | S754_zero true, _ => x
      | _, S754_zero true => y
      | _, _ => x
      end
  end.

Definition Math_max (x y : number) : number :=
  match SFcompare x y with
  | None => S754_nan
  | Some Lt => y
  | Some Gt => x
  | Some Eq =>
      match x, y with
      | S754_zero false, _ => x
      | _, S754_zero false => y
      | _, _ => x
      end
  end.

(** [Math.round]: the integer nearest to [x], a tie going up; [NaN],
    infinities, zeros and integers are returned as they are, and a result
    of zero keeps the sign of [x]. For [x = s m 2^e] with [e < 0] the
    integer is [floor ((2 s m + 2^-e) / 2^(1-e))]. *)
Definition Math_round (x : number) : number :=
  match x with
  | S754_finite s m e =>
      if 0 <=? e then x
      else
        let n := if s then Z.neg m else Z.pos m in
        let d := 2 ^ (- e) in
        let r := (2 * n + d) / (2 * d) in
        if r =? 0 then S754_zero s else of_Z r
  | _ => x
  end.

(** [lo <= x <= hi]. *)
Definition between (lo hi x : number) : bool := leb lo x && leb x hi.

(** Vocabulary of the proofs about rounding. *)

(** A value that is not [NaN] and not negative: [+0], a positive finite
    number or [+infinity]. *)
Definition nonneg (x : number) : Prop :=
  match x with
  | S754_zero s | S754_infinity s | S754_finite s _ _ => s = false
  | S754_nan => False
  end.

(** Whether a shift lost a bit that was set. *)
Definition inexact (mrs : shr_record) : bool := shr_r mrs || shr_s mrs.

Definition shifted (k : Z) (a b : shr_record) : Prop :=
  shr_m b = shr_m a / 2 ^ k
  /\ (inexact b = true -> inexact a = true \/ shr_m a <> shr_m b * 2 ^ k).

(** The least exponent of binary64. *)
Definition emin64 : Z := -1074.

(** The sign of a rounded value is the sign it was given. *)
Definition has_sign (s : bool) (x : number) : Prop :=
  match x with
  | S754_zero s' | S754_infinity s' | S754_finite s' _ _ => s' = s
  | S754_nan => False
  end.

(** Values of the unit interval: [+0], or a normal number at most 1
    (with an exponent of at least [lo]). *)
Definition unit_from (lo : Z) (x : number) : Prop :=
  x = zero
  \/ exists m e, x = S754_finite false m e /\ Z.pos (digits2_pos m) = prec
                 /\ lo <= e <= -52 /\ Z.pos m <= 2 ^ 52 * 2 ^ (-52 - e).

Definition unit_value (x : number) : Prop := unit_from (-400) x.

(** [+0] or a positive finite number. *)
Definition plain (x : number) : Prop :=
  x = zero \/ exists m e, x = S754_finite false m e.

(** Values at most the normal number [mc * 2^ec]. *)
Definition at_most (mc : positive) (ec : Z) (x : number) : Prop :=
  x = zero
  \/ exists m e, x = S754_finite false m e /\ Z.pos (digits2_pos m) = prec
                 /\ -400 <= e <= ec /\ Z.pos m <= Z.pos mc * 2 ^ (ec - e).

End Num.

(** ** JSON values of a parsed reply *)
Module Json.

(** A value read from a property of a parsed JSON object: absent, or one
    of the JSON values. An array or object carries the string its
    conversion to a primitive gives. *)
Inductive JSValue :=
| JUndefined
| JNull
| JBool (b : bool)
| JNum (x : Num.number)
| JStr (s : string)
| JObj (prim : string).

Definition truthy (v : JSValue) : bool :=
  match v with
  | JUndefined | JNull => false
  | JBool b => b
  | JNum x => Num.truthy x
  | JStr s => JS.truthy s
  | JObj _ => true
  end.

(** [v || d]. *)
Definition or_else (v d : JSValue) : JSValue := if truthy v then v else d.

(** A score that is absent, [null] or a number other than [NaN]. *)
Definition absent_or_number (v : JSValue) : Prop :=
  match v with
  | JUndefined | JNull => True
  | JNum x => Num.is_nan x = false
  | _ => False
  end.

Section ToNumber.
(** The runtime's conversion of a string to a number. *)
Variable StringToNumber : string -> Num.number.

(** [Number(v)]. *)
Definition Number (v : JSValue) : Num.number :=
  match v with
  | JUndefined => S754_nan
  | JNull => Num.zero
  | JBool b => if b then Num.one else Num.zero
  | JNum x => x
  | JStr s => StringToNumber s
  | JObj prim => StringToNumber prim
  end.
End ToNumber.

End Json.

(** ** Job matching: tokens, lexical prefilter, reranker *)
Module Matching.
Import Num.

Record Job := {
  id : string; title : string; company : string; location : string;
  description : string; keywords : list string }.

Record Preferences := {
  summary : string; goals : list string; pref_interests : list string;
  industries : list string; role_types : list string; locations : list string;
  work_modes : list string; company_size : list string; constraints : list string }.

Record Profile := { about : string; interests : list string; preferences : Preferences }.

(** The fields of a project and of an artifact that the code reads. *)
Record Project := {
  p_title : string; p_summary : string; methods : list string;
  tech_stack : list string; outcomes : list string }.

Record Artifact := { a_id : string; a_type : string; a_title : string; text_excerpt : string }.

(** The object a profile build responds with and stores. *)
Record ProfileDoc := {
  session_id : string; artifacts : list Artifact; skills : list Skills.Skill;
  projects : list Project; doc_keywords : list string; profile : Profile;
  counts : nat * nat }.

Definition STOP : list string :=
  ["a";"an";"and";"the";"for";"to";"in";"of";"on";"with";"at";"as";"by";"or";
   "be";"is";"are";"am";"from";"that";"this";"it";"its";"we";"you";"they";
   "their";"our";"your";"i"]%string.

(** The characters [/[^a-z0-9+#.\- ]/g] leaves in place. *)
Definition keep_char (c : ascii) : bool :=
  let n := JS.code c in
  ((97 <=? n) && (n <=? 122))%nat || ((48 <=? n) && (n <=? 57))%nat
  || (n =? 43)%nat || (n =? 35)%nat || (n =? 46)%nat || (n =? 45)%nat
  || (n =? 32)%nat.

Fixpoint blank_others (s : string) : string :=
  match s with
  | EmptyString => EmptyString
  | String c r => String (if keep_char c then c else " "%char) (blank_others r)
  end.

(** [s.split(/\s+/)]. *)
Fixpoint split_ws_from (in_sep : bool) (s : string) : list string :=
  match s with
  | EmptyString => [EmptyString]
  | String c r =>
      if JS.is_space c then
        if in_sep then split_ws_from true r
        else EmptyString :: split_ws_from true r
      else Chunker.push_char c (split_ws_from false r)
  end.

Definition split_ws (s : string) : list string := split_ws_from false s.

Definition tokenize (s : string) : list string :=
  filter (fun x => JS.truthy x && negb (JS.mem x STOP))
    (split_ws (blank_others (JS.toLowerCase s))).

(** [inter / union] over two sets, [0] when both are empty. *)
Definition jaccard (aSet bSet : list string) : number :=
  let inter := List.length (filter (fun x => JS.mem x bSet) aSet) in
  let union := (List.length aSet + List.length bSet - inter)%nat in
  if (union =? 0)%nat then zero else div (of_nat inter) (of_nat union).

Definition deriveSkillTokens (doc : ProfileDoc) : list string :=
  let words :=
    flat_map (fun s => [Skills.name s; Skills.level s]) (skills doc)
    ++ flat_map (fun p => [p_title p; p_summary p] ++ methods p ++ tech_stack p ++ outcomes p)
         (projects doc)
    ++ flat_map (fun a => [a_title a; a_type a; text_excerpt a]) (artifacts doc)
    ++ doc_keywords doc in
  firstn 200 (JS.uniq (tokenize (JS.join " " words))).

Definition derivePreferenceTokens (doc : ProfileDoc) : list string :=
  let pr := profile doc in
  let pref := preferences pr in
  let bag :=
    (if JS.truthy (about pr) then [about pr] else [])
    ++ interests pr
    ++ (if JS.truthy (summary pref) then [summary pref] else [])
    ++ goals pref ++ pref_interests pref ++ industries pref ++ role_types pref
    ++ locations pref ++ work_modes pref ++ company_size pref ++ constraints pref in
  firstn 200 (JS.uniq (tokenize (JS.join " " bag ++ " " ++ about pr)%string)).

Definition jobKeywords (job : Job) : list string :=
  let base := [title job; company job; location job; description job] ++ keywords job in
  JS.uniq (tokenize (JS.join " " base)).

Record Candidate := {
  job : Job; baseline_skill : number; baseline_preference : number;
  composite : number }.

Definition score_job (sset pset : list string) (j : Job) : Candidate :=
  let jset := JS.uniq (jobKeywords j) in
  let skill := jaccard sset jset in
  let pref := jaccard pset jset in
  let composite :=
    add (if truthy pref then mul lit_0_7 pref else zero)
        (if truthy skill then mul lit_0_3 skill else zero) in
  {| job := j;
     baseline_skill := Math_round (mul skill hundred);
     baseline_preference := Math_round (mul pref hundred);
     composite := composite |}.

(** [(a, b) => b.composite - a.composite]. *)
Definition comparator (a b : Candidate) : number := sub (composite b) (composite a).

(** [arr.sort(cmp)] is stable: of two elements it moves the later one in
    front of the earlier one only when [cmp(earlier, later) > 0]. Every
    stable sort gives the same array for a consistent comparator; it is
    modelled by insertion from the right. *)
Fixpoint sort_insert (x : Candidate) (l : list Candidate) : list Candidate :=
  match l with
  | [] => [x]
  | y :: r => if ltb zero (comparator x y) then y :: sort_insert x r
              else x :: y :: r
  end.

Definition sort (l : list Candidate) : list Candidate := fold_right sort_insert [] l.

Definition prefilterCandidates (JOBS : list Job) (skillTokens prefTokens : list string)
  (topN : nat) : list Candidate :=
  let sset := JS.uniq skillTokens in
  let pset := JS.uniq prefTokens in
  firstn topN (sort (List.map (score_job sset pset) JOBS)).

(** The similarity of the specification: two sets have [common a b]
    elements in common and [either a b] elements between them, and their
    similarity is the quotient of the two counts, 0 for two empty sets. *)
Definition common (a b : list string) : nat :=
  List.length (ListSet.set_inter string_dec a b).

Definition either (a b : list string) : nat :=
  List.length (ListSet.set_union string_dec a b).

Definition similarity (a b : list string) : number :=
  if (either a b =? 0)%nat then zero
  else div (of_nat (common a b)) (of_nat (either a b)).

(** The strings [jobKeywords] collects in [base]. *)
Definition job_words (j : Job) : list string :=
  [title j; company j; location j; description j] ++ keywords j.

(** A candidate whose composite is a value of the unit interval. *)
Definition in_unit (c : Candidate) : Prop := unit_value (composite c).

(** The order of the ranking: [a] before [b]. *)
Definition ge_composite (a b : Candidate) : Prop :=
  leb (composite b) (composite a) = true.

(** Small values for examples. *)
Definition no_preferences : Preferences :=
  {| summary := ""; goals := []; pref_interests := []; industries := [];
     role_types := []; locations := []; work_modes := []; company_size := [];
     constraints := [] |}.

Definition doc_about (a : string) : ProfileDoc :=
  {| session_id := "profile-with-preferences"; artifacts := []; skills := [];
     projects := []; doc_keywords := [];
     profile := {| about := a; interests := []; preferences := no_preferences |};
     counts := (0, 0)%nat |}.

Definition job_of (i t : string) (kw : list string) : Job :=
  {| id := i; title := t; company := "Acme"; location := "Remote";
     description := ""; keywords := kw |}.

(** *** The reranker *)

Record Scores := { preference : number; skill : number; overall : number }.

(** A ranked job: the fields of the job (none when the looked-up object
    has no own enumerable field), the scores and the reasons. *)
Record RankedJob := {
  rj_job : option Job; scores : Scores;
  reason_preference : Json.JSValue; reason_skill : Json.JSValue }.

(** One element of [parsed.matches]. *)
Record RawMatch := {
  job_id : string;
  raw_preference : Json.JSValue; raw_skill : Json.JSValue; raw_overall : Json.JSValue;
  raw_reason_preference : Json.JSValue; raw_reason_skill : Json.JSValue }.

(** What the call to the completion service and the parsing of its text
    come to: an exception, or the list [parsed.matches || []] (empty when
    the text is no JSON). *)
Inductive LLMReply := Threw | Matches (ms : list RawMatch).

(** [arr.slice(0, k)] for an integer [k]: a negative [k] counts from the end. *)
Definition slice0Z {A : Type} (k : Z) (l : list A) : list A :=
  if (0 <=? k)%Z then firstn (Z.to_nat k) l
  else firstn (List.length l - Z.to_nat (- k)) l.

(** [Math.round(0.7*preference + 0.3*skill)]. *)
Definition blend (preference skill : number) : number :=
  Math_round (add (mul lit_0_7 preference) (mul lit_0_3 skill)).

(** [Math.max(0, Math.min(100, x))]. *)
Definition clamp (x : number) : number := Math_max zero (Math_min hundred x).

(** The names every plain object inherits: [byId[name]] is an object or
    a function for them even when no job has that id. *)
Definition object_prototype_keys : list string :=
  ["constructor"; "__defineGetter__"; "__defineSetter__"; "hasOwnProperty";
   "__lookupGetter__"; "__lookupSetter__"; "isPrototypeOf"; "propertyIsEnumerable";
   "toString"; "valueOf"; "__proto__"; "toLocaleString"]%string.

Inductive Lookup := Own (j : Job) | Inherited | Missing.

(** [Object.fromEntries(JOBS.map(j => [j.id, j]))[key]]: the last job
    with that id. *)
Fixpoint own_job (JOBS : list Job) (key : string) : option Job :=
  match JOBS with
  | [] => None
  | j :: r =>
      match own_job r key with
      | Some j' => Some j'
      | None => if String.eqb (id j) key then Some j else None
      end
  end.

Definition byId (JOBS : list Job) (key : string) : Lookup :=
  match own_job JOBS key with
  | Some j => Own j
  | None => if JS.mem key object_prototype_keys then Inherited else Missing
  end.

Definition baseline_ranked (hasPrefs : bool) (c : Candidate) : RankedJob :=
  let preference := baseline_preference c in
  let skill := baseline_skill c in
  let overall := if hasPrefs then blend preference skill else skill in
  {| rj_job := Some (job c);
     scores := {| preference := preference; skill := skill; overall := overall |};
     reason_preference :=
       Json.JStr (if hasPrefs then "Keyword/interest overlap baseline"
                  else "No stated preferences; neutral");
     reason_skill := Json.JStr "Skill keyword overlap baseline" |}.

Definition fallback_ranked (c : Candidate) : RankedJob :=
  let preference := baseline_preference c in
  let skill := baseline_skill c in
  {| rj_job := Some (job c);
     scores := {| preference := preference; skill := skill;
                  overall := blend preference skill |};
     reason_preference := Json.JStr "Baseline";
     reason_skill := Json.JStr "Baseline" |}.

Fixpoint filter_some {A : Type} (l : list (option A)) : list A :=
  match l with
  | [] => []
  | Some x :: r => x :: filter_some r
  | None :: r => filter_some r
  end.

Section Reranker.
(** Whether the client of the completion service is configured, the
    runtime's string-to-number conversion, and the service's reply. *)
Variable anthropic : bool.
Variable StringToNumber : string -> number.
Variable ask_rerank : ProfileDoc -> list Candidate -> Z -> LLMReply.

(** [Math.max(0, Math.min(100, Number(v || 0)))]. *)
Definition score_in (v : Json.JSValue) : number :=
  clamp (Json.Number StringToNumber (Json.or_else v (Json.JNum zero))).

Definition ranked_of_match (JOBS : list Job) (m : RawMatch) : option RankedJob :=
  let scored (j : option Job) :=
    let preference := score_in (raw_preference m) in
    let skill := score_in (raw_skill m) in
    let overall :=
      clamp (Json.Number StringToNumber
               (Json.or_else (raw_overall m) (Json.JNum (blend preference skill)))) in
    {| rj_job := j;
       scores := {| preference := preference; skill := skill; overall := overall |};
       reason_preference := Json.or_else (raw_reason_preference m) (Json.JStr "");
       reason_skill := Json.or_else (raw_reason_skill m) (Json.JStr "") |} in
  match byId JOBS (job_id m) with
  | Missing => None
  | Own j => Some (scored (Some j))
  | Inherited => Some (scored None)
  end.

(** The result is [None] when the call throws. *)
Definition rerankWithClaude (JOBS : list Job) (doc : ProfileDoc)
  (candidates : list Candidate) (limit : Z) : option (list RankedJob) :=
  let hasPrefs := (0 <? List.length (derivePreferenceTokens doc))%nat in
  if negb anthropic then
    Some (List.map (baseline_ranked hasPrefs) (slice0Z limit candidates))
  else
    match ask_rerank doc candidates limit with
    | Threw => None
    | Matches ms =>
        let out := filter_some (List.map (ranked_of_match JOBS) ms) in
        if (List.length out =? 0)%nat
        then Some (List.map fallback_ranked (slice0Z limit candidates))
        else Some (slice0Z limit out)
    end.

End Reranker.

(** Vocabulary of the further properties. *)

(** The characters of a token: [a-z], [0-9], [+], [#], [.] and [-]. *)
Definition token_char (c : ascii) : bool :=
  keep_char c && negb (JS.code c =? 32)%nat.

(** A token: a non-empty word of token characters that is no stop word. *)
Definition token (t : string) : Prop :=
  t <> EmptyString /\ JS.mem t STOP = false
  /\ Forall (fun c => token_char c = true) (list_ascii_of_string t).

(** The strings [deriveSkillTokens] collects in [words]. *)
Definition skill_words (doc : ProfileDoc) : list string :=
  flat_map (fun s => [Skills.name s; Skills.level s]) (skills doc)
  ++ flat_map (fun p => [p_title p; p_summary p] ++ methods p ++ tech_stack p ++ outcomes p)
       (projects doc)
  ++ flat_map (fun a => [a_title a; a_type a; text_excerpt a]) (artifacts doc)
  ++ doc_keywords doc.

(** The strings [derivePreferenceTokens] collects in [bag]. *)
Definition preference_bag (doc : ProfileDoc) : list string :=
  let pr := profile doc in
  let pref := preferences pr in
  (if JS.truthy (about pr) then [about pr] else [])
  ++ interests pr
  ++ (if JS.truthy (summary pref) then [summary pref] else [])
  ++ goals pref ++ pref_interests pref ++ industries pref ++ role_types pref
  ++ locations pref ++ work_modes pref ++ company_size pref ++ constraints pref.

(** The candidate of a job that shares nothing with the profile. *)
Definition unscored (j : Job) : Candidate :=
  {| job := j; baseline_skill := zero; baseline_preference := zero; composite := zero |}.

End Matching.

(** ** The request handlers *)
Module Server.
Import Matching.

(** A field of a multipart form under a plain name: absent, one value,
    or repeated (the form parser then gives an array). *)
Inductive FormValue := FAbsent | FStr (s : string) | FArr (l : list string).

Record File := { buffer : string; originalname : string }.

(** The request of [/process] as it arrives: the text fields of the form,
    the file of the field [resume] if there is one, and the files of the
    field [papers]. A form with a second [resume] file, which the upload
    middleware refuses like an eleventh paper, is not represented. *)
Record ProcessRequest := {
  body_about : FormValue;
  pref_locations : FormValue;
  pref_work_modes : FormValue;
  resume : option File;
  papers : list File }.

(** [s.split(/[;,]/)]. *)
Fixpoint split_list_chars (s : string) : list string :=
  match s with
  | EmptyString => [EmptyString]
  | String c r =>
      if ((JS.code c =? 59) || (JS.code c =? 44))%nat
      then EmptyString :: split_list_chars r
      else Chunker.push_char c (split_list_chars r)
  end.

Definition splitList_string (s : string) : list string :=
  filter JS.truthy (List.map JS.trim (split_list_chars s)).

Definition splitList (v : FormValue) : list string :=
  match v with
  | FAbsent => []
  | FStr s => if JS.truthy s then splitList_string s else []
  | FArr l => flat_map (fun x => if JS.truthy x then splitList_string x else []) l
  end.

Fixpoint uniqStrings_from (seen : list string) (arr : list string) : list string :=
  match arr with
  | [] => []
  | s :: r =>
      let k := Skills.norm s in
      if negb (JS.truthy k) || JS.mem k seen then uniqStrings_from seen r
      else s :: uniqStrings_from (k :: seen) r
  end.

Definition uniqStrings (arr : list string) : list string := uniqStrings_from [] arr.

(** Decimal digits of a count, for the ids [p1], [p2], ... *)
Definition digit_char (d : nat) : ascii := ascii_of_nat (48 + d).

Fixpoint digits_fuel (fuel n : nat) (acc : string) : string :=
  match fuel with
  | O => acc
  | S f =>
      let acc' := String (digit_char (n mod 10)) acc in
      if (n / 10 =? 0)%nat then acc' else digits_fuel f (n / 10) acc'
  end.

Definition nat_to_string (n : nat) : string := digits_fuel (S n) n EmptyString.

(** What the extraction of one document comes to. *)
Record RawProfile := {
  rp_about : string; rp_interests : option (list string);
  rp_preferences : option Preferences }.

Record Extraction := {
  x_skills : list Skills.Skill; x_projects : list Project;
  x_keywords : list string; x_profile : RawProfile }.

(** The process-wide state: the last profile, and the files of the
    outputs directory by name. *)
Record State := { LAST_PROFILE : option ProfileDoc; outputs : list (string * string) }.

Definition initial_state : State := {| LAST_PROFILE := None; outputs := [] |}.

Fixpoint read_file (name : string) (fs : list (string * string)) : option string :=
  match fs with
  | [] => None
  | (n, c) :: r => if String.eqb name n then Some c else read_file name r
  end.

Definition write_file (name content : string) (fs : list (string * string))
  : list (string * string) :=
  (name, content) :: filter (fun f => negb (String.eqb name (fst f))) fs.

Record RecommendBody := {
  profile_terms : list string; preference_terms : list string;
  total_jobs : nat; returned : nat; matches : list RankedJob }.

(** The answers: 400 and 500 with the handler's [error], 200 with a
    body, and the 500 of the framework when the upload middleware refuses
    the request. *)
Inductive Response :=
| BadRequest (error : string)
| ServerError (error : string)
| Profile200 (doc : ProfileDoc)
| Recommend200 (body : RecommendBody)
| UploadError.

(** [parseInt(s, 10)] as the integer it denotes ([None] for [NaN]); the
    number returned is the nearest binary64 value, the same integer
    below 2^53. *)
Definition is_digit (c : ascii) : bool := ((48 <=? JS.code c) && (JS.code c <=? 57))%nat.

Fixpoint read_digits (s : string) (acc : option Z) : option Z :=
  match s with
  | EmptyString => acc
  | String c r =>
      if is_digit c then
        let d := Z.of_nat (JS.code c - 48) in
        read_digits r (Some (match acc with Some a => 10 * a + d | None => d end)%Z)
      else acc
  end.

Definition parseInt (s : string) : option Z :=
  match JS.trimStart s with
  | String c r =>
      if (JS.code c =? 45)%nat then option_map Z.opp (read_digits r None)
      else if (JS.code c =? 43)%nat then read_digits r None
      else read_digits (String c r) None
  | EmptyString => None
  end.

(** [String(req.query.limit || 'all').toLowerCase()]. *)
Definition limitParam (limit : option string) : string :=
  JS.toLowerCase
    (match limit with
     | Some s => if JS.truthy s then s else "all"
     | None => "all"
     end).

Definition wantAll (limit : option string) : bool := String.eqb (limitParam limit) "all".

(** [parseInt(limitParam, 10) || 10]. *)
Definition parsed_or_default (s : string) : Z :=
  match parseInt s with
  | Some k => if (k =? 0)%Z then 10%Z else k
  | None => 10%Z
  end.

Definition desiredLimit (njobs : nat) (limit : option string) : Z :=
  if wantAll limit then Z.of_nat njobs
  else Z.min (parsed_or_default (limitParam limit)) (Z.of_nat njobs).


Section Handlers.
(** Configuration, catalog and external capabilities. *)
Variable anthropic : bool.
Variable SAVE_OUTPUTS : bool.
Variable JOBS : list Job.
Variable parsePDFBuffer : string -> string.
Variable extractFromResume : FormValue -> list Chunker.Chunk -> option Extraction.
Variable extractFromPaper : string -> list Chunker.Chunk -> option Extraction.
Variable stringify : ProfileDoc -> string.
Variable parse_doc : string -> option ProfileDoc.
Variable StringToNumber : string -> Num.number.
Variable ask_rerank : ProfileDoc -> list Candidate -> Z -> LLMReply.
(** The upload library and the disk: whether the library takes a file of
    exactly the size limit (its versions differ in this), and whether
    writing the file of a name succeeds. *)
Variable limit_size_taken : bool.
Variable writable : string -> bool.

(** [limits: { fileSize: 25 * 1024 * 1024 }] and the [maxCount] of the
    field [papers]. *)
Definition MAX_FILE_SIZE : N := 26214400%N.
Definition MAX_PAPERS : nat := 10.

Definition file_size (f : File) : N := N.of_nat (String.length (buffer f)).

Definition within_file_size (f : File) : bool :=
  if limit_size_taken then (file_size f <=? MAX_FILE_SIZE)%N
  else (file_size f <? MAX_FILE_SIZE)%N.

(** [upload.fields([{ name: 'resume', maxCount: 1 }, { name: 'papers',
    maxCount: 10 }])]: the middleware hands the request to the handler
    unless the field [papers] has more files than its count or a file is
    over the size limit. *)
Definition upload_accepted (req : ProcessRequest) : bool :=
  (List.length (papers req) <=? MAX_PAPERS)%nat
  && forallb within_file_size
       ((match resume req with Some f => [f] | None => [] end) ++ papers req).

(** [req.body?.about || '']. *)
Definition about_of (v : FormValue) : FormValue :=
  match v with
  | FAbsent => FStr EmptyString
  | FStr s => FStr s
  | FArr l => FArr l
  end.

Definition or_default (s d : string) : string := if JS.truthy s then s else d.

Definition resume_source (f : File) : Artifact * list Chunker.Chunk :=
  let resumeText := parsePDFBuffer (buffer f) in
  ({| a_id := "a1"; a_type := "pdf";
      a_title := or_default (originalname f) "resume.pdf";
      text_excerpt := JS.slice0 3200 resumeText |},
   Chunker.createChunksFromText resumeText "a1" 6 3200).

Fixpoint paper_sources (paperIndex : nat) (fs : list File)
  : list (Artifact * list Chunker.Chunk) :=
  match fs with
  | [] => []
  | pf :: r =>
      let i := S paperIndex in
      let pid := ("p" ++ nat_to_string i)%string in
      let paperText := parsePDFBuffer (buffer pf) in
      ({| a_id := pid; a_type := "pdf";
          a_title := or_default (originalname pf)
                       ("paper_" ++ nat_to_string i ++ ".pdf")%string;
          text_excerpt := JS.slice0 3600 paperText |},
       Chunker.createChunksFromText paperText pid 6 3600)
      :: paper_sources i r
  end.

(** The running result of extraction: skills, projects, keywords. *)
Definition Merged : Type := list Skills.Skill * list Project * list string.

Definition absorb (acc : Merged) (x : Extraction) : Merged :=
  let '(sk, pj, kw) := acc in
  (Skills.mergeSkills sk (x_skills x), pj ++ x_projects x,
   uniqStrings (kw ++ x_keywords x)).

(** The loop over the papers; [None] when an extraction throws. *)
Fixpoint absorb_papers (srcs : list (Artifact * list Chunker.Chunk)) (acc : Merged)
  : option Merged :=
  match srcs with
  | [] => Some acc
  | (a, chunks) :: r =>
      if String.eqb (a_id a) "a1" then absorb_papers r acc
      else
        match extractFromPaper (a_id a) chunks with
        | None => None
        | Some pr => absorb_papers r (absorb acc pr)
        end
  end.

Definition communication_stub (firstId : string) : Skills.Skill :=
  {| Skills.name := "Communication"; Skills.level := Skills.intermediate;
     Skills.evidence :=
       [ {| Skills.artifact_id := firstId;
            Skills.snippet :=
              "Presented results to stakeholders and coordinated cross-team deliverables." |} ] |}.

Definition set_summary (p : Preferences) (s : string) : Preferences :=
  {| summary := s; goals := goals p; pref_interests := pref_interests p;
     industries := industries p; role_types := role_types p; locations := locations p;
     work_modes := work_modes p; company_size := company_size p;
     constraints := constraints p |}.

Definition set_locations (p : Preferences) (l : list string) : Preferences :=
  {| summary := summary p; goals := goals p; pref_interests := pref_interests p;
     industries := industries p; role_types := role_types p; locations := l;
     work_modes := work_modes p; company_size := company_size p;
     constraints := constraints p |}.

Definition set_work_modes (p : Preferences) (l : list string) : Preferences :=
  {| summary := summary p; goals := goals p; pref_interests := pref_interests p;
     industries := industries p; role_types := role_types p; locations := locations p;
     work_modes := l; company_size := company_size p;
     constraints := constraints p |}.

(** Extraction and merging; [None] when a call throws. Without the
    capability, an [about] that came as an array has no [toLowerCase], and
    [tokenize(about)] throws. *)
Definition extract_all (about : FormValue) (has_resume : bool)
  (srcs : list (Artifact * list Chunker.Chunk)) : option (Merged * Profile) :=
  let finalProfile := {| about := ""; interests := []; preferences := no_preferences |} in
  if anthropic then
    let first :=
      match srcs with
      | (a, chunks) :: _ =>
          if has_resume then
            match extractFromResume about chunks with
            | None => None
            | Some r =>
                Some (absorb ([], [], []) r,
                      {| about := rp_about (x_profile r);
                         interests := match rp_interests (x_profile r) with
                                      | Some l => uniqStrings l
                                      | None => []
                                      end;
                         preferences := match rp_preferences (x_profile r) with
                                        | Some p => p
                                        | None => preferences finalProfile
                                        end |})
            end
          else Some (([], [], []), finalProfile)
      | [] => Some (([], [], []), finalProfile)
      end in
    match first with
    | None => None
    | Some (acc, prof) =>
        match absorb_papers srcs acc with
        | None => None
        | Some acc' => Some (acc', prof)
        end
    end
  else
    let firstId := match srcs with (a, _) :: _ => or_default (a_id a) "a1" | [] => "a1"%string end in
    let sk := Skills.mergeSkills [] [communication_stub firstId] in
    match about with
    | FArr _ => None
    | FStr text =>
        let prof :=
          if JS.truthy text then
            {| about := ""; interests := firstn 5 (uniqStrings (tokenize text));
               preferences := set_summary no_preferences (JS.slice0 140 text) |}
          else finalProfile in
        Some ((sk, [], ["communication"%string]), prof)
    | FAbsent => Some ((sk, [], ["communication"%string]), finalProfile)
    end.

(** Explicit preferences, then a summary when there is none. *)
Definition merge_explicit (prof : Profile) (explicitLocations explicitWorkModes : list string)
  : Profile :=
  let p0 := preferences prof in
  let p1 := match explicitLocations with
            | [] => p0
            | _ => set_locations p0 (uniqStrings (locations p0 ++ explicitLocations))
            end in
  let p2 := match explicitWorkModes with
            | [] => p1
            | _ => set_work_modes p1
                     (uniqStrings (work_modes p1 ++ List.map Skills.norm explicitWorkModes))
            end in
  let p3 :=
    if JS.truthy (summary p2) then p2
    else
      let parts :=
        (match work_modes p2 with
         | [] => []
         | wm => [(JS.join "/" wm ++ " work mode")%string]
         end)
        ++ (match locations p2 with
            | [] => []
            | ls => [("in " ++ JS.join ", " ls)%string]
            end) in
      set_summary p2
        (match parts with
         | [] => EmptyString
         | _ => ("Prefers " ++ JS.join " " parts ++ ".")%string
         end) in
  {| about := about prof; interests := interests prof; preferences := p3 |}.

(** [await fsp.writeFile(path, content)]: [None] when the write is
    refused; the directory is then as it was. *)
Definition writeFile (name content : string) (fs : list (string * string))
  : option (list (string * string)) :=
  if writable name then Some (write_file name content fs) else None.

(** The loop over the artifacts; [false] when a write was refused. *)
Fixpoint write_artifacts (arts : list Artifact) (fs : list (string * string))
  : list (string * string) * bool :=
  match arts with
  | [] => (fs, true)
  | a :: r =>
      match writeFile ("artifact_" ++ a_id a ++ ".txt")%string (text_excerpt a) fs with
      | Some fs' => write_artifacts r fs'
      | None => (fs, false)
      end
  end.

(** The writes of a saved profile, in order, up to the first one that is
    refused. *)
Definition save_outputs (stamp : string) (doc : ProfileDoc) (fs : list (string * string))
  : list (string * string) * bool :=
  let text := stringify doc in
  match writeFile ("profile_" ++ stamp ++ ".json")%string text fs with
  | None => (fs, false)
  | Some fs1 =>
      match writeFile "latest.json" text fs1 with
      | None => (fs1, false)
      | Some fs2 => write_artifacts (artifacts doc) fs2
      end
  end.

(** [app.post('/process', ...)]; [stamp] is the time of the request as
    the file name carries it. The last profile is assigned before the
    files are written, so a refused write answers 500 with the new profile
    in place. *)
Definition process (stamp : string) (req : ProcessRequest) (st : State)
  : Response * State :=
  if negb (upload_accepted req) then (UploadError, st) else
  let about := about_of (body_about req) in
  let explicitLocations := splitList (pref_locations req) in
  let explicitWorkModes := splitList (pref_work_modes req) in
  match resume req, papers req with
  | None, [] => (BadRequest "Please add a resume or at least one paper PDF.", st)
  | resumeFile, paperFiles =>
      let srcs :=
        (match resumeFile with Some f => [resume_source f] | None => [] end)
        ++ paper_sources 0 paperFiles in
      match extract_all about (match resumeFile with Some _ => true | None => false end) srcs with
      | None => (ServerError "Processing failed", st)
      | Some ((finalSkills, finalProjects, finalKeywords), prof) =>
          let finalProfile := merge_explicit prof explicitLocations explicitWorkModes in
          let response :=
            {| session_id := "profile-with-preferences";
               artifacts := List.map fst srcs;
               skills := finalSkills; projects := finalProjects;
               doc_keywords := finalKeywords; profile := finalProfile;
               counts := ((match resumeFile with Some _ => 1 | None => 0 end)%nat,
                          List.length paperFiles) |} in
          if SAVE_OUTPUTS then
            let '(fs, saved) := save_outputs stamp response (outputs st) in
            (if saved then Profile200 response else ServerError "Processing failed",
             {| LAST_PROFILE := Some response; outputs := fs |})
          else (Profile200 response,
                {| LAST_PROFILE := Some response; outputs := outputs st |})
      end
  end.

(** [app.get('/jobs/recommend', ...)]. *)
Definition recommend (limit : option string) (st : State) : Response :=
  let from_file :=
    match read_file "latest.json" (outputs st) with
    | Some text => parse_doc text
    | None => None
    end in
  let found := match from_file with Some d => Some d | None => LAST_PROFILE st end in
  match found with
  | None => BadRequest "No profile found. Run /process first."
  | Some doc =>
      match JOBS with
      | [] => Recommend200 {| profile_terms := []; preference_terms := [];
                              total_jobs := 0; returned := 0; matches := [] |}
      | _ =>
          let njobs := List.length JOBS in
          let skillTokens := deriveSkillTokens doc in
          let prefTokens := derivePreferenceTokens doc in
          let preN := if wantAll limit then njobs
                      else Z.to_nat (Z.max 40 (desiredLimit njobs limit * 2)) in
          let pre := prefilterCandidates JOBS skillTokens prefTokens preN in
          let ranked :=
            if wantAll limit then
              let topForAI := firstn (Nat.min 60 (List.length pre)) pre in
              match rerankWithClaude anthropic StringToNumber ask_rerank JOBS doc
                      topForAI (Z.of_nat (List.length topForAI)) with
              | None => None
              | Some aiRankedTop =>
                  Some (aiRankedTop
                        ++ List.map fallback_ranked (skipn (List.length topForAI) pre))
              end
            else rerankWithClaude anthropic StringToNumber ask_rerank JOBS doc pre
                   (desiredLimit njobs limit) in
          match ranked with
          | None => ServerError "Recommendation failed"
          | Some ranked =>
              Recommend200 {| profile_terms := firstn 30 skillTokens;
                              preference_terms := firstn 30 prefTokens;
                              total_jobs := njobs; returned := List.length ranked;
                              matches := ranked |}
          end
      end
  end.

End Handlers.

(** Vocabulary of the further properties. *)

(** The separators of a list typed into a form field. *)
Definition is_list_separator (c : ascii) : bool :=
  ((JS.code c =? 59) || (JS.code c =? 44))%nat.

(** An item of such a list: not empty, no whitespace around it, no
    separator in it. *)
Definition list_item (x : string) : Prop :=
  x <> EmptyString /\ JS.trim x = x
  /\ Forall (fun c => is_list_separator c = false) (list_ascii_of_string x).

(** The id of the [i]-th paper. *)
Definition paper_id (i : nat) : string := ("p" ++ nat_to_string i)%string.

(** The ids [/process] gives to the documents of a request: [a1] for the
    resume, then [p1], [p2], ... for the papers. *)
Definition artifact_ids (req : ProcessRequest) : list string :=
  (match resume req with Some _ => ["a1"%string] | None => [] end)
  ++ List.map paper_id (seq 1 (List.length (papers req))).

(** The names of the files a saved profile is written to. *)
Definition profile_file (stamp : string) : string := ("profile_" ++ stamp ++ ".json")%string.
Definition artifact_file (id : string) : string := ("artifact_" ++ id ++ ".txt")%string.

(** A request with a resume, one paper and explicit preferences. *)
Definition request_with_documents : ProcessRequest :=
  {| body_about := FStr "Data science, remote";
     pref_locations := FStr "Boston; Berlin";
     pref_work_modes := FArr ["Remote"; "hybrid"]%string;
     resume := Some {| buffer := "Built data pipelines."; originalname := "cv.pdf" |};
     papers := [ {| buffer := "We study graphs."; originalname := "" |} ] |}.

(** The files of a saved profile when no write is refused. *)
Definition all_saved (stringify : ProfileDoc -> string) (stamp : string)
  (doc : ProfileDoc) (fs : list (string * string)) : list (string * string) :=
  fold_left (fun acc a => write_file (artifact_file (a_id a)) (text_excerpt a) acc)
    (artifacts doc)
    (write_file "latest.json" (stringify doc)
       (write_file (profile_file stamp) (stringify doc) fs)).


(** A disk that takes every write, and one that refuses [latest.json]. *)
Definition every_write (_ : string) : bool := true.
Definition no_snapshot (name : string) : bool := negb (String.eqb name "latest.json").

(** External capabilities that do nothing: the text of a PDF is its
    buffer, no extraction succeeds, and every text is the empty string. *)
Definition no_extraction {A : Type} (_ : A) (_ : list Chunker.Chunk) : option Extraction := None.
Definition plain_text (buf : string) : string := buf.
Definition no_stringify (_ : ProfileDoc) : string := EmptyString.

(** [s.endsWith(suffix)]. *)
Fixpoint endsWith (suffix s : string) : bool :=
  String.eqb s suffix
  || match s with
     | EmptyString => false
     | String _ r => endsWith suffix r
     end.

(** [names.sort()]: the default order of strings, by code units; an
    element goes in front of the first one that is not below it. *)
Fixpoint sort_insert_name (x : string) (l : list string) : list string :=
  match l with
  | [] => [x]
  | y :: r => if String.ltb y x then y :: sort_insert_name x r else x :: y :: r
  end.

Definition sort_names (l : list string) : list string :=
  fold_right sort_insert_name [] l.

(** [fsp.readdir(outputsDir)]: the names of the files. *)
Definition readdir (fs : list (string * string)) : list string := List.map fst fs.

(** [app.get('/outputs/list', ...)]: the [files] of the answer. *)
Definition outputs_list (st : State) : list string :=
  sort_names (filter (endsWith ".json") (readdir (outputs st))).

(** The profile a recommendation works from: the snapshot [latest.json]
    when it is there and parses, else the last profile in memory. *)
Definition stored_profile (parse_doc : string -> option ProfileDoc) (st : State)
  : option ProfileDoc :=
  match (match read_file "latest.json" (outputs st) with
         | Some text => parse_doc text
         | None => None
         end) with
  | Some d => Some d
  | None => LAST_PROFILE st
  end.

End Server.

(** ** The completion service: [callClaude] *)
Module Completion.

(** What the handler reads of a thrown value: [e.response.status] when it
    is a number, [e.message], and [String(e)]. *)
Record Error := { status : option Z; message : string; as_string : string }.

(** [new Error(text)]. *)
Definition new_error (text : string) : Error :=
  {| status := None; message := text; as_string := ("Error: " ++ text)%string |}.

(** [s.includes(p)]. *)
Fixpoint includes (p s : string) : bool :=
  prefix p s || match s with
                | EmptyString => false
                | String _ r => includes p r
                end.

(** [e?.message || String(e)]. *)
Definition error_text (e : Error) : string :=
  if JS.truthy (message e) then message e else as_string e.

(** [status === 404 || /not_found_error/i.test(msg) || /model/i.test(msg)]:
    the two patterns are lower-case ASCII, so they match without regard
    to case where they occur in the lower-cased text. *)
Definition notFound (e : Error) : bool :=
  let msg := JS.toLowerCase (error_text e) in
  match status e with Some 404%Z => true | _ => false end
  || includes "not_found_error" msg || includes "model" msg.

(** [process.env.CLAUDE_MODEL || '...'], then the two fallbacks. *)
Definition MODEL_CANDIDATES (CLAUDE_MODEL : option string) : list string :=
  [ match CLAUDE_MODEL with
    | Some m => if JS.truthy m then m else "claude-3-5-sonnet-20241022"
    | None => "claude-3-5-sonnet-20241022"
    end;
    "claude-3-5-haiku-20241022"; "claude-3-haiku-20240307" ]%string.

(** What [anthropic.messages.create] does for one model: it resolves to
    a message or throws. *)
Inductive Reply := Message (text : string) | Fails (e : Error).

Inductive Outcome := Returns (text : string) | Throws (e : Error).

(** The [for] loop, with the models it has asked. *)
Fixpoint try_models (create : string -> Reply) (models : list string)
  (lastErr : option Error) : Outcome * list string :=
  match models with
  | [] =>
      (Throws (match lastErr with
               | Some e => e
               | None => new_error "No available Claude models from candidate list."
               end), [])
  | model :: rest =>
      match create model with
      | Message text => (Returns text, [model])
      | Fails e =>
          if notFound e then
            let '(out, asked) := try_models create rest (Some e) in (out, model :: asked)
          else (Throws e, [model])
      end
  end.

Definition callClaude (anthropic : bool) (create : string -> Reply)
  (models : list string) : Outcome * list string :=
  if negb anthropic then (Throws (new_error "Anthropic client not configured"), [])
  else try_models create models None.

(** A model that is not available. *)
Definition unavailable (create : string -> Reply) (model : string) : Prop :=
  exists e, create model = Fails e /\ notFound e = true.

End Completion.

(* ================================================================== *)
(** * Part II: properties                                               *)
(* ================================================================== *)

(** ** Chunker *)

Example split_sentences_ex :
  Chunker.split_sentences "One. Two!  Three?x y. " = ["One."; "Two!"; "Three?x y."; ""]%string.
Proof. reflexivity. Qed.

(** C4: a sentence longer than 800 characters is emitted as one chunk of
    its full length: with the default cap and budget, a text of 900
    letters without punctuation gives a single chunk of 900 characters. *)
Theorem createChunks_oversized_sentence :
  let text := JS.repeat_char "a"%char 900 in
  Chunker.createChunksFromText text "a1" 6 3200
    = [ {| Chunker.artifact_id := "a1"; Chunker.text := text |} ]
  /\ String.length text = 900.
Proof. vm_compute. split; reflexivity. Qed.

(** C5: a text of 121 blanks gives one chunk, whose text is empty: the
    buffer's length is tested before it is trimmed. *)
Theorem createChunks_whitespace_only :
  Chunker.createChunksFromText (JS.repeat_char " "%char 121) "a1" 6 3200
    = [ {| Chunker.artifact_id := "a1"; Chunker.text := EmptyString |} ].
Proof. vm_compute. reflexivity. Qed.

(** ** Skill merger *)

(** C8: a skill that is new to the map keeps its snippets as they came;
    only the path that merges into an existing skill cuts them to 240
    characters. *)
Theorem mergeSkills_new_skill_keeps_long_snippet :
  let long := JS.repeat_char "a"%char 241 in
  let s := {| Skills.name := "Python"; Skills.level := Skills.beginner;
              Skills.evidence := [ {| Skills.artifact_id := "a1"; Skills.snippet := long |} ] |} in
  Skills.mergeSkills [] [s] = [s] /\ String.length long = 241.
Proof. vm_compute. split; reflexivity. Qed.

#[local] Arguments Nat.leb : simpl never.
#[local] Arguments Nat.ltb : simpl never.
#[local] Arguments JS.slice0 : simpl never.
#[local] Arguments firstn : simpl never.

Section SkillMapFacts.
Import Skills.

Lemma mem_In (x : string) (l : list string) : JS.mem x l = true <-> In x l.
Proof.
  induction l as [|y l IH]; simpl.
  - split; [discriminate | tauto].
  - destruct (String.eqb_spec x y) as [->|Hne].
    + split; auto.
    + rewrite IH. split; [auto | intros [H|H]; [congruence | exact H]].
Qed.

Lemma mem_false_iff (x : string) (l : list string) : JS.mem x l = false <-> ~ In x l.
Proof.
  rewrite <- mem_In. destruct (JS.mem x l); split; congruence.
Qed.

Lemma map_get_None (k : string) (m : Map) :
  map_get k m = None <-> ~ In k (List.map fst m).
Proof.
  induction m as [|[k' v] m IH]; simpl.
  - tauto.
  - destruct (String.eqb_spec k k') as [->|Hne].
    + split; [discriminate | intros H; exfalso; apply H; auto].
    + rewrite IH. split; [intros H [E|E]; [congruence | tauto] | tauto].
Qed.

Lemma map_get_In (k : string) (m : Map) (v : Skill) :
  map_get k m = Some v -> In (k, v) m.
Proof.
  induction m as [|[k' v'] m IH]; simpl; [discriminate|].
  destruct (String.eqb_spec k k') as [->|Hne].
  - intros [= ->]. auto.
  - auto.
Qed.

Lemma In_map_get (k : string) (m : Map) (v : Skill) :
  NoDup (List.map fst m) -> In (k, v) m -> map_get k m = Some v.
Proof.
  induction m as [|[k' v'] m IH]; simpl; [tauto|].
  intros Hnd [E|Hin]; inversion Hnd as [|? ? Hnot Hnd']; subst.
  - inversion E; subst. now rewrite String.eqb_refl.
  - destruct (String.eqb_spec k k') as [->|Hne].
    + exfalso. apply Hnot. change k' with (fst (k', v)). now apply in_map.
    + auto.
Qed.

Lemma map_get_app (k : string) (m1 m2 : Map) :
  map_get k (m1 ++ m2)
  = match map_get k m1 with Some v => Some v | None => map_get k m2 end.
Proof.
  induction m1 as [|[k' v] m1 IH]; simpl; [reflexivity|].
  destruct (String.eqb k k'); auto.
Qed.

Lemma map_get_set (k k' : string) (v : Skill) (m : Map) :
  map_get k (map_set k' v m) = if String.eqb k k' then Some v else map_get k m.
Proof.
  induction m as [|[k0 v0] m IH]; simpl.
  - reflexivity.
  - destruct (String.eqb_spec k' k0) as [->|Hne]; simpl.
    + destruct (String.eqb k k0); reflexivity.
    + rewrite IH. destruct (String.eqb_spec k k0) as [->|Hne'].
      * destruct (String.eqb_spec k0 k'); [congruence | reflexivity].
      * reflexivity.
Qed.

Lemma map_set_notin (k : string) (v : Skill) (m : Map) :
  ~ In k (List.map fst m) -> map_set k v m = m ++ [(k, v)].
Proof.
  induction m as [|[k' v'] m IH]; simpl; [reflexivity|].
  intros H. destruct (String.eqb_spec k k') as [->|Hne].
  - exfalso. auto.
  - f_equal. apply IH. tauto.
Qed.

Lemma map_set_app_l (k : string) (v : Skill) (m1 m2 : Map) :
  In k (List.map fst m1) -> map_set k v (m1 ++ m2) = map_set k v m1 ++ m2.
Proof.
  induction m1 as [|[k' v'] m1 IH]; simpl; [tauto|].
  intros H. destruct (String.eqb_spec k k') as [->|Hne]; [reflexivity|].
  simpl. f_equal. apply IH. destruct H; [congruence | assumption].
Qed.

Lemma map_set_app_r (k : string) (v : Skill) (m1 m2 : Map) :
  ~ In k (List.map fst m1) -> map_set k v (m1 ++ m2) = m1 ++ map_set k v m2.
Proof.
  induction m1 as [|[k' v'] m1 IH]; simpl; [reflexivity|].
  intros H. destruct (String.eqb_spec k k') as [->|Hne].
  - exfalso. auto.
  - f_equal. apply IH. tauto.
Qed.

Lemma map_set_keys_in (k : string) (v : Skill) (m : Map) :
  In k (List.map fst m) -> List.map fst (map_set k v m) = List.map fst m.
Proof.
  induction m as [|[k' v'] m IH]; simpl; [tauto|].
  intros H. destruct (String.eqb_spec k k') as [->|Hne]; [reflexivity|].
  simpl. f_equal. apply IH. destruct H; [congruence | assumption].
Qed.

Lemma map_set_keys (k : string) (v : Skill) (m : Map) :
  List.map fst (map_set k v m) = JS.set_add (List.map fst m) k.
Proof.
  unfold JS.set_add. destruct (JS.mem k (List.map fst m)) eqn:E.
  - apply map_set_keys_in. now apply mem_In.
  - rewrite map_set_notin by now apply mem_false_iff.
    now rewrite map_app.
Qed.

Lemma map_set_Forall (P : string * Skill -> Prop) (k : string) (v : Skill) (m : Map) :
  Forall P m -> P (k, v) -> Forall P (map_set k v m).
Proof.
  induction m as [|[k' v'] m IH]; simpl; intros Hm Hp.
  - auto.
  - inversion Hm; subst. destruct (String.eqb k k'); constructor; auto.
Qed.

(** *** The loop over the incoming skills *)

Lemma merge_one_keys (m : Map) (s : Skill) :
  List.map fst (merge_one m s) = JS.set_add (List.map fst m) (key s).
Proof.
  unfold merge_one. fold (key s).
  destruct (map_get (key s) m); apply map_set_keys.
Qed.

Lemma fold_merge_keys (l : list Skill) (m : Map) :
  List.map fst (fold_left merge_one l m)
  = fold_left JS.set_add (keys l) (List.map fst m).
Proof.
  revert m. induction l as [|s l IH]; intros m; simpl; [reflexivity|].
  now rewrite IH, merge_one_keys.
Qed.

Lemma set_add_NoDup (ks : list string) (k : string) :
  NoDup ks -> NoDup (JS.set_add ks k).
Proof.
  intros H. unfold JS.set_add. destruct (JS.mem k ks) eqn:E; [assumption|].
  apply mem_false_iff in E.
  apply NoDup_app; [assumption | repeat constructor; simpl; tauto |].
  intros x Hx [<-|[]]. contradiction.
Qed.

Lemma fold_set_add_NoDup (l ks : list string) :
  NoDup ks -> NoDup (fold_left JS.set_add l ks).
Proof.
  revert ks. induction l as [|x l IH]; intros ks H; simpl; [assumption|].
  apply IH, set_add_NoDup, H.
Qed.

Lemma set_add_In (ks : list string) (k x : string) :
  In x (JS.set_add ks k) <-> In x ks \/ x = k.
Proof.
  unfold JS.set_add. destruct (JS.mem k ks) eqn:E.
  - apply mem_In in E. split; [auto | intros [H| ->]; assumption].
  - rewrite in_app_iff. simpl. intuition congruence.
Qed.

Lemma fold_set_add_In (l ks : list string) (x : string) :
  In x (fold_left JS.set_add l ks) <-> In x ks \/ In x l.
Proof.
  revert ks. induction l as [|y l IH]; intros ks; simpl; [tauto|].
  rewrite IH, set_add_In. intuition congruence.
Qed.

Lemma uniq_NoDup (l : list string) : NoDup (JS.uniq l).
Proof. apply fold_set_add_NoDup. constructor. Qed.

Lemma uniq_In (l : list string) (x : string) : In x (JS.uniq l) <-> In x l.
Proof. unfold JS.uniq. rewrite fold_set_add_In. simpl. tauto. Qed.

Lemma wf_nil : wf [].
Proof. split; constructor. Qed.

Lemma merge_one_wf (m : Map) (s : Skill) : wf m -> wf (merge_one m s).
Proof.
  intros [Hnd Hk]. split.
  - rewrite merge_one_keys. now apply set_add_NoDup.
  - unfold merge_one. fold (key s).
    destruct (map_get (key s) m) as [cur|] eqn:E;
      apply map_set_Forall; auto; simpl.
    apply map_get_In in E.
    rewrite Forall_forall in Hk. exact (Hk _ E).
Qed.

Lemma fold_merge_wf (l : list Skill) (m : Map) :
  wf m -> wf (fold_left merge_one l m).
Proof.
  revert m. induction l as [|s l IH]; intros m H; simpl; [assumption|].
  apply IH, merge_one_wf, H.
Qed.

Lemma max_rank_app (k : string) (l1 l2 : list Skill) :
  max_rank k (l1 ++ l2) = Nat.max (max_rank k l1) (max_rank k l2).
Proof.
  induction l1 as [|s l1 IH]; simpl; [reflexivity|].
  destruct (String.eqb (key s) k); rewrite IH; lia.
Qed.

(** *** Evidence stays within three entries *)

Lemma merge_evidence_loop_length (es : list Evidence) (seen : list string)
  (acc : list Evidence) :
  List.length acc < 3 -> List.length (merge_evidence_loop es seen acc) <= 3.
Proof.
  revert seen acc. induction es as [|e es IH]; intros seen acc H; simpl.
  - lia.
  - destruct (JS.mem _ seen).
    + destruct (3 <=? List.length acc) eqn:L.
      * apply Nat.leb_le in L. lia.
      * apply IH, H.
    + destruct (3 <=? List.length (acc ++ _)) eqn:L.
      * rewrite length_app in *. simpl in *. lia.
      * apply Nat.leb_gt in L. apply IH, L.
Qed.

Lemma merge_evidence_length (es : list Evidence) :
  List.length (merge_evidence es) <= 3.
Proof. apply merge_evidence_loop_length. simpl. lia. Qed.

Lemma merge_one_ev3 (m : Map) (s : Skill) : ev3 m -> ev3 (merge_one m s).
Proof.
  intros H. unfold merge_one.
  destruct (map_get (norm (name s)) m); apply map_set_Forall; auto;
    cbn [snd evidence].
  - apply merge_evidence_length.
  - rewrite length_firstn. lia.
Qed.

Lemma fold_merge_ev3 (l : list Skill) (m : Map) :
  ev3 m -> ev3 (fold_left merge_one l m).
Proof.
  revert m. induction l as [|s l IH]; intros m H; simpl; [assumption|].
  apply IH, merge_one_ev3, H.
Qed.

(** *** Cutting to the first entries *)

Lemma In_firstn_In (A : Type) (n : nat) (l : list A) (x : A) :
  In x (firstn n l) -> In x l.
Proof.
  intros H. rewrite <- (firstn_skipn n l). apply in_or_app. now left.
Qed.

Lemma Forall_firstn_of (A : Type) (P : A -> Prop) (n : nat) (l : list A) :
  Forall P l -> Forall P (firstn n l).
Proof.
  rewrite !Forall_forall. intros H x Hx. eapply H, In_firstn_In, Hx.
Qed.

Lemma NoDup_firstn_of (A : Type) (n : nat) (l : list A) :
  NoDup l -> NoDup (firstn n l).
Proof.
  intros H. rewrite <- (firstn_skipn n l) in H.
  eapply NoDup_app_remove_r, H.
Qed.

Lemma firstn_exact_app (A : Type) (n : nat) (l1 l2 : list A) :
  List.length l1 = n -> firstn n (l1 ++ l2) = l1.
Proof.
  intros <-. rewrite firstn_app, Nat.sub_diag, firstn_all. simpl.
  apply app_nil_r.
Qed.

Lemma wf_firstn (n : nat) (m : Map) : wf m -> wf (firstn n m).
Proof.
  intros [H1 H2]. split.
  - rewrite <- firstn_map. now apply NoDup_firstn_of.
  - now apply Forall_firstn_of.
Qed.

Lemma merge_one_app_l (m1 m2 : Map) (s : Skill) :
  In (key s) (List.map fst m1) -> merge_one (m1 ++ m2) s = merge_one m1 s ++ m2.
Proof.
  intros H. unfold merge_one. fold (key s). rewrite map_get_app.
  destruct (map_get (key s) m1) eqn:E.
  - now apply map_set_app_l.
  - apply map_get_None in E. contradiction.
Qed.

Lemma merge_one_app_r (m1 m2 : Map) (s : Skill) :
  ~ In (key s) (List.map fst m1) -> merge_one (m1 ++ m2) s = m1 ++ merge_one m2 s.
Proof.
  intros H. unfold merge_one. fold (key s). rewrite map_get_app.
  rewrite (proj2 (map_get_None _ _) H).
  destruct (map_get (key s) m2); now apply map_set_app_r.
Qed.

Lemma merge_one_length_in (m : Map) (s : Skill) :
  In (key s) (List.map fst m) -> List.length (merge_one m s) = List.length m.
Proof.
  intros H. rewrite <- (length_map fst (merge_one m s)), merge_one_keys.
  unfold JS.set_add. rewrite (proj2 (mem_In _ _) H). apply length_map.
Qed.

(** The first entries of the map evolve on their own: what follows them
    never changes them. *)
Lemma fold_merge_prefix (l : list Skill) (X r1 r2 : Map) :
  exists X' r1' r2',
    fold_left merge_one l (X ++ r1) = X' ++ r1'
    /\ fold_left merge_one l (X ++ r2) = X' ++ r2'
    /\ List.length X' = List.length X.
Proof.
  revert X r1 r2. induction l as [|s l IH]; intros X r1 r2; simpl.
  - now exists X, r1, r2.
  - destruct (in_dec string_dec (key s) (List.map fst X)) as [Hin|Hout].
    + rewrite !merge_one_app_l by assumption.
      destruct (IH (merge_one X s) r1 r2) as (X' & a & b & E1 & E2 & EL).
      exists X', a, b. rewrite E1, E2, EL. auto using merge_one_length_in.
    + rewrite !merge_one_app_r by assumption.
      apply IH.
Qed.

Lemma firstn_fold_merge (n : nat) (l : list Skill) (m : Map) :
  firstn n (fold_left merge_one l (firstn n m))
  = firstn n (fold_left merge_one l m).
Proof.
  destruct (Nat.le_gt_cases (List.length m) n) as [Hle|Hgt].
  - now rewrite (firstn_all2 m) by assumption.
  - destruct (fold_merge_prefix l (firstn n m) [] (skipn n m))
      as (X' & a & b & E1 & E2 & EL).
    rewrite app_nil_r in E1. rewrite firstn_skipn in E2.
    rewrite E1, E2.
    assert (List.length X' = n) by (rewrite EL, length_firstn; lia).
    now rewrite !firstn_exact_app.
Qed.

Lemma base_entry_id (m : Map) :
  wf m -> ev3 m -> List.map base_entry (List.map snd m) = m.
Proof.
  intros [_ Hk] He. induction m as [|[k v] m IH]; simpl; [reflexivity|].
  inversion Hk; inversion He; subst. f_equal; [|auto].
  destruct v as [n lv ev]. unfold base_entry, key in *.
  cbn [fst snd name level evidence] in *. subst k.
  now rewrite firstn_all2.
Qed.

Lemma map_of_acc (es acc : Map) :
  NoDup (List.map fst (acc ++ es)) ->
  fold_left (fun m e => map_set (fst e) (snd e) m) es acc = acc ++ es.
Proof.
  revert acc. induction es as [|[k v] es IH]; intros acc H; simpl.
  - now rewrite app_nil_r.
  - assert (Hk : ~ In k (List.map fst acc)).
    { rewrite map_app in H. simpl in H. apply NoDup_remove_2 in H.
      intros Hin. apply H. apply in_or_app. now left. }
    rewrite map_set_notin by assumption.
    rewrite IH; rewrite <- app_assoc; simpl; auto.
Qed.

Lemma map_of_NoDup (es : Map) : NoDup (List.map fst es) -> map_of es = es.
Proof. intros H. unfold map_of. now rewrite map_of_acc. Qed.

Lemma mergeSkills_once (A : list Skill) :
  mergeSkills [] A = firstn MAX_SKILLS (map_values (fold_left merge_one A [])).
Proof. reflexivity. Qed.

(** The pair of merges of the testable property is the fold over both
    lists, cut to the maximum skill count. *)
Lemma mergeSkills_twice (A B : list Skill) :
  mergeSkills (mergeSkills [] A) B
  = firstn MAX_SKILLS (map_values (fold_left merge_one (A ++ B) [])).
Proof.
  rewrite (mergeSkills_once A). unfold mergeSkills, map_values.
  set (M1 := fold_left merge_one A []).
  assert (W1 : wf M1) by apply fold_merge_wf, wf_nil.
  assert (E1 : ev3 M1) by (apply fold_merge_ev3; constructor).
  rewrite <- firstn_map at 1.
  rewrite base_entry_id by (auto using wf_firstn; now apply Forall_firstn_of).
  rewrite map_of_NoDup by apply (wf_firstn _ _ W1).
  rewrite fold_left_app. fold M1.
  rewrite !firstn_map. now rewrite firstn_fold_merge.
Qed.

Lemma keys_values (m : Map) : wf m -> keys (List.map snd m) = List.map fst m.
Proof.
  intros [_ H]. unfold keys. rewrite map_map.
  apply map_ext_in. intros e He. rewrite Forall_forall in H. now apply H.
Qed.

Lemma fold_values_keys (L : list Skill) :
  keys (map_values (fold_left merge_one L [])) = JS.uniq (keys L).
Proof.
  unfold map_values. rewrite keys_values by apply fold_merge_wf, wf_nil.
  now rewrite fold_merge_keys.
Qed.

Lemma firstn_uniq_NoDup (n : nat) (l : list string) : NoDup (firstn n (JS.uniq l)).
Proof. apply NoDup_firstn_of, uniq_NoDup. Qed.

(** *** Merged evidence has no repeated entry *)

Lemma merge_evidence_loop_NoDup (es : list Evidence) (seen : list string)
  (acc : list Evidence) :
  (forall x, In x (List.map eid acc) -> In x seen) ->
  NoDup (List.map eid acc) ->
  NoDup (List.map eid (merge_evidence_loop es seen acc)).
Proof.
  revert seen acc. induction es as [|e es IH]; intros seen acc Hs Hn; simpl.
  - exact Hn.
  - destruct (JS.mem _ seen) eqn:M.
    + destruct (3 <=? List.length acc); [exact Hn | apply IH; assumption].
    + apply mem_false_iff in M.
      set (e' := {| artifact_id := artifact_id e;
                    snippet := JS.slice0 240 (snippet e) |}) in *.
      assert (Hn' : NoDup (List.map eid (acc ++ [e']))).
      { rewrite map_app. apply NoDup_app; [exact Hn | repeat constructor; simpl; tauto |].
        intros x Hx [<-|[]]. apply M, Hs, Hx. }
      destruct (3 <=? List.length (acc ++ [e'])); [exact Hn'|].
      apply IH; [|exact Hn'].
      intros x Hx. rewrite map_app in Hx. apply in_app_or in Hx.
      destruct Hx as [Hx|[<-|[]]]; [right; auto | left; reflexivity].
Qed.

Lemma merge_evidence_NoDup (es : list Evidence) : NoDup (merge_evidence es).
Proof.
  apply (NoDup_map_inv eid), merge_evidence_loop_NoDup.
  - simpl. tauto.
  - constructor.
Qed.

Lemma map_get_merge_other (k : string) (m : Map) (s : Skill) :
  key s <> k -> map_get k (merge_one m s) = map_get k m.
Proof.
  intros H. unfold merge_one. fold (key s).
  destruct (map_get (key s) m); rewrite map_get_set;
    destruct (String.eqb_spec k (key s)); congruence.
Qed.

Lemma map_get_fold_other (k : string) (l : list Skill) (m : Map) :
  ~ In k (keys l) -> map_get k (fold_left merge_one l m) = map_get k m.
Proof.
  revert m. induction l as [|s l IH]; intros m H; simpl; [reflexivity|].
  simpl in H. rewrite IH by tauto. apply map_get_merge_other. tauto.
Qed.

Lemma merge_one_clean (m : Map) (s : Skill) (v : Skill) :
  In (key s) (List.map fst m) ->
  map_get (key s) (merge_one m s) = Some v -> clean v.
Proof.
  intros Hin. unfold merge_one. fold (key s).
  destruct (map_get (key s) m) as [cur|] eqn:E.
  - rewrite map_get_set, String.eqb_refl. intros [= <-]. split; simpl.
    + apply merge_evidence_length.
    + apply merge_evidence_NoDup.
  - apply map_get_None in E. contradiction.
Qed.

Lemma merge_one_keeps_keys (m : Map) (s : Skill) (k : string) :
  In k (List.map fst m) -> In k (List.map fst (merge_one m s)).
Proof. rewrite merge_one_keys, set_add_In. auto. Qed.

(** A key that was in the map and comes again leaves the loop with merged
    evidence. *)
Lemma fold_merge_clean (l : list Skill) (m : Map) (k : string) (v : Skill) :
  In k (List.map fst m) -> In k (keys l) ->
  map_get k (fold_left merge_one l m) = Some v -> clean v.
Proof.
  revert m. induction l as [|s l IH]; intros m Hm Hl; simpl in *; [tauto|].
  destruct (in_dec string_dec k (keys l)) as [Hin|Hout].
  - apply IH; auto using merge_one_keeps_keys.
  - destruct Hl as [<-|Hl]; [|contradiction].
    rewrite map_get_fold_other by assumption.
    now apply merge_one_clean.
Qed.

(** *** Levels and their ranks *)

Lemma string_ltb_irrefl (t : string) : String.ltb t t = false.
Proof.
  unfold String.ltb. pose proof (String.compare_antisym t t) as A.
  destruct (String.compare t t); simpl in A; congruence.
Qed.

Lemma string_ltb_trans (a b c : string) :
  String.ltb a b = true -> String.ltb b c = true -> String.ltb a c = true.
Proof.
  unfold String.ltb. intros H1 H2.
  destruct (String.compare a b) eqn:E1; try discriminate.
  destruct (String.compare b c) eqn:E2; try discriminate.
  apply OrderedTypeEx.String_as_OT.cmp_lt in E1, E2.
  pose proof (OrderedTypeEx.String_as_OT.lt_trans _ _ _ E1 E2) as T.
  apply OrderedTypeEx.String_as_OT.cmp_lt in T.
  unfold OrderedTypeEx.String_as_OT.cmp in T. now rewrite T.
Qed.

Lemma rank_gt_irrefl (x : RankValue) : rank_gt x x = false.
Proof. destruct x as [n|t]; simpl; [apply Nat.ltb_irrefl | apply string_ltb_irrefl]. Qed.

(** A value that does not exceed [c] does not exceed what exceeds [c]. *)
Lemma rank_gt_chain (s t c : RankValue) :
  rank_gt t c = true -> rank_gt s c = false -> rank_gt s t = false.
Proof.
  destruct t as [a|u], c as [b|w]; simpl; try discriminate;
    destruct s as [x|x]; simpl; try reflexivity.
  - intros H1 H2. apply Nat.ltb_lt in H1. apply Nat.ltb_ge in H2. apply Nat.ltb_ge. lia.
  - intros H1 H2. destruct (String.ltb u x) eqn:E; [|reflexivity].
    rewrite (string_ltb_trans w u x H1 E) in H2. discriminate.
Qed.

Lemma LEVEL_RANK_object (l : Level) :
  In l inherited_names -> LEVEL_RANK l = RankObject (inherited_text l) /\ level_rank l = 0.
Proof.
  intros H. simpl in H.
  repeat (destruct H as [<-|H]; [split; reflexivity|]). contradiction.
Qed.

Lemma LEVEL_RANK_number (l : Level) :
  ~ In l inherited_names -> LEVEL_RANK l = RankNumber (level_rank l).
Proof.
  intros H. apply mem_false_iff in H.
  unfold LEVEL_RANK, level_rank, beginner, intermediate, advanced. rewrite H.
  destruct (String.eqb l "beginner"); [reflexivity|].
  destruct (String.eqb l "intermediate"); [reflexivity|].
  destruct (String.eqb l "advanced"); reflexivity.
Qed.

Lemma inherited_dec (l : Level) : {In l inherited_names} + {~ In l inherited_names}.
Proof. apply in_dec, string_dec. Qed.

Lemma graded_not_inherited (s : Skill) : graded s -> ~ inherited s.
Proof.
  unfold graded, inherited. intros G H. apply mem_In in H.
  simpl in G. destruct G as [G|[G|[G|[]]]]; rewrite <- G in H; discriminate H.
Qed.

Lemma level_rank_graded (a b : Skill) :
  graded a -> graded b -> rank a = rank b -> level a = level b.
Proof.
  unfold graded, rank. intros Ga Gb. simpl in Ga, Gb.
  destruct Ga as [<-|[<-|[<-|[]]]]; destruct Gb as [<-|[<-|[<-|[]]]];
    intros H; first [reflexivity | discriminate H].
Qed.

(** A level that is a number stays one, at the higher rank. *)
Lemma kept_level_number (cur inc : Level) :
  ~ In cur inherited_names ->
  ~ In (kept_level cur inc) inherited_names
  /\ level_rank (kept_level cur inc) = Nat.max (level_rank cur) (level_rank inc).
Proof.
  intros Hc. unfold kept_level. rewrite (LEVEL_RANK_number cur Hc).
  destruct (inherited_dec inc) as [Hi|Hi].
  - destruct (LEVEL_RANK_object inc Hi) as [-> R0]. cbn [rank_gt]. rewrite R0.
    split; [exact Hc | lia].
  - rewrite (LEVEL_RANK_number inc Hi). cbn [rank_gt].
    destruct (Nat.ltb_spec (level_rank cur) (level_rank inc)); split; auto; lia.
Qed.

(** A level that is an inherited name is only replaced by another one. *)
Lemma kept_level_object (cur inc : Level) :
  In cur inherited_names -> In (kept_level cur inc) inherited_names.
Proof.
  intros Hc. unfold kept_level. destruct (LEVEL_RANK_object cur Hc) as [-> _].
  destruct (inherited_dec inc) as [Hi|Hi].
  - destruct (rank_gt _ _); assumption.
  - rewrite (LEVEL_RANK_number inc Hi). exact Hc.
Qed.

Lemma map_get_merge_same (m : Map) (s : Skill) :
  exists v, map_get (key s) (merge_one m s) = Some v
    /\ level v = match map_get (key s) m with
                 | Some cur => kept_level (level cur) (level s)
                 | None => level s
                 end.
Proof.
  unfold merge_one. fold (key s).
  destruct (map_get (key s) m) as [cur|]; rewrite map_get_set, String.eqb_refl;
    eexists; split; reflexivity.
Qed.

Lemma fold_level_object (k : string) (l : list Skill) (m : Map) (v : Skill) :
  map_get k m = Some v -> inherited v ->
  exists v', map_get k (fold_left merge_one l m) = Some v' /\ inherited v'.
Proof.
  revert m v. induction l as [|s l IH]; intros m v E H; simpl; [eauto|].
  destruct (String.eqb_spec (key s) k) as [Ek|N].
  - subst k. destruct (map_get_merge_same m s) as (v1 & E1 & L1). rewrite E in L1.
    apply (IH _ v1 E1). unfold inherited. rewrite L1. now apply kept_level_object.
  - apply (IH _ v); [|exact H]. now rewrite map_get_merge_other.
Qed.

Lemma fold_level_number (k : string) (l : list Skill) (m : Map) (v : Skill) :
  map_get k m = Some v -> ~ inherited v ->
  exists v', map_get k (fold_left merge_one l m) = Some v' /\ ~ inherited v'
             /\ rank v' = Nat.max (rank v) (max_rank k l).
Proof.
  revert m v. induction l as [|s l IH]; intros m v E H; simpl.
  - exists v. split; [exact E|]. split; [exact H | lia].
  - destruct (String.eqb_spec (key s) k) as [Ek|N].
    + subst k. destruct (map_get_merge_same m s) as (v1 & E1 & L1). rewrite E in L1.
      destruct (kept_level_number (level v) (level s) H) as [H1 R1].
      rewrite <- L1 in H1, R1.
      destruct (IH _ v1 E1 H1) as (v' & E' & H' & R').
      exists v'. split; [exact E'|]. split; [exact H'|].
      rewrite R'. unfold rank at 1. rewrite R1. fold (rank v) (rank s). lia.
    + destruct (IH (merge_one m s) v) as (v' & E' & H' & R');
        [now rewrite map_get_merge_other | exact H | eauto].
Qed.

(** The rank under a key after the loop, when the level there is a
    number: the highest of the entries of that name. *)
Lemma fold_rank (k : string) (l : list Skill) (m : Map) (v' : Skill) :
  map_get k (fold_left merge_one l m) = Some v' -> ~ inherited v' ->
  rank v' = Nat.max (krank k m) (max_rank k l).
Proof.
  revert m. induction l as [|s l IH]; intros m E H.
  - simpl in *. unfold krank. rewrite E. lia.
  - unfold krank. destruct (map_get k m) as [v|] eqn:Em.
    + destruct (inherited_dec (level v)) as [Hi|Hi].
      * destruct (fold_level_object k (s :: l) m v Em Hi) as (v2 & E2 & H2).
        rewrite E in E2. injection E2 as <-. contradiction.
      * destruct (fold_level_number k (s :: l) m v Em Hi) as (v2 & E2 & _ & R2).
        rewrite E in E2. injection E2 as <-. exact R2.
    + cbn [fold_left] in E. rewrite (IH _ E H). cbn [max_rank].
      destruct (String.eqb_spec (key s) k) as [Ek|N].
      * subst k. destruct (map_get_merge_same m s) as (v1 & E1 & L1). rewrite Em in L1.
        unfold krank. rewrite E1. unfold rank. rewrite L1. lia.
      * unfold krank. rewrite map_get_merge_other by exact N. rewrite Em. lia.
Qed.

Lemma values_map_get (m : Map) (r : Skill) :
  wf m -> In r (map_values m) -> map_get (key r) m = Some r.
Proof.
  intros [Hnd Hk] Hin. unfold map_values in Hin. apply in_map_iff in Hin.
  destruct Hin as ([k v] & Hv & He). simpl in Hv. subst v.
  rewrite Forall_forall in Hk. pose proof (Hk _ He) as Hkey. simpl in Hkey.
  rewrite Hkey. now apply In_map_get.
Qed.

Lemma fold_values_spec (L : list Skill) (r : Skill) :
  In r (map_values (fold_left merge_one L [])) ->
  (~ inherited r -> rank r = max_rank (key r) L) /\ List.length (evidence r) <= 3.
Proof.
  set (M := fold_left merge_one L []).
  assert (W : wf M) by apply fold_merge_wf, wf_nil.
  assert (E : ev3 M) by (apply fold_merge_ev3; constructor).
  unfold map_values. intros Hin. apply in_map_iff in Hin.
  destruct Hin as ([k v] & Hv & He). simpl in Hv. subst v.
  destruct W as [Hnd Hk]. unfold ev3 in E. rewrite Forall_forall in Hk, E.
  pose proof (Hk _ He) as Hkey. simpl in Hkey.
  split; [|exact (E _ He)].
  intros H. rewrite Hkey.
  rewrite (fold_rank k L [] r (In_map_get _ _ _ Hnd He) H). reflexivity.
Qed.

(** A level merged earlier is never ranked higher than the level found
    later under the same name. *)
Lemma fold_rank_grows (k : string) (l : list Skill) (m : Map) (v v' : Skill) :
  map_get k m = Some v -> map_get k (fold_left merge_one l m) = Some v' ->
  rank v <= rank v'.
Proof.
  intros E E'. destruct (inherited_dec (level v)) as [Hi|Hi].
  - unfold rank. rewrite (proj2 (LEVEL_RANK_object _ Hi)). lia.
  - destruct (fold_level_number k l m v E Hi) as (v2 & E2 & _ & R2).
    rewrite E' in E2. injection E2 as <-. lia.
Qed.

(** *** Merging the same list again *)

Lemma map_set_skel (k : string) (v v' : Skill) (m : Map) :
  map_get k m = Some v -> name v' = name v -> level v' = level v ->
  skel (map_set k v' m) = skel m.
Proof.
  induction m as [|[k0 v0] m IH]; simpl; [discriminate|].
  destruct (String.eqb_spec k k0) as [->|Hne].
  - intros [= ->] Hn Hl. simpl. now rewrite Hn, Hl.
  - intros H Hn Hl. simpl. f_equal. now apply IH.
Qed.

Lemma skel_map_get (k : string) (m1 m2 : Map) :
  skel m1 = skel m2 ->
  option_map (fun v => (name v, level v)) (map_get k m1)
  = option_map (fun v => (name v, level v)) (map_get k m2).
Proof.
  revert m2. induction m1 as [|[k1 v1] m1 IH]; intros [|[k2 v2] m2]; simpl;
    try discriminate; [reflexivity|].
  intros [= -> Hn Hl Hs]. destruct (String.eqb k k2); simpl.
  - now rewrite Hn, Hl.
  - now apply IH.
Qed.

Lemma merge_one_skel (m : Map) (s : Skill) :
  dominated m s -> skel (merge_one m s) = skel m.
Proof.
  intros (v & E & Hr). unfold merge_one. fold (key s). rewrite E.
  apply (map_set_skel _ v); auto. simpl. now rewrite Hr.
Qed.

Lemma dominated_skel (m1 m2 : Map) (s : Skill) :
  skel m1 = skel m2 -> dominated m1 s -> dominated m2 s.
Proof.
  intros Hs (v & E & Hr). pose proof (skel_map_get (key s) _ _ Hs) as H.
  rewrite E in H. destruct (map_get (key s) m2) as [v2|] eqn:E2; [|discriminate].
  simpl in H. injection H as Hn Hl. exists v2. split; [exact E2|].
  now rewrite <- Hl.
Qed.

Lemma fold_merge_skel (l : list Skill) (m : Map) :
  Forall (dominated m) l -> skel (fold_left merge_one l m) = skel m.
Proof.
  revert m. induction l as [|s l IH]; intros m H; simpl; [reflexivity|].
  inversion H as [|? ? Hs Hl]; subst.
  pose proof (merge_one_skel _ _ Hs) as E.
  rewrite IH; [exact E|].
  eapply Forall_impl; [|exact Hl]. intros a. apply dominated_skel. now symmetry.
Qed.

Lemma merge_one_dominates (m : Map) (s : Skill) : dominated (merge_one m s) s.
Proof.
  destruct (map_get_merge_same m s) as (v & E & L). exists v. split; [exact E|].
  rewrite L. destruct (map_get (key s) m) as [cur|]; [|apply rank_gt_irrefl].
  unfold kept_level.
  destruct (rank_gt (LEVEL_RANK (level s)) (LEVEL_RANK (level cur))) eqn:G;
    [apply rank_gt_irrefl | exact G].
Qed.

Lemma dominated_merge_one (m : Map) (s t : Skill) :
  dominated m s -> dominated (merge_one m t) s.
Proof.
  intros (v & E & G). destruct (String.eqb_spec (key t) (key s)) as [Ek|N].
  - destruct (map_get_merge_same m t) as (v1 & E1 & L1). rewrite Ek in E1, L1.
    rewrite E in L1. exists v1. split; [exact E1|]. rewrite L1. unfold kept_level.
    destruct (rank_gt (LEVEL_RANK (level t)) (LEVEL_RANK (level v))) eqn:T; [|exact G].
    exact (rank_gt_chain _ _ _ T G).
  - exists v. split; [|exact G]. now rewrite map_get_merge_other.
Qed.

Lemma fold_dominates (l pre : list Skill) (m : Map) :
  Forall (dominated m) pre -> Forall (dominated (fold_left merge_one l m)) (pre ++ l).
Proof.
  revert pre m. induction l as [|s l IH]; intros pre m H; simpl.
  - now rewrite app_nil_r.
  - change (pre ++ s :: l) with (pre ++ [s] ++ l). rewrite app_assoc. apply IH.
    apply Forall_app. split.
    + eapply Forall_impl; [|exact H]. intros a. apply dominated_merge_one.
    + constructor; [apply merge_one_dominates | constructor].
Qed.

Lemma fold_dominates_input (A : list Skill) :
  Forall (dominated (fold_left merge_one A [])) A.
Proof. apply (fold_dominates A [] []). constructor. Qed.

Lemma skel_names (m : Map) :
  List.map name (List.map snd m) = List.map (fun t => fst (snd t)) (skel m).
Proof. unfold skel. rewrite !map_map. reflexivity. Qed.

Lemma skel_levels (m : Map) :
  List.map level (List.map snd m) = List.map (fun t => snd (snd t)) (skel m).
Proof. unfold skel. rewrite !map_map. reflexivity. Qed.

(** *** Swapping base and incoming *)

Lemma fold_set_add_fresh (l ks : list string) :
  NoDup (ks ++ l) -> fold_left JS.set_add l ks = ks ++ l.
Proof.
  revert ks. induction l as [|x l IH]; intros ks H; simpl.
  - now rewrite app_nil_r.
  - assert (Hx : ~ In x ks).
    { apply NoDup_remove_2 in H. intros Hin. apply H, in_or_app. now left. }
    unfold JS.set_add. rewrite (proj2 (mem_false_iff _ _) Hx).
    rewrite IH; rewrite <- app_assoc; auto.
Qed.

Lemma uniq_NoDup_id (l : list string) : NoDup l -> JS.uniq l = l.
Proof. intros H. unfold JS.uniq. now rewrite fold_set_add_fresh. Qed.

Lemma uniq_app (l1 l2 : list string) :
  JS.uniq (l1 ++ l2) = fold_left JS.set_add l2 (JS.uniq l1).
Proof. unfold JS.uniq. apply fold_left_app. Qed.

Lemma keys_app (l1 l2 : list Skill) : keys (l1 ++ l2) = keys l1 ++ keys l2.
Proof. apply map_app. Qed.

Lemma base_entry_keys (A : list Skill) :
  List.map fst (List.map base_entry A) = keys A.
Proof. rewrite map_map. reflexivity. Qed.

Lemma base_entry_wf (A : list Skill) :
  NoDup (keys A) -> wf (List.map base_entry A).
Proof.
  intros H. split.
  - now rewrite base_entry_keys.
  - apply Forall_forall. intros e He. apply in_map_iff in He.
    destruct He as (s & <- & _). reflexivity.
Qed.

Lemma max_rank_notin (k : string) (l : list Skill) :
  ~ In k (keys l) -> max_rank k l = 0.
Proof.
  induction l as [|s l IH]; simpl; [reflexivity|].
  intros H. destruct (String.eqb_spec (key s) k); [tauto|]. apply IH. tauto.
Qed.

Lemma krank_base (k : string) (A : list Skill) :
  NoDup (keys A) -> krank k (List.map base_entry A) = max_rank k A.
Proof.
  unfold krank. induction A as [|s A IH]; simpl; [reflexivity|].
  intros H. inversion H as [|? ? Hnot Hnd]; subst. fold (key s).
  rewrite (String.eqb_sym k (key s)).
  destruct (String.eqb_spec (key s) k) as [<-|Hne].
  - rewrite max_rank_notin by assumption. unfold rank. simpl. lia.
  - now apply IH.
Qed.

Lemma mergeSkills_keys (A B : list Skill) :
  NoDup (keys A) ->
  keys (mergeSkills A B) = firstn MAX_SKILLS (JS.uniq (keys (A ++ B))).
Proof.
  intros H. unfold mergeSkills, map_values.
  rewrite map_of_NoDup by now rewrite base_entry_keys.
  unfold keys at 1. rewrite <- firstn_map.
  fold (keys (List.map snd (fold_left merge_one B (List.map base_entry A)))).
  rewrite keys_values by now apply fold_merge_wf, base_entry_wf.
  rewrite fold_merge_keys, base_entry_keys, keys_app, uniq_app.
  now rewrite (uniq_NoDup_id (keys A)).
Qed.

Lemma mergeSkills_rank (A B : list Skill) (r : Skill) :
  NoDup (keys A) -> In r (mergeSkills A B) -> ~ inherited r ->
  rank r = Nat.max (max_rank (key r) A) (max_rank (key r) B).
Proof.
  intros H Hr Hi. unfold mergeSkills, map_values in Hr.
  rewrite map_of_NoDup in Hr by now rewrite base_entry_keys.
  apply In_firstn_In, in_map_iff in Hr. destruct Hr as ([k v] & Hv & He).
  simpl in Hv. subst v.
  assert (W : wf (fold_left merge_one B (List.map base_entry A)))
    by now apply fold_merge_wf, base_entry_wf.
  destruct W as [Hnd Hk]. rewrite Forall_forall in Hk.
  pose proof (Hk _ He) as Hkey. simpl in Hkey. rewrite Hkey.
  rewrite (fold_rank k B _ r (In_map_get _ _ _ Hnd He) Hi).
  now rewrite krank_base.
Qed.

Lemma uniq_swap_length (l1 l2 : list string) :
  List.length (JS.uniq (l1 ++ l2)) = List.length (JS.uniq (l2 ++ l1)).
Proof.
  apply Permutation_length, NoDup_Permutation; try apply uniq_NoDup.
  intros x. rewrite !uniq_In, !in_app_iff. tauto.
Qed.

Lemma mergeSkills_again_clean (A : list Skill) (r : Skill) :
  In r (mergeSkills (mergeSkills [] A) A) -> clean r.
Proof.
  rewrite mergeSkills_twice, fold_left_app. intros Hr.
  apply In_firstn_In in Hr. unfold map_values in Hr. apply in_map_iff in Hr.
  destruct Hr as ([k v] & Hv & He). simpl in Hv. subst v.
  set (M1 := fold_left merge_one A []) in *.
  assert (W1 : wf M1) by apply fold_merge_wf, wf_nil.
  assert (W : wf (fold_left merge_one A M1)) by now apply fold_merge_wf.
  assert (Kin : In k (List.map fst (fold_left merge_one A M1))).
  { change k with (fst (k, r)). now apply in_map. }
  rewrite fold_merge_keys, fold_set_add_In in Kin.
  assert (K1 : List.map fst M1 = JS.uniq (keys A)).
  { unfold M1. now rewrite fold_merge_keys. }
  assert (KA : In k (keys A)).
  { destruct Kin as [Kin|Kin]; [|exact Kin]. rewrite K1 in Kin. now apply uniq_In. }
  apply (fold_merge_clean A M1 k).
  - rewrite K1. now apply uniq_In.
  - exact KA.
  - apply In_map_get; [apply W | exact He].
Qed.

Lemma mergeSkills_again_skel (A : list Skill) :
  List.map name (mergeSkills (mergeSkills [] A) A) = List.map name (mergeSkills [] A)
  /\ List.map level (mergeSkills (mergeSkills [] A) A) = List.map level (mergeSkills [] A).
Proof.
  rewrite mergeSkills_twice, mergeSkills_once, fold_left_app.
  unfold map_values. rewrite <- !firstn_map, !skel_names, !skel_levels.
  now rewrite fold_merge_skel by apply fold_dominates_input.
Qed.

End SkillMapFacts.

(** C2, as stated, fails: with 121 pairwise distinct names the last one is
    in the input and not in the result. *)
Lemma mergeSkills_drops_names_beyond_cap :
  let A := List.map Skills.numbered (seq 0 121) in
  let R := Skills.mergeSkills (Skills.mergeSkills [] A) [] in
  In (Skills.key (Skills.numbered 120)) (Skills.keys (A ++ []))
  /\ ~ In (Skills.key (Skills.numbered 120)) (Skills.keys R)
  /\ List.length R = 120.
Proof.
  cbv zeta. split; [|split].
  - apply mem_In. vm_compute. reflexivity.
  - apply mem_false_iff. vm_compute. reflexivity.
  - vm_compute. reflexivity.
Qed.

(** A level that is a name every object inherits is not replaced by a
    level of the table: its rank is no number, and no number exceeds it. *)
Example mergeSkills_keeps_inherited_level :
  let sk := fun l => {| Skills.name := "Python"; Skills.level := l; Skills.evidence := [] |} in
  Skills.mergeSkills (Skills.mergeSkills [] [sk "constructor"%string]) [sk Skills.advanced]
  = [sk "constructor"%string].
Proof. vm_compute. reflexivity. Qed.

(** C2 (amended): [merge(merge([], A), B)] holds exactly one skill for each
    of the first 120 distinct normalized names of [A] then [B], in the
    order of their first occurrence, and nothing else (so every name when
    there are at most 120); the level of each, unless it is a name every
    object inherits, has the highest rank among all entries of its name
    (a level outside the table ranking 0); it is never ranked below the
    level the first merge gave it; and each has at most three evidence
    entries. *)
Theorem mergeSkills_twice_spec (A B : list Skills.Skill) :
  let R := Skills.mergeSkills (Skills.mergeSkills [] A) B in
  Skills.keys R = firstn Skills.MAX_SKILLS (JS.uniq (Skills.keys (A ++ B)))
  /\ NoDup (Skills.keys R)
  /\ (List.length (JS.uniq (Skills.keys (A ++ B))) <= Skills.MAX_SKILLS ->
      forall k, In k (Skills.keys R) <-> In k (Skills.keys (A ++ B)))
  /\ (forall r, In r R ->
        (~ Skills.inherited r -> Skills.rank r = Skills.max_rank (Skills.key r) (A ++ B))
        /\ List.length (Skills.evidence r) <= 3)
  /\ (forall r0 r, In r0 (Skills.mergeSkills [] A) -> In r R ->
        Skills.key r0 = Skills.key r -> Skills.rank r0 <= Skills.rank r).
Proof.
  cbv zeta. rewrite mergeSkills_twice, mergeSkills_once.
  assert (K : Skills.keys (firstn Skills.MAX_SKILLS
                (Skills.map_values (fold_left Skills.merge_one (A ++ B) [])))
              = firstn Skills.MAX_SKILLS (JS.uniq (Skills.keys (A ++ B)))).
  { unfold Skills.keys at 1. rewrite <- firstn_map.
    fold (Skills.keys (Skills.map_values (fold_left Skills.merge_one (A ++ B) []))).
    now rewrite fold_values_keys. }
  split; [exact K|]. split; [rewrite K; apply firstn_uniq_NoDup|].
  split; [|split].
  - intros Hlen k. rewrite K, firstn_all2 by exact Hlen. apply uniq_In.
  - intros r Hr. apply In_firstn_In in Hr. now apply fold_values_spec.
  - intros r0 r H0 Hr E.
    apply In_firstn_In, values_map_get in H0; [|apply fold_merge_wf, wf_nil].
    apply In_firstn_In, values_map_get in Hr; [|apply fold_merge_wf, wf_nil].
    rewrite fold_left_app, <- E in Hr.
    exact (fold_rank_grows _ _ _ _ _ H0 Hr).
Qed.

(** C3, as stated, fails: evidence is kept in encounter order and cut to
    three, so swapping the two lists changes which entries survive. *)
Lemma mergeSkills_not_commutative :
  let ev := fun s => {| Skills.artifact_id := "p1"; Skills.snippet := s |} in
  let sk := fun l => {| Skills.name := "Python"; Skills.level := Skills.advanced;
                        Skills.evidence := l |} in
  let A := [ sk [ev "one"; ev "two"; ev "three"] ]%string in
  let B := [ sk [ev "four"; ev "five"; ev "six"] ]%string in
  Skills.mergeSkills A B = A
  /\ Skills.mergeSkills B A = B
  /\ ~ Permutation (Skills.mergeSkills A B) (Skills.mergeSkills B A).
Proof.
  cbv zeta. split; [vm_compute; reflexivity|]. split; [vm_compute; reflexivity|].
  intros P. apply Permutation_length_1 in P. vm_compute in P. discriminate P.
Qed.

(** Two levels outside the table rank the same, and the level of the
    base is kept: swapping the lists swaps the level. *)
Example mergeSkills_swap_outside_table :
  let sk := fun n l => {| Skills.name := n; Skills.level := l; Skills.evidence := [] |} in
  let A := [ sk "Python" "expert" ]%string in
  let B := [ sk "python" "novice" ]%string in
  List.map Skills.level (Skills.mergeSkills A B) = ["expert"%string]
  /\ List.map Skills.level (Skills.mergeSkills B A) = ["novice"%string].
Proof. vm_compute. split; reflexivity. Qed.

(** C3 (amended): merging [A] into [merge([], A)] again leaves the names
    and the levels as they were, in the same order, and every skill of the
    result has at most three evidence entries, no two of them equal; and
    when [A] and [B] each have pairwise distinct normalized names, at most
    120 together, [merge(A, B)] and [merge(B, A)] have the same normalized
    names up to order, under each name the same rank unless a level is a
    name every object inherits, and the same level when both levels are
    of the table. Evidence, the spelling of names and the choice between
    two levels outside the table follow the encounter order and are not
    symmetric. *)
Theorem mergeSkills_repeat_and_swap (A B : list Skills.Skill) :
  (List.map Skills.name (Skills.mergeSkills (Skills.mergeSkills [] A) A)
     = List.map Skills.name (Skills.mergeSkills [] A)
   /\ List.map Skills.level (Skills.mergeSkills (Skills.mergeSkills [] A) A)
     = List.map Skills.level (Skills.mergeSkills [] A))
  /\ (forall r, In r (Skills.mergeSkills (Skills.mergeSkills [] A) A) ->
        List.length (Skills.evidence r) <= 3 /\ NoDup (Skills.evidence r))
  /\ (NoDup (Skills.keys A) -> NoDup (Skills.keys B) ->
      List.length (JS.uniq (Skills.keys (A ++ B))) <= Skills.MAX_SKILLS ->
      Permutation (Skills.keys (Skills.mergeSkills A B))
                  (Skills.keys (Skills.mergeSkills B A))
      /\ forall r r', In r (Skills.mergeSkills A B) -> In r' (Skills.mergeSkills B A) ->
           Skills.key r = Skills.key r' ->
           (~ Skills.inherited r -> ~ Skills.inherited r' -> Skills.rank r = Skills.rank r')
           /\ (Skills.graded r -> Skills.graded r' -> Skills.level r = Skills.level r')).
Proof.
  split; [apply mergeSkills_again_skel|].
  split; [intros r Hr; exact (mergeSkills_again_clean A r Hr)|].
  intros HA HB Hlen. split.
  - rewrite !mergeSkills_keys by assumption.
    rewrite !firstn_all2.
    + apply NoDup_Permutation; try apply uniq_NoDup.
      intros x. rewrite !uniq_In, !keys_app, !in_app_iff. tauto.
    + rewrite keys_app, uniq_swap_length, <- keys_app. exact Hlen.
    + exact Hlen.
  - intros r r' Hr Hr' E.
    assert (R : ~ Skills.inherited r -> ~ Skills.inherited r' -> Skills.rank r = Skills.rank r').
    { intros I I'.
      rewrite (mergeSkills_rank A B r HA Hr I), (mergeSkills_rank B A r' HB Hr' I'), E. lia. }
    split; [exact R|].
    intros G G'. apply level_rank_graded; auto using graded_not_inherited.
Qed.

(** The symmetric part of the statement at two one-skill lists: the
    same name, and the higher level whichever list comes first. *)
Lemma mergeSkills_repeat_and_swap_witness :
  let A := [ {| Skills.name := "Python"; Skills.level := Skills.beginner;
                Skills.evidence := [] |} ] in
  let B := [ {| Skills.name := " python"; Skills.level := Skills.advanced;
                Skills.evidence := [] |} ] in
  Permutation (Skills.keys (Skills.mergeSkills A B))
              (Skills.keys (Skills.mergeSkills B A))
  /\ forall r r', In r (Skills.mergeSkills A B) -> In r' (Skills.mergeSkills B A) ->
       Skills.level r = Skills.level r'.
Proof.
  cbv zeta.
  destruct (proj2 (proj2 (mergeSkills_repeat_and_swap
              [ {| Skills.name := "Python"; Skills.level := Skills.beginner;
                   Skills.evidence := [] |} ]
              [ {| Skills.name := " python"; Skills.level := Skills.advanced;
                   Skills.evidence := [] |} ]))) as [P L].
  - vm_compute. repeat constructor. simpl. tauto.
  - vm_compute. repeat constructor. simpl. tauto.
  - vm_compute. lia.
  - split; [exact P|].
    intros r r' Hr Hr'.
    pose proof Hr as Er. vm_compute in Er. destruct Er as [Er|[]].
    pose proof Hr' as Er'. vm_compute in Er'. destruct Er' as [Er'|[]].
    apply (L r r' Hr Hr'); subst r r'; first [reflexivity | vm_compute; auto].
Defined.

(** ** Numbers *)

Section NumberFacts.
Import Num.
Local Open Scope Z_scope.

Lemma SFcompare_antisym (x y : number) :
  SFcompare y x = option_map CompOpp (SFcompare x y).
Proof.
  destruct x as [sx|sx| |sx mx ex], y as [sy|sy| |sy my ey]; simpl;
    try reflexivity;
    try (destruct sx; reflexivity); try (destruct sy; reflexivity);
    try (destruct sx, sy; reflexivity).
  destruct sx, sy; try reflexivity;
    rewrite (Z.compare_antisym ex ey); destruct (ex ?= ey); simpl; try reflexivity;
    rewrite (Pos.compare_cont_antisym mx my Eq); reflexivity.
Qed.

Lemma shr_1_nonneg (mrs : shr_record) : 0 <= shr_m mrs -> 0 <= shr_m (shr_1 mrs).
Proof.
  destruct mrs as [m r s]. simpl.
  destruct m as [|p|p]; simpl; try lia; destruct p; simpl; lia.
Qed.

Lemma iter_shr_1_nonneg (n : positive) (mrs : shr_record) :
  0 <= shr_m mrs -> 0 <= shr_m (iter_pos shr_1 n mrs).
Proof.
  revert mrs. induction n as [n IH|n IH|]; intros mrs H; simpl.
  - apply IH, IH, shr_1_nonneg, H.
  - apply IH, IH, H.
  - apply shr_1_nonneg, H.
Qed.

Lemma shr_record_of_loc_m (m : Z) (l : location) : shr_m (shr_record_of_loc m l) = m.
Proof. destruct l as [|[]]; reflexivity. Qed.

Lemma shr_fexp_nonneg (m e : Z) (l : location) :
  0 <= m -> 0 <= shr_m (fst (shr_fexp prec emax m e l)).
Proof.
  intros H. unfold shr_fexp, shr.
  destruct (fexp prec emax (Zdigits2 m + e) - e) as [|p|p]; simpl;
    try (rewrite shr_record_of_loc_m; exact H).
  apply iter_shr_1_nonneg. rewrite shr_record_of_loc_m. exact H.
Qed.

Lemma round_nearest_even_nonneg (m : Z) (l : location) :
  0 <= m -> 0 <= round_nearest_even m l.
Proof.
  intros H. destruct l as [|[]]; simpl; try lia. destruct (Z.even m); lia.
Qed.

Lemma binary_round_aux_nonneg (m e : Z) (l : location) :
  0 <= m -> nonneg (binary_round_aux prec emax false m e l).
Proof.
  intros H. unfold binary_round_aux.
  destruct (shr_fexp prec emax m e l) as [mrs' e'] eqn:E1.
  pose proof (shr_fexp_nonneg m e l H) as H1. rewrite E1 in H1. simpl in H1.
  destruct (shr_fexp prec emax _ e' loc_Exact) as [mrs'' e''] eqn:E2.
  pose proof (shr_fexp_nonneg _ e' loc_Exact
                (round_nearest_even_nonneg _ (loc_of_shr_record mrs') H1)) as H2.
  rewrite E2 in H2. simpl in H2.
  destruct (shr_m mrs'') as [|p|p]; simpl.
  - reflexivity.
  - destruct (Z.leb e'' _); reflexivity.
  - lia.
Qed.

Lemma binary_round_nonneg (m : positive) (e : Z) :
  nonneg (binary_round prec emax false m e).
Proof.
  unfold binary_round. destruct (shl_align _ _ _) as [mz ez].
  apply binary_round_aux_nonneg. lia.
Qed.

Lemma of_Z_nonneg (z : Z) : 0 <= z -> nonneg (of_Z z).
Proof.
  intros H. unfold of_Z, binary_normalize. destruct z as [|p|p]; try lia.
  - reflexivity.
  - apply binary_round_nonneg.
Qed.

Lemma mul_nonneg (x y : number) :
  nonneg x -> nonneg y ->
  (forall s, x = S754_infinity s -> False) -> (forall s, y = S754_infinity s -> False) ->
  nonneg (mul x y).
Proof.
  destruct x as [sx|sx| |sx mx ex], y as [sy|sy| |sy my ey]; simpl;
    intros Hx Hy Ix Iy; subst; try tauto; try reflexivity;
    try (exfalso; eapply Ix; reflexivity); try (exfalso; eapply Iy; reflexivity).
  apply binary_round_aux_nonneg. lia.
Qed.

Lemma add_nonneg (x y : number) : nonneg x -> nonneg y -> nonneg (add x y).
Proof.
  destruct x as [sx|sx| |sx mx ex], y as [sy|sy| |sy my ey]; simpl;
    intros Hx Hy; subst; try tauto; try reflexivity.
  unfold add, SFadd. simpl cond_Zopp. unfold binary_normalize.
  destruct (Z.pos _ + Z.pos _) as [|p|p] eqn:E; try lia.
  apply binary_round_nonneg.
Qed.

(** *** Clamping to [0, 100] *)

Lemma clamp_finite_pos (m : positive) (e : Z) :
  let x := S754_finite false m e in
  (Matching.clamp x = hundred \/ Matching.clamp x = x)
  /\ between zero hundred (Matching.clamp x) = true.
Proof.
  intros x. unfold Matching.clamp, Math_min.
  pose proof (SFcompare_antisym hundred x) as A.
  destruct (SFcompare hundred x) as [[| |]|] eqn:C.
  - (* equal to 100 *) split; [left|]; reflexivity.
  - (* 100 below x *) split; [left|]; reflexivity.
  - (* x below 100 *)
    assert (M : Math_max zero x = x) by reflexivity.
    rewrite M. split; [now right|].
    unfold between, leb, SFleb. rewrite A. reflexivity.
  - discriminate C.
Qed.

(** [clamp] gives [NaN] exactly on [NaN]; otherwise a value of [0, 100]
    that is [+0] or positive and finite. *)
Lemma clamp_spec (x : number) :
  (is_nan x = true /\ Matching.clamp x = S754_nan)
  \/ (is_nan x = false
      /\ between zero hundred (Matching.clamp x) = true
      /\ (Matching.clamp x = zero \/ exists m e, Matching.clamp x = S754_finite false m e)).
Proof.
  destruct x as [s|s| |s m e].
  - right. split; [reflexivity|]. destruct s; split; try reflexivity; now left.
  - right. split; [reflexivity|]. destruct s; split; try reflexivity.
    + now left.
    + right. now eexists _, _.
  - left. split; reflexivity.
  - right. split; [reflexivity|]. destruct s.
    + split; [reflexivity | now left].
    + destruct (clamp_finite_pos m e) as [[E|E] B]; split; try exact B; right.
      * rewrite E. now eexists _, _.
      * rewrite E. now eexists _, _.
Qed.

Lemma clamp_nan_or_range (x : number) :
  is_nan (Matching.clamp x) = true \/ between zero hundred (Matching.clamp x) = true.
Proof.
  destruct (clamp_spec x) as [[_ E]|[_ [B _]]]; [left; now rewrite E | now right].
Qed.

Lemma Math_round_nonneg (x : number) : nonneg x -> nonneg (Math_round x).
Proof.
  destruct x as [s|s| |s m e]; try (simpl; tauto).
  intros Hs. simpl in Hs. subst s. unfold Math_round.
  destruct (0 <=? e) eqn:E; [reflexivity|].
  apply Z.leb_gt in E.
  match goal with |- nonneg (if ?c then _ else _) => destruct c end;
    [reflexivity|].
  apply of_Z_nonneg.
  assert (0 < 2 ^ (- e)) by (apply Z.pow_pos_nonneg; lia).
  apply Z.div_pos; lia.
Qed.

Lemma nonneg_not_nan (x : number) : nonneg x -> is_nan x = false.
Proof. destruct x; simpl; tauto. Qed.

End NumberFacts.

(** ** Rounding to nearest in binary64 *)

Section Rounding.
Import Num.
Local Open Scope Z_scope.

Lemma digits2_pos_bounds (p : positive) :
  2 ^ (Z.pos (digits2_pos p) - 1) <= Z.pos p < 2 ^ Z.pos (digits2_pos p).
Proof.
  induction p as [p IH|p IH|]; simpl digits2_pos.
  - rewrite Pos2Z.inj_succ. replace (Z.succ (Z.pos (digits2_pos p)) - 1) with (Z.succ (Z.pos (digits2_pos p) - 1)) by lia.
    rewrite !Z.pow_succ_r by lia. lia.
  - rewrite Pos2Z.inj_succ. replace (Z.succ (Z.pos (digits2_pos p)) - 1) with (Z.succ (Z.pos (digits2_pos p) - 1)) by lia.
    rewrite !Z.pow_succ_r by lia. lia.
  - simpl. lia.
Qed.

Lemma digits2_unique (p : positive) (k : Z) :
  2 ^ (k - 1) <= Z.pos p < 2 ^ k -> Z.pos (digits2_pos p) = k.
Proof.
  intros [L U]. pose proof (digits2_pos_bounds p) as [L' U'].
  set (d := Z.pos (digits2_pos p)) in *.
  assert (0 < k). { destruct (Z.le_gt_cases k 0); [|lia]. 
    assert (2 ^ k <= 2 ^ 0) by (apply Z.pow_le_mono_r; lia). simpl in *. lia. }
  destruct (Z.lt_trichotomy d k) as [H1|[H1|H1]]; [|exact H1|].
  - assert (2 ^ d <= 2 ^ (k - 1)) by (apply Z.pow_le_mono_r; lia). lia.
  - assert (2 ^ k <= 2 ^ (d - 1)) by (apply Z.pow_le_mono_r; lia). lia.
Qed.

(** *** Shifting a mantissa right *)

Lemma shr_1_shifted (a : shr_record) : 0 <= shr_m a -> shifted 1 a (shr_1 a).
Proof.
  destruct a as [m r s]. intros H. unfold shifted, inexact.
  change (2 ^ 1) with 2.
  destruct m as [|p|p]; [| |simpl in H; lia].
  - split; [reflexivity|]. simpl. intros E. now left.
  - destruct p as [p|p|]; cbn [shr_1 shr_m shr_r shr_s].
    + split; [apply Z.div_unique with 1; lia|]. intros _. right. lia.
    + split; [apply Z.div_unique with 0; lia|]. simpl. intros E. now left.
    + split; [reflexivity|]. intros _. right. lia.
Qed.

Lemma shifted_trans (k1 k2 : Z) (a b c : shr_record) :
  0 <= k1 -> 0 <= k2 ->
  shifted k1 a b -> shifted k2 b c -> shifted (k1 + k2) a c.
Proof.
  intros K1 K2 [E1 I1] [E2 I2].
  assert (P1 : 0 < 2 ^ k1) by (apply Z.pow_pos_nonneg; lia).
  assert (P2 : 0 < 2 ^ k2) by (apply Z.pow_pos_nonneg; lia).
  unfold shifted. rewrite !Z.pow_add_r by lia.
  assert (Back : shr_m a = shr_m c * (2 ^ k1 * 2 ^ k2) -> shr_m b = shr_m c * 2 ^ k2).
  { intros E. rewrite E1, E.
    replace (shr_m c * (2 ^ k1 * 2 ^ k2)) with (shr_m c * 2 ^ k2 * 2 ^ k1) by ring.
    apply Z.div_mul. lia. }
  split.
  - rewrite E2, E1, Z.div_div by lia. reflexivity.
  - intros Hc. destruct (I2 Hc) as [Hb|Hb].
    + destruct (I1 Hb) as [Ha'|Ha']; [now left|]. right.
      intros E. apply Ha'. rewrite (Back E), E. ring.
    + right. intros E. apply Hb, Back, E.
Qed.

Lemma shifted_nonneg (k : Z) (a b : shr_record) :
  0 <= k -> 0 <= shr_m a -> shifted k a b -> 0 <= shr_m b.
Proof.
  intros K Ha [E _]. rewrite E. apply Z.div_pos; [lia | apply Z.pow_pos_nonneg; lia].
Qed.

Lemma iter_shr_1_shifted (p : positive) (a : shr_record) :
  0 <= shr_m a -> shifted (Z.pos p) a (iter_pos shr_1 p a).
Proof.
  revert a. induction p as [p IH|p IH|]; intros a Ha; simpl iter_pos.
  - pose proof (shr_1_shifted a Ha) as S1.
    assert (H1 : 0 <= shr_m (shr_1 a)) by (eapply shifted_nonneg; [|exact Ha|exact S1]; lia).
    pose proof (IH _ H1) as S2.
    assert (H2 : 0 <= shr_m (iter_pos shr_1 p (shr_1 a))) by (eapply shifted_nonneg; [|exact H1|exact S2]; lia).
    pose proof (IH _ H2) as S3.
    replace (Z.pos p~1) with (1 + Z.pos p + Z.pos p) by lia.
    eapply shifted_trans; [| | |exact S3]; try lia.
    eapply shifted_trans; [| |exact S1|exact S2]; lia.
  - pose proof (IH _ Ha) as S2.
    assert (H2 : 0 <= shr_m (iter_pos shr_1 p a)) by (eapply shifted_nonneg; [|exact Ha|exact S2]; lia).
    pose proof (IH _ H2) as S3.
    replace (Z.pos p~0) with (Z.pos p + Z.pos p) by lia.
    eapply shifted_trans; [| |exact S2|exact S3]; lia.
  - apply shr_1_shifted, Ha.
Qed.

Lemma fexp_normal (x : Z) : emin64 <= x - prec -> fexp prec emax x = x - prec.
Proof. unfold fexp, SpecFloat.emin, emin64, prec, emax. lia. Qed.

Lemma shr_record_of_loc_inexact (m : Z) (l : location) :
  inexact (shr_record_of_loc m l) = true -> l <> loc_Exact.
Proof. destruct l as [|[]]; unfold inexact; simpl; intros H; congruence. Qed.

(** The first shift of a rounding, in the normal range. *)
Lemma shr_fexp_normal (p : positive) (e : Z) (l : location) :
  let d := Z.pos (digits2_pos p) in
  prec <= d -> emin64 <= d + e - prec ->
  exists mrs,
    shr_fexp prec emax (Z.pos p) e l = (mrs, d + e - prec)
    /\ shifted (d - prec) (shr_record_of_loc (Z.pos p) l) mrs.
Proof.
  intros d Hd He. unfold shr_fexp. simpl Zdigits2. fold d.
  rewrite fexp_normal by exact He.
  replace (d + e - prec - e) with (d - prec) by lia.
  unfold shr. destruct (d - prec) as [|n|n] eqn:N; try lia.
  - exists (shr_record_of_loc (Z.pos p) l). split; [f_equal; lia|].
    split; [now rewrite Z.div_1_r | intros H; now left].
  - exists (iter_pos shr_1 n (shr_record_of_loc (Z.pos p) l)). split; [f_equal; lia|].
    apply iter_shr_1_shifted. rewrite shr_record_of_loc_m. lia.
Qed.

Lemma round_nearest_even_cases (mrs : shr_record) :
  round_nearest_even (shr_m mrs) (loc_of_shr_record mrs) = shr_m mrs
  \/ (round_nearest_even (shr_m mrs) (loc_of_shr_record mrs) = shr_m mrs + 1
      /\ inexact mrs = true).
Proof.
  destruct mrs as [m [|] [|]]; unfold inexact; simpl; auto.
  destruct (Z.even m); auto.
Qed.

Lemma div_pow_bounds (m d n : Z) :
  0 <= n -> n < d -> 2 ^ (d - 1) <= m < 2 ^ d ->
  2 ^ (d - n - 1) <= m / 2 ^ n < 2 ^ (d - n).
Proof.
  intros Hn Hd [L U].
  assert (P : 0 < 2 ^ n) by (apply Z.pow_pos_nonneg; lia).
  split.
  - apply Z.div_le_lower_bound; [lia|].
    rewrite <- Z.pow_add_r by lia. replace (n + (d - n - 1)) with (d - 1) by lia. exact L.
  - apply Z.div_lt_upper_bound; [lia|].
    rewrite <- Z.pow_add_r by lia. replace (n + (d - n)) with d by lia. exact U.
Qed.

(** Rounding to nearest never passes a normal number that bounds the
    rounded value from above. *)
Lemma binary_round_aux_upper (p : positive) (e : Z) (l : location) (mY : positive) (eY : Z) :
  let d := Z.pos (digits2_pos p) in
  prec <= d -> emin64 <= d + e - prec ->
  Z.pos (digits2_pos mY) = prec -> eY <= emax - prec -> d + e - prec <= eY ->
  Z.pos p <= Z.pos mY * 2 ^ (eY - e) ->
  (l <> loc_Exact -> Z.pos p < Z.pos mY * 2 ^ (eY - e)) ->
  exists m' e',
    binary_round_aux prec emax false (Z.pos p) e l = S754_finite false m' e'
    /\ Z.pos (digits2_pos m') = prec
    /\ d + e - prec <= e' <= eY
    /\ Z.pos m' <= Z.pos mY * 2 ^ (eY - e').
Proof.
  intros d Hd He HdY HeY Hle H1 H2.
  destruct (shr_fexp_normal p e l Hd He) as (mrs & E1 & [Em Ei]). fold d in E1, Em, Ei.
  rewrite shr_record_of_loc_m in Em, Ei.
  set (e1 := d + e - prec) in *. set (n := d - prec) in *.
  assert (Hn : 0 <= n) by (unfold n; lia).
  assert (Pn : 0 < 2 ^ n) by (apply Z.pow_pos_nonneg; lia).
  set (MY := Z.pos mY * 2 ^ (eY - e1)).
  assert (EMY : Z.pos mY * 2 ^ (eY - e) = MY * 2 ^ n).
  { unfold MY. rewrite <- Z.mul_assoc, <- Z.pow_add_r by (unfold e1, n in *; lia).
    do 2 f_equal. unfold e1, n. lia. }
  rewrite EMY in H1, H2.
  pose proof (digits2_pos_bounds p) as B. fold d in B.
  assert (B1 : 2 ^ (prec - 1) <= shr_m mrs < 2 ^ prec).
  { pose proof (div_pow_bounds (Z.pos p) d n) as X.
    replace (d - n - 1) with (prec - 1) in X by (unfold n; lia).
    replace (d - n) with prec in X by (unfold n; lia).
    rewrite Em. apply X; unfold n, prec in *; lia. }
  assert (U1 : shr_m mrs <= MY).
  { rewrite Em. apply Z.div_le_upper_bound; lia. }
  set (m1' := round_nearest_even (shr_m mrs) (loc_of_shr_record mrs)).
  assert (R : shr_m mrs <= m1' <= shr_m mrs + 1 /\ m1' <= MY).
  { destruct (round_nearest_even_cases mrs) as [E|[E I]]; fold m1' in E; rewrite E.
    - lia.
    - split; [lia|]. 
      assert (shr_m mrs < MY); [|lia].
      rewrite Em. apply Z.div_lt_upper_bound; [lia|]. rewrite Z.mul_comm.
      destruct (Ei I) as [I0|I0].
      + apply H2. now apply shr_record_of_loc_inexact with (m := Z.pos p).
      + assert (Z.pos p <> MY * 2 ^ n); [|lia].
        intros E'. apply I0. rewrite Em, E', Z.div_mul by lia. reflexivity. }
  destruct R as [R1 R2].
  pose proof (digits2_pos_bounds mY) as BY. rewrite HdY in BY.
  unfold binary_round_aux. rewrite E1. fold m1'.
  assert (Pm : 0 < m1') by (assert (0 < 2 ^ (prec - 1)) by (apply Z.pow_pos_nonneg; unfold prec; lia); lia).
  destruct m1' as [|q|q] eqn:Q; try lia.
  destruct (Z.eq_dec (Z.pos q) (2 ^ prec)) as [C|C].
  - (* the mantissa reached 2^prec: one more shift *)
    assert (e1 < eY).
    { destruct (Z.eq_dec e1 eY) as [X|X]; [|lia].
      unfold MY in R2. rewrite X, Z.sub_diag, Z.mul_1_r in R2. lia. }
    assert (Q' : q = (2 ^ 53)%positive) by (apply Pos2Z.inj; rewrite C; reflexivity).
    subst q.
    assert (S2 : shr_fexp prec emax (Z.pos (2 ^ 53)) e1 loc_Exact
                 = ({| shr_m := 2 ^ 52; shr_r := false; shr_s := false |}, e1 + 1)).
    { unfold shr_fexp. simpl Zdigits2.
      change (Z.pos (digits2_pos (2 ^ 53))) with 54.
      rewrite fexp_normal by (unfold e1, prec, emin64 in *; lia).
      replace (54 + e1 - prec - e1) with 1 by (unfold prec; lia).
      unfold shr. f_equal. }
    rewrite S2. cbn [shr_m]. change (2 ^ 52) with (Z.pos (2 ^ 52)).
    cbv iota beta.
    destruct (Z.leb_spec (e1 + 1) (emax - prec)); [|lia].
    exists (2 ^ 52)%positive, (e1 + 1). split; [reflexivity|].
    split; [reflexivity|]. split; [lia|].
    unfold MY in R2. replace (eY - e1) with (1 + (eY - (e1 + 1))) in R2 by lia.
    rewrite Z.pow_add_r in R2 by lia. change (2 ^ 1) with 2 in R2.
    change (Z.pos (2 ^ 52)) with (2 ^ 52). change (2 ^ prec) with (2 * 2 ^ 52) in C. lia.
  - (* the mantissa has prec digits *)
    assert (Dq : Z.pos (digits2_pos q) = prec).
    { apply digits2_unique. lia. }
    assert (S2 : shr_fexp prec emax (Z.pos q) e1 loc_Exact
                 = ({| shr_m := Z.pos q; shr_r := false; shr_s := false |}, e1)).
    { unfold shr_fexp. simpl Zdigits2. rewrite Dq.
      rewrite fexp_normal by (unfold e1, prec, emin64 in *; lia).
      replace (prec + e1 - prec - e1) with 0 by lia. reflexivity. }
    rewrite S2. cbn [shr_m]. cbv iota beta.
    destruct (Z.leb_spec e1 (emax - prec)); [|lia].
    exists q, e1. split; [reflexivity|]. split; [exact Dq|]. split; [lia|]. exact R2.
Qed.

Lemma digits2_pos_lt (p : positive) (k : Z) :
  Z.pos p < 2 ^ k -> Z.pos (digits2_pos p) <= k.
Proof.
  intros H. pose proof (digits2_pos_bounds p) as [L _].
  destruct (Z.le_gt_cases (Z.pos (digits2_pos p)) k) as [|G]; [assumption|].
  assert (2 ^ k <= 2 ^ (Z.pos (digits2_pos p) - 1)) by (apply Z.pow_le_mono_r; lia).
  lia.
Qed.

Lemma digits2_pos_ge (p : positive) (k : Z) :
  2 ^ (k - 1) <= Z.pos p -> k <= Z.pos (digits2_pos p).
Proof.
  intros H. pose proof (digits2_pos_bounds p) as [_ U].
  destruct (Z.le_gt_cases k (Z.pos (digits2_pos p))) as [|G]; [assumption|].
  assert (2 ^ Z.pos (digits2_pos p) <= 2 ^ (k - 1)) by (apply Z.pow_le_mono_r; lia).
  lia.
Qed.

Lemma iter_xO (k p : positive) : Z.pos (Pos.iter xO p k) = Z.pos p * 2 ^ Z.pos k.
Proof.
  induction k as [|k IH] using Pos.peano_ind.
  - simpl. lia.
  - rewrite Pos.iter_succ, Pos2Z.inj_xO, IH, Pos2Z.inj_succ, Z.pow_succ_r by lia. ring.
Qed.

(** [shl_align] towards a lower exponent multiplies the mantissa. *)
Lemma shl_align_value (m : positive) (e e' : Z) :
  e' <= e ->
  Z.pos (fst (shl_align m e e')) = Z.pos m * 2 ^ (e - e')
  /\ snd (shl_align m e e') = e'.
Proof.
  intros H. unfold shl_align. destruct (e' - e) as [|d|d] eqn:E; try lia.
  - simpl. replace (e - e') with 0 by lia. rewrite Z.pow_0_r. split; lia.
  - simpl. rewrite iter_xO. replace (e - e') with (Z.pos d) by lia. split; [reflexivity|lia].
Qed.

Lemma shl_align_id (m : positive) (e e' : Z) : e <= e' -> shl_align m e e' = (m, e).
Proof. intros H. unfold shl_align. destruct (e' - e) as [|d|d] eqn:E; try lia; reflexivity. Qed.

(** A rounding that has nothing to round. *)
Lemma binary_round_aux_exact (p : positive) (e : Z) :
  Z.pos (digits2_pos p) = prec -> emin64 <= e <= emax - prec ->
  binary_round_aux prec emax false (Z.pos p) e loc_Exact = S754_finite false p e.
Proof.
  intros D He.
  assert (S : shr_fexp prec emax (Z.pos p) e loc_Exact
              = ({| shr_m := Z.pos p; shr_r := false; shr_s := false |}, e)).
  { unfold shr_fexp. simpl Zdigits2. rewrite D.
    rewrite fexp_normal by (unfold prec, emin64 in *; lia).
    replace (prec + e - prec - e) with 0 by lia. reflexivity. }
  unfold binary_round_aux. rewrite S. cbn [shr_m loc_of_shr_record round_nearest_even].
  rewrite S. cbn [shr_m]. destruct (Z.leb_spec e (emax - prec)); [reflexivity | lia].
Qed.

(** The number of a positive integer below 2^53 is the integer itself. *)
Lemma of_Z_small (p : positive) :
  Z.pos p < 2 ^ 53 ->
  let d := Z.pos (digits2_pos p) in
  exists m, of_Z (Z.pos p) = S754_finite false m (d - 53)
            /\ Z.pos m = Z.pos p * 2 ^ (53 - d)
            /\ Z.pos (digits2_pos m) = prec.
Proof.
  intros H d. pose proof (digits2_pos_lt p 53 H) as Hd. fold d in Hd.
  pose proof (digits2_pos_bounds p) as B. fold d in B.
  assert (0 < d) by (unfold d; lia).
  unfold of_Z, binary_normalize, binary_round. fold d.
  rewrite Z.add_0_r, fexp_normal by (unfold prec, emin64; lia).
  destruct (shl_align_value p 0 (d - prec)) as [V1 V2]; [unfold prec; lia|].
  destruct (shl_align p 0 (d - prec)) as [mz ez]. cbn [fst snd] in V1, V2. subst ez.
  replace (0 - (d - prec)) with (53 - d) in V1 by (unfold prec; lia).
  assert (Dm : Z.pos (digits2_pos mz) = prec).
  { apply digits2_unique. rewrite V1. unfold prec. split.
    - replace (53 - 1) with ((d - 1) + (53 - d)) by lia. rewrite Z.pow_add_r by lia.
      apply Z.mul_le_mono_nonneg_r; [apply Z.pow_nonneg|]; lia.
    - replace 53 with (d + (53 - d)) at 2 by lia. rewrite Z.pow_add_r by lia.
      apply Z.mul_lt_mono_pos_r; [apply Z.pow_pos_nonneg|]; lia. }
  exists mz. rewrite binary_round_aux_exact by (unfold prec, emax, emin64 in *; lia).
  split; [reflexivity|]. split; [exact V1 | exact Dm].
Qed.

Lemma new_location_zero (n : Z) : new_location n 0 = loc_Exact.
Proof. unfold new_location, new_location_even, new_location_odd. destruct (Z.even n); reflexivity. Qed.

Lemma pow2_pos (k : Z) : 0 <= k -> 0 < 2 ^ k.
Proof. intros. apply Z.pow_pos_nonneg; lia. Qed.

Lemma pow2_split (a b : Z) : 0 <= a -> 0 <= b -> 2 ^ (a + b) = 2 ^ a * 2 ^ b.
Proof. intros. apply Z.pow_add_r; lia. Qed.

Lemma normal_bounds (m : positive) :
  Z.pos (digits2_pos m) = prec -> 2 ^ 52 <= Z.pos m < 2 ^ 53.
Proof. intros D. pose proof (digits2_pos_bounds m) as B. rewrite D in B. exact B. Qed.

(** The quotient of two normal numbers, the first at most the second, is
    a normal number at most 1. *)
Lemma div_le_one (mi mu : positive) (ei eu : Z) :
  Z.pos (digits2_pos mi) = prec -> Z.pos (digits2_pos mu) = prec ->
  -60 <= ei -> eu <= 60 ->
  (ei < eu \/ (ei = eu /\ Z.pos mi <= Z.pos mu)) ->
  exists m e,
    div (S754_finite false mi ei) (S754_finite false mu eu) = S754_finite false m e
    /\ Z.pos (digits2_pos m) = prec
    /\ ei - eu - 53 <= e <= -52
    /\ Z.pos m <= 2 ^ 52 * 2 ^ (-52 - e).
Proof.
  intros Di Du Hei Heu Hle.
  assert (Hie : ei <= eu) by lia.
  pose proof (normal_bounds mi Di) as Bi. pose proof (normal_bounds mu Du) as Bu.
  unfold div, SFdiv, SFdiv_core_binary. simpl xorb. simpl Zdigits2. rewrite Di, Du.
  replace (prec + ei - (prec + eu)) with (ei - eu) by lia.
  rewrite fexp_normal by (unfold prec, emin64; lia).
  rewrite Z.min_l by (unfold prec; lia).
  replace (ei - eu - (ei - eu - prec)) with 53 by (unfold prec; lia).
  rewrite Z.shiftl_mul_pow2 by lia.
  pose proof (Z_div_mod (Z.pos mi * 2 ^ 53) (Z.pos mu) ltac:(lia)) as DM.
  destruct (Z.div_eucl (Z.pos mi * 2 ^ 53) (Z.pos mu)) as [q r].
  destruct DM as [DM Hr].
  assert (P53 : 2 ^ 53 = 2 * 2 ^ 52) by reflexivity.
  assert (P54 : 2 ^ 54 = 4 * 2 ^ 52) by reflexivity.
  assert (Q1 : 2 ^ 52 <= q) by nia.
  assert (Q2 : q < 2 ^ 54) by nia.
  destruct q as [|qp|qp]; try lia.
  assert (Dq : prec <= Z.pos (digits2_pos qp) <= 54).
  { split; [apply digits2_pos_ge; unfold prec; simpl; lia | apply digits2_pos_lt; lia]. }
  assert (PW : 2 ^ (-52 - (ei - eu - prec)) = 2 * 2 ^ (eu - ei)).
  { replace (-52 - (ei - eu - prec)) with (1 + (eu - ei)) by (unfold prec; lia).
    rewrite pow2_split by lia. reflexivity. }
  assert (PE : 1 <= 2 ^ (eu - ei)) by (pose proof (pow2_pos (eu - ei)); lia).
  destruct (binary_round_aux_upper qp (ei - eu - prec) (new_location (Z.pos mu) r)
              (2 ^ 52)%positive (-52)) as (m & e & E & Dm & He & Hm).
  - lia.
  - unfold prec, emin64 in *. lia.
  - reflexivity.
  - unfold emax, prec. lia.
  - unfold prec in *. lia.
  - rewrite PW. change (Z.pos (2 ^ 52)) with (2 ^ 52).
    destruct Hle as [Hlt|[-> Hm]].
    + assert (2 <= 2 ^ (eu - ei)).
      { replace (eu - ei) with (1 + (eu - ei - 1)) by lia. rewrite pow2_split by lia.
        pose proof (pow2_pos (eu - ei - 1)). change (2 ^ 1) with 2. lia. }
      nia.
    + rewrite Z.sub_diag. change (2 ^ 0) with 1. nia.
  - intros Hl. assert (Hr0 : r <> 0).
    { intros ->. apply Hl. apply new_location_zero. }
    rewrite PW. change (Z.pos (2 ^ 52)) with (2 ^ 52).
    destruct Hle as [Hlt|[-> Hm]].
    + assert (2 <= 2 ^ (eu - ei)).
      { replace (eu - ei) with (1 + (eu - ei - 1)) by lia. rewrite pow2_split by lia.
        pose proof (pow2_pos (eu - ei - 1)). change (2 ^ 1) with 2. lia. }
      nia.
    + rewrite Z.sub_diag. change (2 ^ 0) with 1. nia.
  - exists m, e. split; [exact E|]. split; [exact Dm|]. split; [unfold prec in *; lia|].
    exact Hm.
Qed.

(** A normal constant times a normal number at most 1 is a normal
    number at most the constant. *)
Lemma mul_le_const (mc mp : positive) (ec ep : Z) :
  Z.pos (digits2_pos mc) = prec -> Z.pos (digits2_pos mp) = prec ->
  -60 <= ec <= 0 -> -200 <= ep <= -52 ->
  Z.pos mp <= 2 ^ 52 * 2 ^ (-52 - ep) ->
  exists m e,
    mul (S754_finite false mc ec) (S754_finite false mp ep) = S754_finite false m e
    /\ Z.pos (digits2_pos m) = prec
    /\ ec + ep + 52 <= e <= ec
    /\ Z.pos m <= Z.pos mc * 2 ^ (ec - e).
Proof.
  intros Dc Dp Hec Hep Hp.
  pose proof (normal_bounds mc Dc) as Bc. pose proof (normal_bounds mp Dp) as Bp.
  assert (Hp' : Z.pos mp <= 2 ^ (- ep)).
  { replace (- ep) with (52 + (-52 - ep)) by lia. rewrite pow2_split by lia. exact Hp. }
  pose proof (pow2_pos (- ep) ltac:(lia)) as Pe.
  assert (P53 : 2 ^ 53 = 2 * 2 ^ 52) by reflexivity.
  unfold mul, SFmul. simpl xorb.
  assert (D1 : 105 <= Z.pos (digits2_pos (mc * mp))).
  { apply digits2_pos_ge. rewrite Pos2Z.inj_mul.
    change (2 ^ (105 - 1)) with (2 ^ 52 * 2 ^ 52). nia. }
  assert (D2 : Z.pos (digits2_pos (mc * mp)) <= 53 - ep).
  { apply digits2_pos_lt. rewrite Pos2Z.inj_mul.
    replace (53 - ep) with (53 + (- ep)) by lia. rewrite pow2_split by lia. nia. }
  destruct (binary_round_aux_upper (mc * mp) (ec + ep) loc_Exact mc ec)
    as (m & e & E & Dm & He & Hm).
  - unfold prec. lia.
  - unfold prec, emin64. lia.
  - exact Dc.
  - unfold emax, prec. lia.
  - unfold prec. lia.
  - replace (ec - (ec + ep)) with (- ep) by lia. rewrite Pos2Z.inj_mul. nia.
  - intros H. congruence.
  - exists m, e. split; [exact E|]. split; [exact Dm|]. split; [unfold prec in *; lia|].
    exact Hm.
Qed.

(** The sum of a number at most [0.7] and a number at most [0.3] is at
    most 1: the two literals add up to [1 - 2^-54]. *)
Lemma add_le_one (ma mb : positive) (ea eb : Z) :
  Z.pos (digits2_pos ma) = prec -> Z.pos (digits2_pos mb) = prec ->
  -400 <= ea <= -53 -> -400 <= eb <= -54 ->
  Z.pos ma <= 6305039478318694 * 2 ^ (-53 - ea) ->
  Z.pos mb <= 5404319552844595 * 2 ^ (-54 - eb) ->
  exists m e,
    add (S754_finite false ma ea) (S754_finite false mb eb) = S754_finite false m e
    /\ Z.pos (digits2_pos m) = prec
    /\ Z.min ea eb <= e <= -52
    /\ Z.pos m <= 2 ^ 52 * 2 ^ (-52 - e).
Proof.
  intros Da Db Hea Heb Ha Hb.
  pose proof (normal_bounds ma Da) as Ba. pose proof (normal_bounds mb Db) as Bb.
  unfold add, SFadd. simpl cond_Zopp.
  set (ez := Z.min ea eb).
  assert (Hez : -400 <= ez <= -54) by (unfold ez; lia).
  destruct (shl_align_value ma ea ez) as [Va _]; [unfold ez; lia|].
  destruct (shl_align_value mb eb ez) as [Vb _]; [unfold ez; lia|].
  rewrite Va, Vb.
  pose proof (pow2_pos (ea - ez) ltac:(unfold ez; lia)) as Pa.
  pose proof (pow2_pos (eb - ez) ltac:(unfold ez; lia)) as Pb.
  pose proof (pow2_pos (-54 - ez) ltac:(lia)) as Pz.
  (* both terms on the scale 2^(-54 - ez) *)
  assert (Ta : Z.pos ma * 2 ^ (ea - ez) <= 2 * 6305039478318694 * 2 ^ (-54 - ez)).
  { replace (-54 - ez) with ((-53 - ea) + (ea - ez) - 1) by lia.
    assert (X : 2 ^ (-53 - ea + (ea - ez)) = 2 * 2 ^ (-53 - ea + (ea - ez) - 1)).
    { replace (-53 - ea + (ea - ez)) with (1 + (-53 - ea + (ea - ez) - 1)) at 1 by lia.
      rewrite pow2_split by (unfold ez; lia). reflexivity. }
    rewrite pow2_split in X by (unfold ez; lia).
    pose proof (pow2_pos (-53 - ea) ltac:(lia)). nia. }
  assert (Tb : Z.pos mb * 2 ^ (eb - ez) <= 5404319552844595 * 2 ^ (-54 - ez)).
  { replace (-54 - ez) with ((-54 - eb) + (eb - ez)) by lia.
    rewrite pow2_split by (unfold ez; lia).
    pose proof (pow2_pos (-54 - eb) ltac:(lia)). nia. }
  assert (Sum : Z.pos ma * 2 ^ (ea - ez) + Z.pos mb * 2 ^ (eb - ez) < 2 ^ (- ez)).
  { replace (- ez) with (54 + (-54 - ez)) by lia. rewrite pow2_split by lia.
    change (2 ^ 54) with 18014398509481984. lia. }
  assert (Low : 2 ^ 52 <= Z.pos ma * 2 ^ (ea - ez) + Z.pos mb * 2 ^ (eb - ez)) by nia.
  destruct (Z.pos ma * 2 ^ (ea - ez) + Z.pos mb * 2 ^ (eb - ez)) as [|zp|zp] eqn:Z0; try lia.
  unfold binary_normalize, binary_round.
  assert (D1 : prec <= Z.pos (digits2_pos zp)).
  { apply digits2_pos_ge. unfold prec. simpl. lia. }
  assert (D2 : Z.pos (digits2_pos zp) <= 1 - ez).
  { apply digits2_pos_lt. replace (1 - ez) with (1 + (- ez)) by lia.
    rewrite pow2_split by lia. change (2 ^ 1) with 2. lia. }
  rewrite fexp_normal by (unfold prec, emin64 in *; lia).
  rewrite shl_align_id by lia.
  destruct (binary_round_aux_upper zp ez loc_Exact (2 ^ 52)%positive (-52))
    as (m & e & E & Dm & He & Hm).
  - exact D1.
  - unfold prec, emin64 in *. lia.
  - reflexivity.
  - unfold emax, prec. lia.
  - unfold prec in *. lia.
  - change (Z.pos (2 ^ 52)) with (2 ^ 52). rewrite <- pow2_split by lia.
    replace (52 + (-52 - ez)) with (- ez) by lia. lia.
  - intros H. congruence.
  - exists m, e. split; [exact E|]. split; [exact Dm|]. split; [unfold prec in *; lia|].
    exact Hm.
Qed.

Lemma binary_round_aux_sign (s : bool) (m e : Z) (l : location) :
  0 <= m -> has_sign s (binary_round_aux prec emax s m e l).
Proof.
  intros H. unfold binary_round_aux.
  destruct (shr_fexp prec emax m e l) as [mrs' e'] eqn:E1.
  pose proof (shr_fexp_nonneg m e l H) as H1. rewrite E1 in H1. simpl in H1.
  destruct (shr_fexp prec emax _ e' loc_Exact) as [mrs'' e''] eqn:E2.
  pose proof (shr_fexp_nonneg _ e' loc_Exact
                (round_nearest_even_nonneg _ (loc_of_shr_record mrs') H1)) as H2.
  rewrite E2 in H2. simpl in H2.
  destruct (shr_m mrs'') as [|p|p]; simpl.
  - reflexivity.
  - destruct (Z.leb e'' _); reflexivity.
  - lia.
Qed.

Lemma binary_round_sign (s : bool) (m : positive) (e : Z) :
  has_sign s (binary_round prec emax s m e).
Proof.
  unfold binary_round. destruct (shl_align _ _ _) as [mz ez].
  apply binary_round_aux_sign. lia.
Qed.

(** A positive integer mantissa below a normal number rounds to a
    finite positive number. *)
Lemma binary_round_pos_finite (zp mY : positive) (ez eY : Z) :
  -400 <= ez -> Z.pos (digits2_pos mY) = prec -> eY <= emax - prec -> ez <= eY ->
  Z.pos zp <= Z.pos mY * 2 ^ (eY - ez) ->
  exists m e, binary_round prec emax false zp ez = S754_finite false m e.
Proof.
  intros Hez DY HeY Hle Hz. unfold binary_round.
  set (d := Z.pos (digits2_pos zp)).
  assert (0 < d) by (unfold d; lia).
  rewrite fexp_normal by (unfold prec, emin64; fold d; lia). fold d.
  destruct (Z.lt_ge_cases d prec) as [Hd|Hd].
  - destruct (shl_align_value zp ez (d + ez - prec)) as [V1 V2]; [lia|].
    destruct (shl_align zp ez (d + ez - prec)) as [mz ez']. cbn [fst snd] in V1, V2. subst ez'.
    pose proof (digits2_pos_bounds zp) as B. fold d in B.
    assert (Dm : Z.pos (digits2_pos mz) = prec).
    { apply digits2_unique. rewrite V1.
      replace (ez - (d + ez - prec)) with (prec - d) by lia. split.
      - replace (prec - 1) with ((d - 1) + (prec - d)) by lia. rewrite pow2_split by lia.
        apply Z.mul_le_mono_nonneg_r; [apply Z.pow_nonneg|]; lia.
      - replace prec with (d + (prec - d)) at 2 by lia. rewrite pow2_split by lia.
        apply Z.mul_lt_mono_pos_r; [apply pow2_pos|]; lia. }
    exists mz, (d + ez - prec).
    apply binary_round_aux_exact; [exact Dm|]. unfold prec, emax, emin64 in *. lia.
  - rewrite shl_align_id by lia.
    pose proof (normal_bounds mY DY) as BY.
    pose proof (pow2_pos (eY - ez) ltac:(lia)) as PE.
    assert (D2 : d <= 53 + (eY - ez)).
    { apply digits2_pos_lt. rewrite pow2_split by lia. nia. }
    destruct (binary_round_aux_upper zp ez loc_Exact mY eY)
      as (m & e & E & _); fold d; try assumption; try (unfold prec, emin64 in *; lia).
    + intros X. congruence.
    + now exists m, e.
Qed.

(** The sign of the difference of two such values tells their order. *)
Lemma sub_sign (a b : number) :
  unit_value a -> unit_value b -> ltb zero (sub b a) = ltb a b.
Proof.
  intros [->|(ma & ea & -> & Da & Hea & Ha)] [->|(mb & eb & -> & Db & Heb & Hb)];
    try reflexivity.
  pose proof (normal_bounds ma Da) as Ba. pose proof (normal_bounds mb Db) as Bb.
  assert (P53 : 2 ^ 53 = 2 * 2 ^ 52) by reflexivity.
  unfold sub, SFsub. simpl cond_Zopp.
  unfold ltb at 2. unfold SFltb, SFcompare.
  change (PosDef.Pos.compare_cont Eq ma mb) with (Pos.compare ma mb).
  destruct (Z.compare_spec ea eb) as [Heq|Hlt|Hgt].
  - (* same exponent *)
    subst eb. rewrite Z.min_id.
    destruct (shl_align_value ma ea ea) as [Va _]; [lia|].
    destruct (shl_align_value mb ea ea) as [Vb _]; [lia|].
    rewrite Va, Vb, Z.sub_diag, Z.pow_0_r, !Z.mul_1_r.
    destruct (Pos.compare_spec ma mb) as [E|L|G].
    + subst mb. rewrite Z.sub_diag. reflexivity.
    + destruct (Z.pos mb - Z.pos ma) as [|zp|zp] eqn:Z0; try lia.
      destruct (binary_round_pos_finite zp mb ea ea ltac:(lia) Db
                  ltac:(unfold emax, prec; lia) ltac:(lia)
                  ltac:(rewrite Z.sub_diag, Z.pow_0_r; lia)) as (m & e & E).
      unfold binary_normalize. rewrite E. reflexivity.
    + destruct (Z.pos mb - Z.pos ma) as [|zp|zp] eqn:Z0; try lia.
      unfold binary_normalize.
      pose proof (binary_round_sign true zp ea) as S.
      destruct (binary_round prec emax true zp ea) as [s|s| |s m e]; simpl in S;
        try contradiction; subst s; reflexivity.
  - (* a has the lower exponent: b is above *)
    rewrite Z.min_r by lia.
    destruct (shl_align_value ma ea ea) as [Va _]; [lia|].
    destruct (shl_align_value mb eb ea) as [Vb _]; [lia|].
    rewrite Va, Vb, Z.sub_diag, Z.pow_0_r, Z.mul_1_r.
    assert (2 <= 2 ^ (eb - ea)).
    { replace (eb - ea) with (1 + (eb - ea - 1)) by lia. rewrite pow2_split by lia.
      pose proof (pow2_pos (eb - ea - 1) ltac:(lia)). change (2 ^ 1) with 2. lia. }
    destruct (Z.pos mb * 2 ^ (eb - ea) - Z.pos ma) as [|zp|zp] eqn:Z0; try nia.
    destruct (binary_round_pos_finite zp mb ea eb ltac:(lia) Db
                ltac:(unfold emax, prec; lia) ltac:(lia) ltac:(lia)) as (m & e & E).
    unfold binary_normalize. rewrite E. reflexivity.
  - (* b has the lower exponent: b is below *)
    rewrite Z.min_l by lia.
    destruct (shl_align_value ma ea eb) as [Va _]; [lia|].
    destruct (shl_align_value mb eb eb) as [Vb _]; [lia|].
    rewrite Va, Vb, Z.sub_diag, Z.pow_0_r, Z.mul_1_r.
    assert (2 <= 2 ^ (ea - eb)).
    { replace (ea - eb) with (1 + (ea - eb - 1)) by lia. rewrite pow2_split by lia.
      pose proof (pow2_pos (ea - eb - 1) ltac:(lia)). change (2 ^ 1) with 2. lia. }
    destruct (Z.pos mb - Z.pos ma * 2 ^ (ea - eb)) as [|zp|zp] eqn:Z0; try nia.
    unfold binary_normalize.
    pose proof (binary_round_sign true zp eb) as S.
    destruct (binary_round prec emax true zp eb) as [s|s| |s m e]; simpl in S;
      try contradiction; subst s; reflexivity.
Qed.

(** *** Order of the values of the unit interval *)

Lemma leb_finite (m1 m2 : positive) (e1 e2 : Z) :
  leb (S754_finite false m1 e1) (S754_finite false m2 e2) = true
  <-> e1 < e2 \/ (e1 = e2 /\ Z.pos m1 <= Z.pos m2).
Proof.
  unfold leb, SFleb, SFcompare.
  change (PosDef.Pos.compare_cont Eq m1 m2) with (Pos.compare m1 m2).
  destruct (Z.compare_spec e1 e2); [destruct (Pos.compare_spec m1 m2)| |];
    split; intros H'; try reflexivity; try discriminate; try lia.
Qed.

Lemma ltb_finite (m1 m2 : positive) (e1 e2 : Z) :
  ltb (S754_finite false m1 e1) (S754_finite false m2 e2) = true
  <-> e1 < e2 \/ (e1 = e2 /\ Z.pos m1 < Z.pos m2).
Proof.
  unfold ltb, SFltb, SFcompare.
  change (PosDef.Pos.compare_cont Eq m1 m2) with (Pos.compare m1 m2).
  destruct (Z.compare_spec e1 e2); [destruct (Pos.compare_spec m1 m2)| |];
    split; intros H'; try reflexivity; try discriminate; try lia.
Qed.

Lemma unit_value_plain (x : number) : unit_value x -> plain x.
Proof. intros [->|(m & e & -> & _)]; [now left | right; eauto]. Qed.

Lemma leb_total (a b : number) : plain a -> plain b -> ltb a b = false -> leb b a = true.
Proof.
  intros [->|(ma & ea & ->)] [->|(mb & eb & ->)]; try reflexivity; try discriminate.
  intros H. apply leb_finite.
  destruct (ltb (S754_finite false ma ea) (S754_finite false mb eb)) eqn:L; [discriminate|].
  destruct (Z.lt_trichotomy ea eb) as [X|[X|X]]; [| |lia].
  - assert (ltb (S754_finite false ma ea) (S754_finite false mb eb) = true)
      by (apply ltb_finite; lia). congruence.
  - destruct (Z.lt_ge_cases (Z.pos ma) (Z.pos mb)); [|lia].
    assert (ltb (S754_finite false ma ea) (S754_finite false mb eb) = true)
      by (apply ltb_finite; lia). congruence.
Qed.

Lemma ltb_leb (a b : number) : ltb a b = true -> leb a b = true.
Proof.
  unfold ltb, leb, SFltb, SFleb. destruct (SFcompare a b) as [[| |]|]; congruence.
Qed.

Lemma leb_trans (a b c : number) :
  plain a -> plain b -> plain c -> leb a b = true -> leb b c = true -> leb a c = true.
Proof.
  intros [->|(ma & ea & ->)] [->|(mb & eb & ->)] [->|(mc & ec & ->)];
    try reflexivity; try discriminate.
  rewrite !leb_finite. lia.
Qed.

Lemma eqb_finite (m : positive) (e : Z) (v : number) :
  SFeqb (S754_finite false m e) v = true -> v = S754_finite false m e.
Proof.
  unfold SFeqb. destruct v as [s|s| |s m' e']; simpl; try discriminate;
    try (destruct s; discriminate).
  destruct s; try discriminate.
  change (PosDef.Pos.compare_cont Eq m m') with (Pos.compare m m').
  destruct (Z.compare_spec e e'); try discriminate.
  destruct (Pos.compare_spec m m'); try discriminate.
  intros _. now subst.
Qed.

Lemma eqb_zero (v : number) : SFeqb zero v = true -> exists s, v = S754_zero s.
Proof.
  unfold SFeqb. destruct v as [s|s| |s m' e']; simpl; try discriminate;
    try (destruct s; discriminate).
  intros _. now exists s.
Qed.

Lemma eqb_same_not_ltb (a b v : number) :
  plain a -> plain b -> SFeqb a v = true -> SFeqb b v = true -> ltb a b = false.
Proof.
  intros [->|(ma & ea & ->)] [->|(mb & eb & ->)] Ea Eb.
  - reflexivity.
  - apply eqb_zero in Ea. apply eqb_finite in Eb. destruct Ea as [s ->]. discriminate.
  - apply eqb_zero in Eb. apply eqb_finite in Ea. destruct Eb as [s ->]. discriminate.
  - apply eqb_finite in Ea. apply eqb_finite in Eb. rewrite Ea in Eb.
    injection Eb as E1 E2. subst mb eb.
    destruct (ltb (S754_finite false ma ea) (S754_finite false ma ea)) eqn:L; [|reflexivity].
    apply ltb_finite in L. lia.
Qed.

Lemma unit_value_between (x : number) : unit_value x -> between zero one x = true.
Proof.
  intros [->|(m & e & -> & D & He & Hm)]; [reflexivity|].
  unfold between. apply andb_true_iff. split; [reflexivity|].
  change one with (S754_finite false (2 ^ 52) (-52)).
  apply leb_finite. destruct (Z.eq_dec e (-52)) as [->|N]; [right|left; lia].
  split; [reflexivity|]. change (2 ^ (-52 - -52)) with 1 in Hm.
  change (Z.pos (2 ^ 52)) with (2 ^ 52). lia.
Qed.

(** *** The similarity and the composite score *)

Section Composite.
Import Matching.

Lemma digits2_pos_mono (p q : positive) :
  Z.pos p <= Z.pos q -> Z.pos (digits2_pos p) <= Z.pos (digits2_pos q).
Proof.
  intros H. pose proof (digits2_pos_bounds q) as [_ U].
  apply digits2_pos_lt. lia.
Qed.

(** The quotient of two counts, the first at most the second. *)
Lemma div_counts_unit (i u : nat) :
  (i <= u)%nat -> (0 < u)%nat -> Z.of_nat u < 2 ^ 53 ->
  unit_from (-200) (div (of_nat i) (of_nat u)).
Proof.
  intros Hiu Hu Hb. unfold of_nat.
  destruct (Z.of_nat u) as [|pu|pu] eqn:Eu; try lia.
  destruct (of_Z_small pu Hb) as (mu & Ou & Vu & Du). rewrite Ou.
  destruct (Z.of_nat i) as [|pi|pi] eqn:Ei; try lia.
  - left. reflexivity.
  - assert (Hi : Z.pos pi <= Z.pos pu) by lia.
    destruct (of_Z_small pi ltac:(lia)) as (mi & Oi & Vi & Di). rewrite Oi.
    pose proof (digits2_pos_mono pi pu Hi) as Dm.
    pose proof (digits2_pos_lt pu 53 Hb) as Dub.
    set (di := Z.pos (digits2_pos pi)) in *. set (du := Z.pos (digits2_pos pu)) in *.
    assert (0 < di) by (unfold di; lia).
    assert (Lex : di - 53 < du - 53 \/ (di - 53 = du - 53 /\ Z.pos mi <= Z.pos mu)).
    { destruct (Z.eq_dec di du) as [X|X]; [right|left; lia].
      split; [lia|]. rewrite Vi, Vu, X.
      apply Z.mul_le_mono_nonneg_r; [apply Z.pow_nonneg; lia | exact Hi]. }
    destruct (div_le_one mi mu (di - 53) (du - 53) Di Du ltac:(lia) ltac:(lia) Lex)
      as (m & e & E & D & He & Hm).
    right. exists m, e. split; [exact E|]. split; [exact D|]. split; [lia | exact Hm].
Qed.

Lemma filter_mem_length (a b : list string) :
  NoDup a -> (List.length (filter (fun x => JS.mem x b) a) <= List.length b)%nat.
Proof.
  intros H. apply NoDup_incl_length.
  - now apply NoDup_filter.
  - intros x Hx. apply filter_In in Hx. now apply mem_In.
Qed.

Lemma jaccard_unit (a b : list string) :
  NoDup a -> Z.of_nat (List.length a) < 2 ^ 32 -> Z.of_nat (List.length b) < 2 ^ 32 ->
  unit_from (-200) (jaccard a b).
Proof.
  intros Ha La Lb. unfold jaccard.
  pose proof (filter_mem_length a b Ha) as F.
  pose proof (filter_length_le (fun x => JS.mem x b) a) as G.
  set (inter := List.length (filter (fun x => JS.mem x b) a)) in *.
  destruct (Nat.eqb_spec (List.length a + List.length b - inter) 0) as [E|E].
  - now left.
  - apply div_counts_unit; lia.
Qed.

Lemma term_at_most (mc : positive) (ec : Z) (x : number) :
  Z.pos (digits2_pos mc) = prec -> -60 <= ec <= 0 ->
  unit_from (-200) x ->
  (if truthy x then mul (S754_finite false mc ec) x else zero)
    = mul (S754_finite false mc ec) x
  /\ at_most mc ec (mul (S754_finite false mc ec) x).
Proof.
  intros Dc Hec [->|(m & e & -> & D & He & Hm)].
  - split; [reflexivity | now left].
  - split; [reflexivity|].
    destruct (mul_le_const mc m ec e Dc D Hec ltac:(lia) Hm) as (m' & e' & E & D' & He' & Hm').
    right. exists m', e'. split; [exact E|]. split; [exact D'|]. split; [lia | exact Hm'].
Qed.

Lemma composite_unit (p s : number) :
  unit_from (-200) p -> unit_from (-200) s ->
  unit_value (add (mul lit_0_7 p) (mul lit_0_3 s)).
Proof.
  intros Hp Hs.
  destruct (term_at_most 6305039478318694 (-53) p eq_refl ltac:(lia) Hp) as [_ Tp].
  destruct (term_at_most 5404319552844595 (-54) s eq_refl ltac:(lia) Hs) as [_ Ts].
  fold lit_0_7 in Tp. fold lit_0_3 in Ts.
  destruct Tp as [->|(ma & ea & -> & Da & Hea & Ha)];
    destruct Ts as [->|(mb & eb & -> & Db & Heb & Hb)].
  - now left.
  - right. exists mb, eb. split; [reflexivity|]. split; [exact Db|]. split; [lia|].
    pose proof (pow2_pos (-54 - eb) ltac:(lia)).
    replace (-52 - eb) with (2 + (-54 - eb)) by lia. rewrite pow2_split by lia.
    rewrite Z.mul_assoc. change (2 ^ 52 * 2 ^ 2) with 18014398509481984. lia.
  - right. exists ma, ea. split; [reflexivity|]. split; [exact Da|]. split; [lia|].
    pose proof (pow2_pos (-53 - ea) ltac:(lia)).
    replace (-52 - ea) with (1 + (-53 - ea)) by lia. rewrite pow2_split by lia.
    rewrite Z.mul_assoc. change (2 ^ 52 * 2 ^ 1) with 9007199254740992. lia.
  - destruct (add_le_one ma mb ea eb Da Db Hea Heb Ha Hb) as (m & e & E & D & He & Hm).
    right. exists m, e. split; [exact E|]. split; [exact D|]. split; [lia | exact Hm].
Qed.

Lemma uniq_length (l : list string) : (List.length (JS.uniq l) <= List.length l)%nat.
Proof.
  unfold JS.uniq.
  assert (G : forall acc, (List.length (fold_left JS.set_add l acc)
                           <= List.length acc + List.length l)%nat).
  { induction l as [|x l IH]; intros acc; simpl; [lia|].
    specialize (IH (JS.set_add acc x)). unfold JS.set_add in *.
    destruct (JS.mem x acc); [lia|]. rewrite length_app in IH. simpl in IH. lia. }
  exact (G []).
Qed.

End Composite.

(** *** The sort of the prefilter *)

Section SortFacts.
Import Matching.

Lemma sort_insert_perm (x : Candidate) (l : list Candidate) :
  Permutation (sort_insert x l) (x :: l).
Proof.
  induction l as [|y r IH]; simpl; [reflexivity|].
  destruct (ltb zero (comparator x y)); [|reflexivity].
  rewrite IH. apply perm_swap.
Qed.

Lemma sort_perm (l : list Candidate) : Permutation (sort l) l.
Proof.
  induction l as [|x l IH]; simpl; [reflexivity|].
  rewrite sort_insert_perm. now constructor.
Qed.

Lemma comparator_sign (x y : Candidate) :
  in_unit x -> in_unit y ->
  ltb zero (comparator x y) = ltb (composite x) (composite y).
Proof. intros Hx Hy. unfold comparator. now apply sub_sign. Qed.

Lemma sort_insert_sorted (x : Candidate) (l : list Candidate) :
  in_unit x -> Forall in_unit l ->
  StronglySorted ge_composite l -> StronglySorted ge_composite (sort_insert x l).
Proof.
  intros Hx Hl Hs. induction l as [|y r IH]; simpl.
  - repeat constructor.
  - inversion Hl as [|? ? Hy Hr]; subst. inversion Hs as [|? ? Sr Fy]; subst.
    rewrite comparator_sign by assumption.
    destruct (ltb (composite x) (composite y)) eqn:L.
    + constructor; [now apply IH|].
      apply Forall_forall. intros z Hz.
      apply (Permutation_in _ (sort_insert_perm x r)) in Hz.
      destruct Hz as [<-|Hz].
      * now apply ltb_leb.
      * rewrite Forall_forall in Fy. now apply Fy.
    + assert (Gxy : ge_composite x y).
      { apply leb_total; auto using unit_value_plain. }
      constructor; [exact Hs|]. constructor; [exact Gxy|].
      apply Forall_forall. intros z Hz. rewrite Forall_forall in Fy, Hr.
      unfold ge_composite. apply (leb_trans _ (composite y));
        auto using unit_value_plain.
      * apply unit_value_plain. now apply Hr.
      * now apply Fy.
Qed.

Lemma sort_in_unit (l : list Candidate) : Forall in_unit l -> Forall in_unit (sort l).
Proof.
  intros H. rewrite Forall_forall in *. intros x Hx.
  apply H. now apply (Permutation_in _ (sort_perm l)).
Qed.

Lemma sort_sorted (l : list Candidate) :
  Forall in_unit l -> StronglySorted ge_composite (sort l).
Proof.
  induction l as [|x l IH]; intros H; simpl; [constructor|].
  inversion H; subst. apply sort_insert_sorted; auto using sort_in_unit.
Qed.

Lemma sort_insert_filter (P : Candidate -> bool) (x : Candidate) (l : list Candidate) :
  (forall y, In y l -> P x = true -> P y = true -> ltb zero (comparator x y) = false) ->
  filter P (sort_insert x l) = filter P (x :: l).
Proof.
  induction l as [|y r IH]; intros H; [reflexivity|].
  cbn [sort_insert]. destruct (ltb zero (comparator x y)) eqn:L; [|reflexivity].
  cbn [filter]. rewrite IH by (intros z Hz; apply H; now right).
  cbn [filter]. destruct (P x) eqn:Px, (P y) eqn:Py; try reflexivity.
  rewrite (H y (or_introl eq_refl) eq_refl Py) in L. discriminate.
Qed.

(** Equal composites keep the order they had. *)
Lemma sort_stable (l : list Candidate) (v : number) :
  Forall in_unit l ->
  filter (fun c => SFeqb (composite c) v) (sort l)
  = filter (fun c => SFeqb (composite c) v) l.
Proof.
  induction l as [|x l IH]; intros H; [reflexivity|].
  inversion H as [|? ? Hx Hl]; subst. cbn [sort fold_right].
  fold (sort l). rewrite sort_insert_filter.
  - cbn [filter]. now rewrite IH.
  - intros y Hy Px Py. pose proof (sort_in_unit l Hl) as U.
    rewrite Forall_forall in U. rewrite comparator_sign by auto.
    apply (eqb_same_not_ltb _ _ v); auto using unit_value_plain.
    apply unit_value_plain. now apply U.
Qed.

End SortFacts.

Section PrefilterFacts.
Import Matching.

Lemma jaccard_empty (b : list string) :
  Z.of_nat (List.length b) < 2 ^ 32 -> jaccard [] b = zero.
Proof.
  intros H. unfold jaccard. cbn [filter List.length Nat.add].
  rewrite Nat.sub_0_r. destruct (Nat.eqb_spec (List.length b) 0) as [E|E]; [reflexivity|].
  unfold of_nat. destruct (Z.of_nat (List.length b)) as [|p|p] eqn:Eb; try lia.
  destruct (of_Z_small p ltac:(lia)) as (m & O & _). rewrite O. reflexivity.
Qed.

Lemma score_job_spec (sset pset : list string) (j : Job) :
  NoDup sset -> NoDup pset ->
  Z.of_nat (List.length sset) < 2 ^ 32 -> Z.of_nat (List.length pset) < 2 ^ 32 ->
  Z.of_nat (List.length (jobKeywords j)) < 2 ^ 32 ->
  let jset := JS.uniq (jobKeywords j) in
  composite (score_job sset pset j)
  = add (mul lit_0_7 (jaccard pset jset)) (mul lit_0_3 (jaccard sset jset))
  /\ unit_value (composite (score_job sset pset j)).
Proof.
  intros Ns Np Ls Lp Lj jset.
  assert (Lj' : Z.of_nat (List.length jset) < 2 ^ 32).
  { pose proof (uniq_length (jobKeywords j)). unfold jset. lia. }
  pose proof (jaccard_unit pset jset Np Lp Lj') as Up.
  pose proof (jaccard_unit sset jset Ns Ls Lj') as Us.
  destruct (term_at_most 6305039478318694 (-53) _ eq_refl ltac:(lia) Up) as [Ep _].
  destruct (term_at_most 5404319552844595 (-54) _ eq_refl ltac:(lia) Us) as [Es _].
  fold lit_0_7 in Ep. fold lit_0_3 in Es.
  assert (E : composite (score_job sset pset j)
              = add (mul lit_0_7 (jaccard pset jset)) (mul lit_0_3 (jaccard sset jset))).
  { unfold score_job. cbn [composite]. fold jset. now rewrite Ep, Es. }
  split; [exact E|]. rewrite E. now apply composite_unit.
Qed.

End PrefilterFacts.

End Rounding.

(** ** Reranker *)

Section RerankerFacts.
Import Num Matching.

Lemma slice0Z_of_nat (A : Type) (n : nat) (l : list A) :
  slice0Z (Z.of_nat n) l = firstn n l.
Proof.
  unfold slice0Z. destruct (Z.leb_spec 0 (Z.of_nat n)); [|lia].
  now rewrite Nat2Z.id.
Qed.

Lemma Forall2_map_r (A B : Type) (R : A -> B -> Prop) (f : A -> B) (l : list A) :
  (forall a, R a (f a)) -> Forall2 R l (List.map f l).
Proof. intros H. induction l; simpl; constructor; auto. Qed.

Lemma filter_some_In (A : Type) (l : list (option A)) (x : A) :
  In x (filter_some l) <-> In (Some x) l.
Proof.
  induction l as [|[a|] l IH]; simpl; [tauto| |].
  - rewrite IH. split; intros [H|H]; auto; left; congruence.
  - rewrite IH. split; [auto | intros [H|H]; [discriminate | exact H]].
Qed.

Lemma In_slice0Z (A : Type) (k : Z) (l : list A) (x : A) :
  In x (slice0Z k l) -> In x l.
Proof. unfold slice0Z. destruct (0 <=? k)%Z; apply In_firstn_In. Qed.

Lemma own_job_Some (JOBS : list Job) (k : string) (j : Job) :
  own_job JOBS k = Some j -> In j JOBS /\ id j = k.
Proof.
  induction JOBS as [|a JOBS IH]; simpl; [discriminate|].
  destruct (own_job JOBS k) as [j'|].
  - intros [= ->]. destruct (IH eq_refl). auto.
  - destruct (String.eqb_spec (id a) k); [|discriminate].
    intros [= ->]. auto.
Qed.

Lemma own_job_None (JOBS : list Job) (k : string) :
  (forall j, In j JOBS -> id j <> k) -> own_job JOBS k = None.
Proof.
  induction JOBS as [|a JOBS IH]; simpl; [reflexivity|].
  intros H. rewrite IH by auto.
  destruct (String.eqb_spec (id a) k); [|reflexivity].
  exfalso. eapply H; eauto.
Qed.

Section Scores.
Variable StringToNumber : string -> number.
Local Abbreviation score_in := (Matching.score_in StringToNumber).

Lemma score_in_falsy (v : Json.JSValue) : Json.truthy v = false -> score_in v = zero.
Proof. intros H. unfold Matching.score_in, Json.or_else. rewrite H. reflexivity. Qed.

Lemma number_or_zero (v : Json.JSValue) (d : number) :
  Json.absent_or_number v -> is_nan d = false ->
  is_nan (Json.Number StringToNumber (Json.or_else v (Json.JNum d))) = false.
Proof.
  destruct v as [| |b|x|t|t]; simpl; try tauto.
  intros Hx Hd. unfold Json.or_else. simpl.
  destruct (truthy x); simpl; assumption.
Qed.

Lemma clamp_range_of_number (x : number) :
  is_nan x = false -> between zero hundred (clamp x) = true.
Proof.
  intros H. destruct (clamp_spec x) as [[N _]|[_ [B _]]]; [congruence | exact B].
Qed.

Lemma clamp_not_nan (x : number) : is_nan x = false -> is_nan (clamp x) = false.
Proof.
  intros H. destruct (clamp_spec x) as [[N _]|[_ [_ [E|(m & e & E)]]]];
    [congruence | now rewrite E | now rewrite E].
Qed.

(** What [ranked_of_match] computes for a match that is kept. *)
Lemma ranked_of_match_scores (JOBS : list Job) (m : RawMatch) (r : RankedJob) :
  ranked_of_match StringToNumber JOBS m = Some r ->
  preference (scores r) = score_in (raw_preference m)
  /\ skill (scores r) = score_in (raw_skill m)
  /\ overall (scores r)
     = clamp (Json.Number StringToNumber
                (Json.or_else (raw_overall m)
                   (Json.JNum (blend (score_in (raw_preference m))
                                     (score_in (raw_skill m)))))).
Proof.
  unfold ranked_of_match. destruct (byId JOBS (job_id m));
    intros [= <-]; simpl; auto.
Qed.

Lemma ranked_of_match_known (JOBS : list Job) (m : RawMatch) (r : RankedJob) :
  ranked_of_match StringToNumber JOBS m = Some r ->
  (exists j, In j JOBS /\ id j = job_id m /\ rj_job r = Some j)
  \/ In (job_id m) object_prototype_keys.
Proof.
  unfold ranked_of_match, byId.
  destruct (own_job JOBS (job_id m)) as [j|] eqn:O.
  - intros [= <-]. left. exists j. destruct (own_job_Some _ _ _ O). auto.
  - destruct (JS.mem (job_id m) object_prototype_keys) eqn:M; [|discriminate].
    intros _. right. now apply mem_In.
Qed.

Lemma ranked_of_match_unknown (JOBS : list Job) (m : RawMatch) :
  (forall j, In j JOBS -> id j <> job_id m) ->
  ~ In (job_id m) object_prototype_keys ->
  ranked_of_match StringToNumber JOBS m = None.
Proof.
  intros H1 H2. unfold ranked_of_match, byId.
  rewrite own_job_None by assumption.
  now rewrite (proj2 (mem_false_iff _ _) H2).
Qed.

End Scores.

End RerankerFacts.

(** C1, as stated, fails: with preference tokens present the overall
    score of the baseline is the rounded blend, here 35, and not the
    preference score 50. *)
Lemma rerank_baseline_overall_not_preference :
  let doc := Matching.doc_about "remote" in
  let c := {| Matching.job := Matching.job_of "j1" "Engineer" [];
              Matching.baseline_skill := Num.zero;
              Matching.baseline_preference := Num.of_Z 50;
              Matching.composite := Num.zero |} in
  Matching.derivePreferenceTokens doc = ["remote"%string]
  /\ option_map
       (List.map (fun r => (Matching.preference (Matching.scores r),
                            Matching.overall (Matching.scores r))))
       (Matching.rerankWithClaude false (fun _ => S754_nan)
          (fun _ _ _ => Matching.Threw) [] doc [c] 1)
     = Some [(Num.of_Z 50, Num.of_Z 35)]
  /\ Num.of_Z 35 <> Num.of_Z 50.
Proof.
  cbv zeta. split; [vm_compute; reflexivity|].
  split; [vm_compute; reflexivity | vm_compute; discriminate].
Qed.

(** C1 (amended): without the capability the reranker does not use the
    service, whatever it would answer, and returns the first [limit]
    shortlist entries, each with its job, with [scores.preference] and
    [scores.skill] equal to the lexical baselines, and with
    [scores.overall] equal to [Math.round(0.7*preference + 0.3*skill)]
    when the profile has preference tokens and to the skill score
    otherwise. *)
Theorem rerank_without_capability
  (StringToNumber : string -> Num.number)
  (ask_rerank : Matching.ProfileDoc -> list Matching.Candidate -> Z -> Matching.LLMReply)
  (JOBS : list Matching.Job) (doc : Matching.ProfileDoc)
  (candidates : list Matching.Candidate) (limit : nat) :
  exists out,
    Matching.rerankWithClaude false StringToNumber ask_rerank JOBS doc candidates
      (Z.of_nat limit) = Some out
    /\ Forall2
         (fun c r =>
            Matching.rj_job r = Some (Matching.job c)
            /\ Matching.preference (Matching.scores r) = Matching.baseline_preference c
            /\ Matching.skill (Matching.scores r) = Matching.baseline_skill c
            /\ Matching.overall (Matching.scores r)
               = match Matching.derivePreferenceTokens doc with
                 | _ :: _ =>
                     Num.Math_round
                       (Num.add (Num.mul Num.lit_0_7 (Matching.baseline_preference c))
                                (Num.mul Num.lit_0_3 (Matching.baseline_skill c)))
                 | [] => Matching.baseline_skill c
                 end)
         (firstn limit candidates) out.
Proof.
  eexists. split.
  - unfold Matching.rerankWithClaude. simpl negb. cbv iota.
    rewrite slice0Z_of_nat. reflexivity.
  - apply Forall2_map_r. intros c. simpl.
    destruct (Matching.derivePreferenceTokens doc); simpl; auto.
Qed.

(** C6, as stated, fails: a match without an overall score gets the
    rounded blend of its two other scores, here 74, and not 0. *)
Lemma rerank_missing_overall_is_blend :
  let JOBS := [ Matching.job_of "j1" "Engineer" [] ] in
  let m := {| Matching.job_id := "j1";
              Matching.raw_preference := Json.JNum (Num.of_Z 80);
              Matching.raw_skill := Json.JNum (Num.of_Z 60);
              Matching.raw_overall := Json.JUndefined;
              Matching.raw_reason_preference := Json.JUndefined;
              Matching.raw_reason_skill := Json.JUndefined |} in
  option_map (List.map (fun r => Matching.overall (Matching.scores r)))
    (Matching.rerankWithClaude true (fun _ => S754_nan)
       (fun _ _ _ => Matching.Matches [m]) JOBS (Matching.doc_about "") [] 10)
  = Some [Num.of_Z 74]
  /\ Num.of_Z 74 <> Num.zero.
Proof. cbv zeta. split; [vm_compute; reflexivity | vm_compute; discriminate]. Qed.

(** C6 (amended): when the service replies with matches of which one at
    least is usable, the result is the head of the kept matches, and each
    kept match has a job id of the catalog (or one of the names every
    object inherits) and carries that job; a preference or skill score
    that is missing (or falsy) is 0; a missing (or falsy) overall score is
    [Math.round(0.7*preference + 0.3*skill)] of the two scores, clamped;
    every score is [NaN] or lies in [0, 100], and it lies in [0, 100]
    when the three scores of the match are each absent or a number. A
    match whose id is neither in the catalog nor an inherited name is not
    kept. *)
Theorem rerank_reply_scores
  (StringToNumber : string -> Num.number)
  (ask_rerank : Matching.ProfileDoc -> list Matching.Candidate -> Z -> Matching.LLMReply)
  (JOBS : list Matching.Job) (doc : Matching.ProfileDoc)
  (candidates : list Matching.Candidate) (limit : Z) (ms : list Matching.RawMatch)
  (Hreply : ask_rerank doc candidates limit = Matching.Matches ms)
  (Husable : Matching.filter_some
               (List.map (Matching.ranked_of_match StringToNumber JOBS) ms) <> []) :
  let kept := Matching.filter_some
                (List.map (Matching.ranked_of_match StringToNumber JOBS) ms) in
  let in_range x := Num.between Num.zero Num.hundred x = true in
  Matching.rerankWithClaude true StringToNumber ask_rerank JOBS doc candidates limit
    = Some (Matching.slice0Z limit kept)
  /\ (forall m, In m ms ->
        (forall j, In j JOBS -> Matching.id j <> Matching.job_id m) ->
        ~ In (Matching.job_id m) Matching.object_prototype_keys ->
        Matching.ranked_of_match StringToNumber JOBS m = None)
  /\ forall r, In r (Matching.slice0Z limit kept) ->
       exists m, In m ms
         /\ ((exists j, In j JOBS /\ Matching.id j = Matching.job_id m
                        /\ Matching.rj_job r = Some j)
             \/ In (Matching.job_id m) Matching.object_prototype_keys)
         /\ (Json.truthy (Matching.raw_preference m) = false ->
             Matching.preference (Matching.scores r) = Num.zero)
         /\ (Json.truthy (Matching.raw_skill m) = false ->
             Matching.skill (Matching.scores r) = Num.zero)
         /\ (Json.truthy (Matching.raw_overall m) = false ->
             Matching.overall (Matching.scores r)
             = Matching.clamp (Matching.blend (Matching.preference (Matching.scores r))
                                              (Matching.skill (Matching.scores r))))
         /\ (forall x, In x [Matching.preference (Matching.scores r);
                             Matching.skill (Matching.scores r);
                             Matching.overall (Matching.scores r)] ->
               Num.is_nan x = true \/ in_range x)
         /\ (Json.absent_or_number (Matching.raw_preference m) ->
             Json.absent_or_number (Matching.raw_skill m) ->
             Json.absent_or_number (Matching.raw_overall m) ->
             in_range (Matching.preference (Matching.scores r))
             /\ in_range (Matching.skill (Matching.scores r))
             /\ in_range (Matching.overall (Matching.scores r))).
Proof.
  intros kept in_range. split; [|split].
  - unfold Matching.rerankWithClaude. simpl negb. cbv iota. rewrite Hreply.
    subst kept. revert Husable.
    destruct (Matching.filter_some _); [congruence | reflexivity].
  - intros m _. apply ranked_of_match_unknown.
  - intros r Hr. apply In_slice0Z in Hr. unfold kept in Hr.
    apply filter_some_In, in_map_iff in Hr. destruct Hr as (m & Hm & Hin).
    exists m. split; [exact Hin|].
    split; [exact (ranked_of_match_known _ _ _ _ Hm)|].
    destruct (ranked_of_match_scores _ _ _ _ Hm) as (Ep & Es & Eo).
    split; [intros F; rewrite Ep; now apply score_in_falsy|].
    split; [intros F; rewrite Es; now apply score_in_falsy|].
    split.
    { intros F. rewrite Eo, Ep, Es. unfold Json.or_else. rewrite F. reflexivity. }
    split.
    { intros x [<-|[<-|[<-|[]]]]; rewrite ?Ep, ?Es, ?Eo; apply clamp_nan_or_range. }
    intros Np Ns No.
    assert (Pp : Num.is_nan (Matching.score_in StringToNumber (Matching.raw_preference m)) = false).
    { apply clamp_not_nan, number_or_zero; auto. }
    assert (Ps : Num.is_nan (Matching.score_in StringToNumber (Matching.raw_skill m)) = false).
    { apply clamp_not_nan, number_or_zero; auto. }
    rewrite Ep, Es, Eo. unfold in_range. repeat split.
    + apply clamp_range_of_number, number_or_zero; auto.
    + apply clamp_range_of_number, number_or_zero; auto.
    + apply clamp_range_of_number, number_or_zero; [exact No|].
      apply nonneg_not_nan, Math_round_nonneg.
      unfold Matching.score_in in *.
      set (p := Json.Number StringToNumber _) in *.
      set (q := Json.Number StringToNumber (Json.or_else (Matching.raw_skill m) _)) in *.
      assert (G : forall x, Num.is_nan (Matching.clamp x) = false ->
                  Num.nonneg (Matching.clamp x)
                  /\ forall s0, Matching.clamp x = S754_infinity s0 -> False).
      { intros x Hx. destruct (clamp_spec x) as [[N E]|[_ [_ [E|(m0 & e0 & E)]]]].
        - rewrite E in Hx. discriminate.
        - rewrite E. split; [reflexivity | discriminate].
        - rewrite E. split; [reflexivity | discriminate]. }
      destruct (G p Pp) as [P1 P2], (G q Ps) as [S1 S2].
      apply add_nonneg; apply mul_nonneg; auto; try reflexivity; discriminate.
Qed.

(** The statement at a reply of one match for the one job of a catalog. *)
Lemma rerank_reply_scores_witness :
  let JOBS := [ Matching.job_of "j1" "Engineer" [] ] in
  let m := {| Matching.job_id := "j1";
              Matching.raw_preference := Json.JNum (Num.of_Z 80);
              Matching.raw_skill := Json.JUndefined;
              Matching.raw_overall := Json.JNum (Num.of_Z 250);
              Matching.raw_reason_preference := Json.JStr "remote";
              Matching.raw_reason_skill := Json.JUndefined |} in
  Matching.rerankWithClaude true (fun _ => S754_nan)
    (fun _ _ _ => Matching.Matches [m]) JOBS (Matching.doc_about "") [] 10
  = Some (Matching.slice0Z 10
            (Matching.filter_some
               (List.map (Matching.ranked_of_match (fun _ => S754_nan) JOBS) [m]))).
Proof.
  cbv zeta.
  refine (proj1 (rerank_reply_scores (fun _ => S754_nan) (fun _ _ _ => Matching.Matches _)
                   _ (Matching.doc_about "") [] 10 _ eq_refl _)).
  vm_compute. discriminate.
Defined.

(** ** Request handlers *)

Section HandlerFacts.
Import Matching Server.

Lemma lower_char_space (c : ascii) : JS.is_space (JS.lower_char c) = JS.is_space c.
Proof. destruct c as [[] [] [] [] [] [] [] []]; reflexivity. Qed.

Lemma lower_char_digit (c : ascii) : is_digit (JS.lower_char c) = is_digit c.
Proof. destruct c as [[] [] [] [] [] [] [] []]; reflexivity. Qed.

Lemma lower_char_digit_id (c : ascii) : is_digit c = true -> JS.lower_char c = c.
Proof. destruct c as [[] [] [] [] [] [] [] []]; intros H; try reflexivity; discriminate H. Qed.

Lemma lower_char_sign (c : ascii) (n : nat) :
  n = 45 \/ n = 43 -> (JS.code (JS.lower_char c) =? n) = (JS.code c =? n).
Proof.
  intros [-> | ->]; destruct c as [[] [] [] [] [] [] [] []]; reflexivity.
Qed.

Lemma trimStart_lower (s : string) :
  JS.trimStart (JS.toLowerCase s) = JS.toLowerCase (JS.trimStart s).
Proof.
  induction s as [|c s IH]; simpl; [reflexivity|].
  rewrite lower_char_space. destruct (JS.is_space c); [exact IH | reflexivity].
Qed.

Lemma read_digits_lower (s : string) (acc : option Z) :
  read_digits (JS.toLowerCase s) acc = read_digits s acc.
Proof.
  revert acc. induction s as [|c s IH]; intros acc; simpl; [reflexivity|].
  rewrite lower_char_digit. destruct (is_digit c) eqn:D; [|reflexivity].
  rewrite (lower_char_digit_id c D). apply IH.
Qed.

Lemma parseInt_lower (s : string) : parseInt (JS.toLowerCase s) = parseInt s.
Proof.
  unfold parseInt. rewrite trimStart_lower.
  destruct (JS.trimStart s) as [|c r]; simpl; [reflexivity|].
  rewrite !lower_char_sign by auto.
  destruct (JS.code c =? 45); [now rewrite read_digits_lower|].
  destruct (JS.code c =? 43); [now rewrite read_digits_lower|].
  exact (read_digits_lower (String c r) None).
Qed.

End HandlerFacts.



(** C10, as stated, fails: the limit ["ALL"] is not the string ["all"],
    it does not parse as an integer, and with 11 jobs the limit is 11,
    not the default 10. *)
Lemma desiredLimit_uppercase_all :
  Server.desiredLimit 11 (Some "ALL"%string) = 11%Z
  /\ "ALL"%string <> "all"%string
  /\ Server.parseInt "ALL" = None
  /\ Z.min 10 11 = 10%Z.
Proof. repeat split; try reflexivity. discriminate. Qed.

(** C10 (amended): a limit that is absent, empty, or ["all"] in any
    letter case asks for all jobs, and the effective limit is the
    catalog size; for every other limit the effective limit is the
    minimum of the catalog size and the parsed integer, where a limit that
    parses to 0 or does not parse counts as 10. *)
Theorem desiredLimit_spec (njobs : nat) (limit : option string) :
  ((limit = None \/ limit = Some EmptyString
    \/ exists s, limit = Some s /\ JS.toLowerCase s = "all"%string) ->
   Server.wantAll limit = true /\ Server.desiredLimit njobs limit = Z.of_nat njobs)
  /\ (forall s, limit = Some s -> s <> EmptyString -> JS.toLowerCase s <> "all"%string ->
      Server.wantAll limit = false
      /\ Server.desiredLimit njobs limit
         = Z.min (match Server.parseInt s with
                  | Some k => if (k =? 0)%Z then 10%Z else k
                  | None => 10%Z
                  end) (Z.of_nat njobs)).
Proof.
  split.
  - intros H.
    assert (W : Server.wantAll limit = true).
    { destruct H as [-> | [-> | (s & -> & E)]]; try reflexivity.
      unfold Server.wantAll, Server.limitParam.
      destruct s; [reflexivity|]. simpl JS.truthy. cbv iota.
      rewrite E. reflexivity. }
    split; [exact W|]. unfold Server.desiredLimit. now rewrite W.
  - intros s -> Hne Hall.
    assert (L : Server.limitParam (Some s) = JS.toLowerCase s).
    { unfold Server.limitParam. destruct s; [congruence | reflexivity]. }
    assert (W : Server.wantAll (Some s) = false).
    { unfold Server.wantAll. rewrite L. now apply String.eqb_neq. }
    split; [exact W|]. unfold Server.desiredLimit. rewrite W, L.
    unfold Server.parsed_or_default. now rewrite parseInt_lower.
Qed.

(** ** Tokens and similarity *)

Section KeywordFacts.
Import Num Matching.

Lemma toLowerCase_app (a b : string) :
  JS.toLowerCase (a ++ b) = (JS.toLowerCase a ++ JS.toLowerCase b)%string.
Proof. induction a as [|c r IH]; simpl; [reflexivity | now rewrite IH]. Qed.

Lemma blank_others_app (a b : string) :
  blank_others (a ++ b) = (blank_others a ++ blank_others b)%string.
Proof. induction a as [|c r IH]; simpl; [reflexivity | now rewrite IH]. Qed.

(** Splitting a string that continues after a blank: the first field is
    not touched, and the words of the continuation follow. *)
Lemma split_ws_app (a b : string) (sp : ascii) :
  JS.is_space sp = true ->
  forall st,
    (st = false ->
     exists h t t2,
       split_ws_from false a = h :: t
       /\ split_ws_from false (a ++ String sp b) = h :: t2
       /\ filter JS.truthy t2 = filter JS.truthy t ++ filter JS.truthy (split_ws_from true b))
    /\ (st = true ->
        filter JS.truthy (split_ws_from true (a ++ String sp b))
        = filter JS.truthy (split_ws_from true a) ++ filter JS.truthy (split_ws_from true b)).
Proof.
  intros Hsp. induction a as [|c r IH]; intros st.
  - split; intros ->.
    + exists EmptyString, [], (split_ws_from true b). simpl. rewrite Hsp. auto.
    + simpl. rewrite Hsp. reflexivity.
  - destruct (IH false) as [F _]. destruct (IH true) as [_ T].
    specialize (F eq_refl). specialize (T eq_refl).
    destruct F as (h & t & t2 & E1 & E2 & E3).
    split; intros ->; simpl; destruct (JS.is_space c) eqn:E.
    + exists EmptyString, (split_ws_from true r), (split_ws_from true (r ++ String sp b)).
      auto.
    + rewrite E1, E2. exists (String c h), t, t2. auto.
    + exact T.
    + rewrite E1, E2. simpl. now rewrite E3.
Qed.

Lemma words_any_state (s : string) :
  filter JS.truthy (split_ws_from true s) = filter JS.truthy (split_ws_from false s).
Proof. destruct s as [|c r]; simpl; [reflexivity|]. destruct (JS.is_space c); reflexivity. Qed.

Lemma words_app (a b : string) :
  filter JS.truthy (split_ws (a ++ " " ++ b))
  = filter JS.truthy (split_ws a) ++ filter JS.truthy (split_ws b).
Proof.
  unfold split_ws.
  destruct (split_ws_app a b " "%char eq_refl false) as [F _].
  destruct (F eq_refl) as (h & t & t2 & E1 & E2 & E3).
  change (a ++ " " ++ b)%string with (a ++ String " "%char b)%string.
  rewrite E1, E2. simpl. rewrite E3, words_any_state. now destruct (JS.truthy h).
Qed.

Lemma filter_and {A : Type} (p q : A -> bool) (l : list A) :
  filter (fun x => p x && q x) l = filter q (filter p l).
Proof.
  induction l as [|x l IH]; simpl; [reflexivity|].
  destruct (p x); simpl; [destruct (q x)|]; now rewrite IH.
Qed.

Lemma tokenize_words (s : string) :
  tokenize s
  = filter (fun x => negb (JS.mem x STOP))
      (filter JS.truthy (split_ws (blank_others (JS.toLowerCase s)))).
Proof. unfold tokenize. apply filter_and. Qed.

Lemma tokenize_app (a b : string) :
  tokenize (a ++ " " ++ b) = tokenize a ++ tokenize b.
Proof.
  rewrite !tokenize_words, !toLowerCase_app, !blank_others_app.
  change (blank_others (JS.toLowerCase " ")) with " "%string.
  now rewrite words_app, filter_app.
Qed.

Lemma tokenize_join (l : list string) :
  tokenize (JS.join " " l) = flat_map tokenize l.
Proof.
  induction l as [|x r IH]; [reflexivity|].
  destruct r as [|y r'].
  - simpl. now rewrite app_nil_r.
  - change (JS.join " " (x :: y :: r')) with (x ++ " " ++ JS.join " " (y :: r'))%string.
    rewrite tokenize_app, IH. reflexivity.
Qed.

Lemma jobKeywords_eq (j : Job) :
  jobKeywords j = JS.uniq (flat_map tokenize (Matching.job_words j)).
Proof. unfold jobKeywords. fold (Matching.job_words j). now rewrite tokenize_join. Qed.

Lemma inter_length_sym (a b : list string) :
  NoDup a -> NoDup b ->
  List.length (filter (fun x => JS.mem x b) a)
  = List.length (filter (fun x => JS.mem x a) b).
Proof.
  intros Ha Hb. apply Permutation_length, NoDup_Permutation;
    try (apply NoDup_filter; assumption).
  intros x. rewrite !filter_In, !mem_In. tauto.
Qed.

Lemma set_mem_mem (x : string) (l : list string) :
  ListSet.set_mem string_dec x l = JS.mem x l.
Proof.
  induction l as [|y l IH]; simpl; [reflexivity|].
  destruct (string_dec x y) as [->|N]; [now rewrite String.eqb_refl|].
  rewrite IH. destruct (String.eqb_spec x y); [congruence | reflexivity].
Qed.

(** The loop of [jaccard] counts the common elements. *)
Lemma common_filter (a b : list string) :
  common a b = List.length (filter (fun x => JS.mem x b) a).
Proof.
  unfold common. induction a as [|x a IH]; simpl; [reflexivity|].
  rewrite set_mem_mem. destruct (JS.mem x b); simpl; now rewrite IH.
Qed.

(** On sets, the two sizes less the common elements count the union. *)
Lemma either_count (a b : list string) :
  NoDup a -> NoDup b ->
  either a b
  = (List.length a + List.length b - List.length (filter (fun x => JS.mem x b) a))%nat.
Proof.
  intros Ha Hb. unfold either.
  set (c := filter (fun y => negb (JS.mem y a)) b).
  assert (P : Permutation (ListSet.set_union string_dec a b) (a ++ c)).
  { apply NoDup_Permutation.
    - now apply ListSet.set_union_nodup.
    - apply NoDup_app; [exact Ha | now apply NoDup_filter |].
      intros x Hx Hc. apply filter_In in Hc. destruct Hc as [_ Hc].
      apply negb_true_iff, mem_false_iff in Hc. contradiction.
    - intros x. rewrite ListSet.set_union_iff, in_app_iff. unfold c.
      rewrite filter_In, negb_true_iff, mem_false_iff.
      destruct (in_dec string_dec x a); tauto. }
  rewrite (Permutation_length P), length_app.
  pose proof (filter_length (fun y => JS.mem y a) b) as F. cbv beta in F. fold c in F.
  rewrite (inter_length_sym a b Ha Hb). lia.
Qed.

Lemma jaccard_similarity (a b : list string) :
  NoDup a -> NoDup b -> jaccard a b = similarity a b.
Proof.
  intros Ha Hb. unfold jaccard, similarity.
  now rewrite common_filter, either_count.
Qed.

Lemma jobKeywords_set (j : Job) :
  let jset := JS.uniq (jobKeywords j) in
  NoDup jset
  /\ forall t, In t jset <-> exists w, In w (job_words j) /\ In t (tokenize w).
Proof.
  cbv zeta. split; [apply uniq_NoDup|].
  intros t. rewrite uniq_In, jobKeywords_eq, uniq_In, in_flat_map. reflexivity.
Qed.

End KeywordFacts.

(** ** Lexical prefilter *)

(** The scenario of the specification: three jobs, preference tokens that
    are the keywords of the second job, no skill token in common with any
    job; the second job comes first. *)
Example prefilter_preferred_job_first :
  let JOBS := [ Matching.job_of "j1" "Accountant" ["ledger"; "audit"]%string;
                Matching.job_of "j2" "Engineer" ["python"; "rust"]%string;
                Matching.job_of "j3" "Nurse" ["clinic"]%string ] in
  List.map (fun c => Matching.id (Matching.job c))
    (Matching.prefilterCandidates JOBS ["cobol"]%string
       ["engineer"; "acme"; "remote"; "python"; "rust"]%string 3)
  = ["j2"; "j3"; "j1"]%string.
Proof. vm_compute. reflexivity. Qed.

(** The similarity at the second job of the scenario: two of the five
    distinct tokens are shared, and the quotient is the binary64 number
    nearest to 0.4. *)
Example similarity_two_of_five :
  let jset := JS.uniq (Matching.jobKeywords
                         (Matching.job_of "j2" "Engineer" ["python"; "rust"]%string)) in
  let pset := ["remote"; "rust"]%string in
  Matching.common pset jset = 2 /\ Matching.either pset jset = 5
  /\ Matching.jaccard pset jset = Num.div (Num.of_nat 2) (Num.of_nat 5)
  /\ Num.div (Num.of_nat 2) (Num.of_nat 5) = S754_finite false 7205759403792794 (-54).
Proof. vm_compute. repeat split; reflexivity. Qed.

(** C7: for a catalog and token lists of array size, the prefilter works
    on the sets of the skill tokens, of the preference tokens and, for
    each job, of the tokens of its title, company, location, description
    and keywords; [jaccard] is the similarity of two such sets, the
    number of common elements divided by the number of elements of
    either, 0 when both are empty; the composite of every job is
    [0.7 * preferenceJaccard + 0.3 * skillJaccard] as the runtime computes
    it, a term being 0 when its token list is empty; it lies in [0, 1];
    and the prefilter returns the first [topN] of the scored jobs in
    descending order of composite, jobs of equal composite in catalog
    order. *)
Theorem prefilter_composite_order
  (JOBS : list Matching.Job) (skillTokens prefTokens : list string) (topN : nat)
  (Hskill : (Z.of_nat (List.length skillTokens) < 2 ^ 32)%Z)
  (Hpref : (Z.of_nat (List.length prefTokens) < 2 ^ 32)%Z)
  (Hjobs : Forall (fun j => (Z.of_nat (List.length (Matching.jobKeywords j)) < 2 ^ 32)%Z)
             JOBS) :
  let sset := JS.uniq skillTokens in
  let pset := JS.uniq prefTokens in
  let scored := List.map (Matching.score_job sset pset) JOBS in
  (NoDup sset /\ forall t, In t sset <-> In t skillTokens)
  /\ (NoDup pset /\ forall t, In t pset <-> In t prefTokens)
  /\ (forall j, In j JOBS ->
      let jset := JS.uniq (Matching.jobKeywords j) in
      let c := Matching.score_job sset pset j in
      (NoDup jset
       /\ forall t, In t jset
                    <-> exists w, In w (Matching.job_words j) /\ In t (Matching.tokenize w))
      /\ Matching.jaccard pset jset = Matching.similarity pset jset
      /\ Matching.jaccard sset jset = Matching.similarity sset jset
      /\ Matching.composite c
         = Num.add (Num.mul Num.lit_0_7 (Matching.similarity pset jset))
                   (Num.mul Num.lit_0_3 (Matching.similarity sset jset))
      /\ (prefTokens = [] -> Num.mul Num.lit_0_7 (Matching.similarity pset jset) = Num.zero)
      /\ (skillTokens = [] -> Num.mul Num.lit_0_3 (Matching.similarity sset jset) = Num.zero)
      /\ Num.between Num.zero Num.one (Matching.composite c) = true)
  /\ exists ranked,
       Matching.prefilterCandidates JOBS skillTokens prefTokens topN = firstn topN ranked
       /\ Permutation ranked scored
       /\ StronglySorted
            (fun a b => Num.leb (Matching.composite b) (Matching.composite a) = true)
            ranked
       /\ forall v,
            filter (fun c => SFeqb (Matching.composite c) v) ranked
            = filter (fun c => SFeqb (Matching.composite c) v) scored.
Proof.
  intros sset pset scored.
  assert (Ns : NoDup sset) by apply uniq_NoDup.
  assert (Np : NoDup pset) by apply uniq_NoDup.
  assert (Ls : (Z.of_nat (List.length sset) < 2 ^ 32)%Z).
  { pose proof (uniq_length skillTokens). unfold sset. lia. }
  assert (Lp : (Z.of_nat (List.length pset) < 2 ^ 32)%Z).
  { pose proof (uniq_length prefTokens). unfold pset. lia. }
  rewrite Forall_forall in Hjobs.
  assert (U : Forall Matching.in_unit scored).
  { apply Forall_forall. intros c Hc. apply in_map_iff in Hc.
    destruct Hc as (j & <- & Hj).
    exact (proj2 (score_job_spec sset pset j Ns Np Ls Lp (Hjobs j Hj))). }
  split; [split; [exact Ns | intros t; apply uniq_In]|].
  split; [split; [exact Np | intros t; apply uniq_In]|].
  split.
  - intros j Hj jset c.
    assert (Lj : (Z.of_nat (List.length jset) < 2 ^ 32)%Z).
    { pose proof (uniq_length (Matching.jobKeywords j)). specialize (Hjobs j Hj).
      unfold jset. lia. }
    destruct (jobKeywords_set j) as [Nj Mj]. fold jset in Nj, Mj.
    pose proof (jaccard_similarity pset jset Np Nj) as Jp.
    pose proof (jaccard_similarity sset jset Ns Nj) as Js.
    destruct (score_job_spec sset pset j Ns Np Ls Lp (Hjobs j Hj)) as [E Uc].
    fold jset in E. rewrite Jp, Js in E.
    split; [split; [exact Nj | exact Mj]|].
    split; [exact Jp|]. split; [exact Js|]. split; [exact E|]. split; [|split].
    + intros ->. rewrite <- Jp. unfold pset. change (JS.uniq []) with (@nil string).
      now rewrite jaccard_empty.
    + intros ->. rewrite <- Js. unfold sset. change (JS.uniq []) with (@nil string).
      now rewrite jaccard_empty.
    + now apply unit_value_between.
  - exists (Matching.sort scored). split; [reflexivity|].
    split; [apply sort_perm|]. split; [now apply sort_sorted|].
    intros v. now apply sort_stable.
Qed.

(** The statement at a catalog of three jobs. *)
Lemma prefilter_composite_order_witness :
  let JOBS := [ Matching.job_of "j1" "Accountant" ["ledger"; "audit"]%string;
                Matching.job_of "j2" "Engineer" ["python"; "rust"]%string;
                Matching.job_of "j3" "Nurse" ["clinic"]%string ] in
  let j2 := Matching.job_of "j2" "Engineer" ["python"; "rust"]%string in
  let pset := JS.uniq ["remote"; "rust"]%string in
  (exists ranked,
     Matching.prefilterCandidates JOBS ["python"]%string ["remote"; "rust"]%string 2
     = firstn 2 ranked
     /\ Permutation ranked
          (List.map (Matching.score_job (JS.uniq ["python"]%string) pset) JOBS))
  /\ Matching.jaccard pset (JS.uniq (Matching.jobKeywords j2))
     = Matching.similarity pset (JS.uniq (Matching.jobKeywords j2)).
Proof.
  cbv zeta.
  destruct (prefilter_composite_order
              [ Matching.job_of "j1" "Accountant" ["ledger"; "audit"]%string;
                Matching.job_of "j2" "Engineer" ["python"; "rust"]%string;
                Matching.job_of "j3" "Nurse" ["clinic"]%string ]
              ["python"]%string ["remote"; "rust"]%string 2
              ltac:(vm_compute; reflexivity) ltac:(vm_compute; reflexivity)
              ltac:(repeat constructor; vm_compute; reflexivity))
    as (_ & _ & J & ranked & E & P & _).
  split.
  - exists ranked. split; [exact E | exact P].
  - exact (proj1 (proj2 (J _ (or_intror (or_introl eq_refl))))).
Defined.

(* ================================================================== *)
(** * Part III: further properties of the code                          *)
(* ================================================================== *)

(** ** Strings and chunks *)

Section StringFacts.

Lemma trimStart_length (s : string) : String.length (JS.trimStart s) <= String.length s.
Proof.
  induction s as [|c r IH]; simpl; [lia|]. destruct (JS.is_space c); simpl; lia.
Qed.

Lemma trimEnd_length (s : string) : String.length (JS.trimEnd s) <= String.length s.
Proof.
  induction s as [|c r IH]; simpl; [lia|].
  destruct (JS.trimEnd r); [destruct (JS.is_space c)|]; simpl in *; lia.
Qed.

Lemma trim_length (s : string) : String.length (JS.trim s) <= String.length s.
Proof.
  unfold JS.trim. pose proof (trimEnd_length (JS.trimStart s)).
  pose proof (trimStart_length s). lia.
Qed.

Lemma trimEnd_idem (s : string) : JS.trimEnd (JS.trimEnd s) = JS.trimEnd s.
Proof.
  induction s as [|c r IH]; [reflexivity|]. simpl.
  destruct (JS.trimEnd r) as [|c' r'] eqn:E.
  - destruct (JS.is_space c) eqn:Ec; [reflexivity|]. simpl. now rewrite Ec.
  - simpl in *. now rewrite IH.
Qed.

(** A string that is empty or begins with a character that is no space. *)
Lemma trimStart_head (s : string) :
  match JS.trimStart s with
  | EmptyString => True
  | String c _ => JS.is_space c = false
  end.
Proof.
  induction s as [|c r IH]; simpl; [exact I|].
  destruct (JS.is_space c) eqn:E; [exact IH | exact E].
Qed.

Lemma trimEnd_keeps_head (c : ascii) (r : string) :
  JS.is_space c = false -> exists r', JS.trimEnd (String c r) = String c r'.
Proof.
  intros E. simpl. destruct (JS.trimEnd r); [rewrite E|]; eauto.
Qed.

Lemma trim_idem (s : string) : JS.trim (JS.trim s) = JS.trim s.
Proof.
  unfold JS.trim. pose proof (trimStart_head s) as H.
  destruct (JS.trimStart s) as [|c r]; [reflexivity|].
  destruct (trimEnd_keeps_head c r H) as [r' E]. rewrite E.
  cbn [JS.trimStart]. rewrite H, <- E. apply trimEnd_idem.
Qed.

Lemma slice0_length (n : nat) (s : string) :
  String.length (JS.slice0 n s) = Nat.min n (String.length s).
Proof.
  revert s. induction n as [|n IH]; intros [|c r]; try reflexivity.
  change (JS.slice0 (S n) (String c r)) with (String c (JS.slice0 n r)).
  cbn [String.length]. rewrite IH. lia.
Qed.

Lemma string_length_app (a b : string) :
  String.length (a ++ b) = String.length a + String.length b.
Proof. induction a as [|c r IH]; simpl; [reflexivity | now rewrite IH]. Qed.

End StringFacts.

Section ChunkerFacts.
Import Chunker.

Lemma push_char_nonempty (c : ascii) (l : list string) : push_char c l <> [].
Proof. destruct l; discriminate. Qed.

Lemma split_sentences_nonempty (st : scan) (s : string) :
  split_sentences_from st s <> [].
Proof.
  revert st. induction s as [|c r IH]; intros st; simpl; [discriminate|].
  destruct (JS.is_space c); [destruct st|]; try discriminate;
    auto using push_char_nonempty.
Qed.

Lemma weight_push (c : ascii) (l : list string) :
  l <> [] -> Chunker.weight (push_char c l) <= S (Chunker.weight l).
Proof. destruct l; simpl; [congruence | lia]. Qed.

Lemma split_sentences_weight (st : scan) (s : string) :
  Chunker.weight (split_sentences_from st s) <= S (String.length s).
Proof.
  revert st. induction s as [|c r IH]; intros st; simpl; [lia|].
  destruct (JS.is_space c).
  - destruct st.
    + pose proof (weight_push c (split_sentences_from Plain r)
                    (split_sentences_nonempty _ _)).
      specialize (IH Plain). lia.
    + specialize (IH InSep). simpl. lia.
    + specialize (IH InSep). lia.
  - pose proof (weight_push c
      (split_sentences_from (if is_terminator c then AfterTerm else Plain) r)
      (split_sentences_nonempty _ _)).
    specialize (IH (if is_terminator c then AfterTerm else Plain)). lia.
Qed.

(** What the loop keeps: every chunk satisfies [P], and the sentences
    left together with the buffer satisfy [Q]. *)
Lemma chunk_loop_inv (P : Chunk -> Prop) (Q : list string -> string -> Prop)
  (artifactId : string) (maxChunks : nat) :
  (forall s rest buf, Q (s :: rest) buf ->
     let next := if JS.truthy buf then (buf ++ " " ++ s)%string else s in
     Q rest s /\ (String.length next <= 800 -> Q rest next)) ->
  (forall rest buf, Q rest buf -> 120 < String.length buf ->
     P {| artifact_id := artifactId; text := JS.trim buf |}) ->
  forall sentences chunks buf,
    Forall P chunks -> Q sentences buf ->
    Forall P (fst (chunk_loop artifactId maxChunks sentences chunks buf))
    /\ exists rest, Q rest (snd (chunk_loop artifactId maxChunks sentences chunks buf)).
Proof.
  intros Step Push. induction sentences as [|s rest IH]; intros chunks buf HP HQ.
  - simpl. split; [exact HP | now exists []].
  - cbn [chunk_loop].
    destruct (Step s rest buf HQ) as (Q1 & Q2).
    set (next := if JS.truthy buf then (buf ++ " " ++ s)%string else s) in *.
    destruct (Nat.ltb_spec 800 (String.length next)) as [L|L].
    + destruct (Nat.ltb_spec 120 (String.length buf)) as [B|B].
      * assert (HP' : Forall P (chunks ++ [{| artifact_id := artifactId; text := JS.trim buf |}])).
        { apply Forall_app. split; [exact HP|].
          constructor; [now apply (Push (s :: rest)) | constructor]. }
        destruct (maxChunks <=? _)%nat.
        -- simpl. split; [exact HP' | now exists rest].
        -- now apply IH.
      * destruct (maxChunks <=? _)%nat.
        -- simpl. split; [exact HP | now exists rest].
        -- now apply IH.
    + destruct (maxChunks <=? _)%nat.
      * simpl. split; [exact HP | exists rest; now apply Q2].
      * apply IH; [exact HP | now apply Q2].
Qed.

Lemma createChunks_inv (P : Chunk -> Prop) (Q : list string -> string -> Prop)
  (text artifactId : string) (maxChunks maxChars : nat) :
  (forall s rest buf, Q (s :: rest) buf ->
     let next := if JS.truthy buf then (buf ++ " " ++ s)%string else s in
     Q rest s /\ (String.length next <= 800 -> Q rest next)) ->
  (forall rest buf, Q rest buf -> 120 < String.length buf ->
     P {| artifact_id := artifactId; text := JS.trim buf |}) ->
  Q (split_sentences (JS.slice0 maxChars text)) EmptyString ->
  Forall P (createChunksFromText text artifactId maxChunks maxChars).
Proof.
  intros Step Push Q0. unfold createChunksFromText.
  destruct (chunk_loop_inv P Q artifactId maxChunks Step Push
              (split_sentences (JS.slice0 maxChars text)) [] EmptyString
              (Forall_nil _) Q0) as [HP [rest HQ]].
  destruct (chunk_loop _ _ _ _ _) as [chunks buf]. cbn [fst snd] in *.
  apply Forall_firstn_of.
  destruct (Nat.ltb_spec 120 (String.length buf)) as [B|B]; [|exact HP].
  destruct (_ <? _)%nat; [|exact HP].
  apply Forall_app. split; [exact HP|]. constructor; [|constructor].
  now apply (Push rest).
Qed.

(** The buffer never outgrows the excerpt. *)
Lemma createChunks_within_excerpt (text artifactId : string) (maxChunks maxChars : nat) :
  Forall (fun c => String.length (Chunker.text c) <= String.length (JS.slice0 maxChars text)
                   /\ 120 < String.length (JS.slice0 maxChars text))
    (createChunksFromText text artifactId maxChunks maxChars).
Proof.
  set (L := String.length (JS.slice0 maxChars text)).
  apply createChunks_inv with
    (Q := fun rest buf =>
            String.length buf + Chunker.weight rest <= S L
            /\ (buf <> EmptyString -> String.length buf + Chunker.weight rest <= L)).
  - intros s rest buf [H1 H2]. cbn zeta. cbn [Chunker.weight fold_right] in *.
    fold (Chunker.weight rest) in *. split.
    + split; [|intros _]; destruct buf; simpl in *; try lia;
        specialize (H2 ltac:(discriminate)); simpl in H2; lia.
    + intros _. destruct buf as [|b bs].
      * cbn [JS.truthy]. simpl in *. split; [|intros _]; lia.
      * cbn [JS.truthy]. specialize (H2 ltac:(discriminate)).
        rewrite !string_length_app. simpl in *. split; [|intros _]; lia.
  - intros rest buf [H1 H2] B. cbn [Chunker.text].
    assert (N : buf <> EmptyString) by (destruct buf; simpl in B; [lia | discriminate]).
    specialize (H2 N). pose proof (trim_length buf). lia.
  - pose proof (split_sentences_weight Plain (JS.slice0 maxChars text)) as W.
    fold (split_sentences (JS.slice0 maxChars text)) in W. fold L in W.
    split; [simpl; lia | congruence].
Qed.

End ChunkerFacts.

(** X1: [createChunksFromText] returns at most [maxChunks] chunks; each
    carries the artifact id it was given, and its text has neither
    leading nor trailing whitespace (trimming it again changes nothing). *)
Theorem createChunks_count_id_trimmed (text artifactId : string) (maxChunks maxChars : nat) :
  let chunks := Chunker.createChunksFromText text artifactId maxChunks maxChars in
  List.length chunks <= maxChunks
  /\ Forall (fun c => Chunker.artifact_id c = artifactId
                      /\ JS.trim (Chunker.text c) = Chunker.text c) chunks.
Proof.
  cbv zeta. split.
  - unfold Chunker.createChunksFromText.
    destruct (Chunker.chunk_loop _ _ _ _ _) as [chunks buf].
    rewrite length_firstn. lia.
  - apply createChunks_inv with (Q := fun _ _ => True); auto.
    intros _ buf _ _. cbn [Chunker.artifact_id Chunker.text].
    split; [reflexivity | apply trim_idem].
Qed.

(** X2: no chunk is longer than the excerpt it was cut from (the first
    [maxChars] characters of the text), and a chunk of more than 800
    characters is one whole sentence of the excerpt, trimmed. *)
Theorem createChunks_length_bounds (text artifactId : string) (maxChunks maxChars : nat) :
  let excerpt := JS.slice0 maxChars text in
  Forall (fun c =>
            String.length (Chunker.text c) <= Nat.min maxChars (String.length text)
            /\ (String.length (Chunker.text c) <= 800
                \/ exists s, In s (Chunker.split_sentences excerpt)
                             /\ Chunker.text c = JS.trim s))
    (Chunker.createChunksFromText text artifactId maxChunks maxChars).
Proof.
  cbv zeta. pose proof (createChunks_within_excerpt text artifactId maxChunks maxChars) as A.
  assert (B : Forall (fun c =>
                String.length (Chunker.text c) <= 800
                \/ exists s, In s (Chunker.split_sentences (JS.slice0 maxChars text))
                             /\ Chunker.text c = JS.trim s)
                (Chunker.createChunksFromText text artifactId maxChunks maxChars)).
  { apply createChunks_inv with
      (Q := fun rest buf =>
              incl rest (Chunker.split_sentences (JS.slice0 maxChars text))
              /\ (String.length buf <= 800
                  \/ In buf (Chunker.split_sentences (JS.slice0 maxChars text)))).
    - intros s rest buf [I _]. cbv zeta.
      assert (I' : incl rest (Chunker.split_sentences (JS.slice0 maxChars text))).
      { intros x Hx. apply I. now right. }
      split; [split; [exact I' | right; apply I; now left]|].
      intros L. split; [exact I' | now left].
    - intros rest buf [_ [H|H]] _; cbn [Chunker.text].
      + left. pose proof (trim_length buf). lia.
      + right. now exists buf.
    - split; [apply incl_refl | left; simpl; lia]. }
  rewrite Forall_forall in *. intros c Hc. split; [|now apply B].
  destruct (A c Hc) as [A1 _]. rewrite slice0_length in A1. exact A1.
Qed.

(** X3: a text whose first [maxChars] characters number at most 120, the
    empty text among them, gives no chunk. *)
Theorem createChunks_short_text (text artifactId : string) (maxChunks maxChars : nat) :
  Nat.min maxChars (String.length text) <= 120 ->
  Chunker.createChunksFromText text artifactId maxChunks maxChars = [].
Proof.
  intros H. pose proof (createChunks_within_excerpt text artifactId maxChunks maxChars) as A.
  destruct (Chunker.createChunksFromText text artifactId maxChunks maxChars) as [|c l];
    [reflexivity|].
  apply Forall_inv in A. rewrite slice0_length in A. lia.
Qed.

Lemma createChunks_short_text_witness :
  Chunker.createChunksFromText "Short resume." "a1" 6 3200 = [].
Proof. apply (createChunks_short_text "Short resume." "a1" 6 3200). simpl. lia. Defined.

(** ** Deduplicated strings and form lists *)

Section UniqStringsFacts.
Import Server.

Lemma uniqStrings_from_In (arr seen : list string) (s : string) :
  In s (uniqStrings_from seen arr) ->
  In s arr /\ Skills.norm s <> EmptyString /\ ~ In (Skills.norm s) seen.
Proof.
  revert seen. induction arr as [|x r IH]; intros seen H; simpl in H; [contradiction|].
  destruct (JS.truthy (Skills.norm x)) eqn:T; cbn [negb orb] in H.
  - destruct (JS.mem (Skills.norm x) seen) eqn:M.
    + destruct (IH _ H) as (A & B & C). auto with datatypes.
    + destruct H as [<-|H].
      * split; [now left|]. split.
        -- intros E. rewrite E in T. discriminate.
        -- now apply mem_false_iff.
      * destruct (IH _ H) as (A & B & C). split; [now right|]. split; [exact B|].
        intros Hin. apply C. now right.
  - destruct (IH _ H) as (A & B & C). auto with datatypes.
Qed.

Lemma uniqStrings_from_keys (arr seen acc : list string) :
  (forall k, JS.mem k acc = JS.mem k seen) ->
  fold_left JS.set_add (filter JS.truthy (List.map Skills.norm arr)) acc
  = acc ++ List.map Skills.norm (uniqStrings_from seen arr).
Proof.
  revert seen acc. induction arr as [|x r IH]; intros seen acc H; simpl.
  - now rewrite app_nil_r.
  - destruct (JS.truthy (Skills.norm x)) eqn:T; cbn [negb orb].
    + cbn [fold_left]. unfold JS.set_add at 2. rewrite H.
      destruct (JS.mem (Skills.norm x) seen) eqn:M.
      * now apply IH.
      * rewrite (IH (Skills.norm x :: seen)).
        -- cbn [List.map]. now rewrite <- app_assoc.
        -- intros k. cbn [JS.mem].
           destruct (String.eqb_spec k (Skills.norm x)) as [->|N].
           ++ apply mem_In, in_or_app. right. now left.
           ++ rewrite <- H. destruct (JS.mem k acc) eqn:E.
              ** apply mem_In, in_or_app. left. now apply mem_In.
              ** apply mem_false_iff. intros Hin. apply in_app_or in Hin.
                 destruct Hin as [Hin|[<-|[]]]; [|congruence].
                 apply mem_In in Hin. congruence.
    + now apply IH.
Qed.

Lemma uniqStrings_from_first (arr seen : list string) (s : string) :
  In s (uniqStrings_from seen arr) ->
  find (fun x => String.eqb (Skills.norm x) (Skills.norm s)) arr = Some s.
Proof.
  revert seen. induction arr as [|x r IH]; intros seen H; simpl in H; [contradiction|].
  cbn [find].
  destruct (JS.truthy (Skills.norm x)) eqn:T; cbn [negb orb] in H.
  - destruct (JS.mem (Skills.norm x) seen) eqn:M.
    + destruct (uniqStrings_from_In _ _ _ H) as (_ & _ & C).
      destruct (String.eqb_spec (Skills.norm x) (Skills.norm s)) as [E|E].
      * exfalso. apply C. rewrite <- E. now apply mem_In.
      * now apply (IH seen).
    + destruct H as [<-|H]; [now rewrite String.eqb_refl|].
      destruct (uniqStrings_from_In _ _ _ H) as (_ & _ & C).
      destruct (String.eqb_spec (Skills.norm x) (Skills.norm s)) as [E|E].
      * exfalso. apply C. left. exact E.
      * now apply (IH (Skills.norm x :: seen)).
  - destruct (uniqStrings_from_In _ _ _ H) as (_ & B & _).
    destruct (String.eqb_spec (Skills.norm x) (Skills.norm s)) as [E|E].
    + exfalso. apply B. rewrite <- E. destruct (Skills.norm x); [reflexivity | discriminate].
    + now apply (IH seen).
Qed.

Lemma uniqStrings_from_idem (arr seen : list string) :
  uniqStrings_from seen (uniqStrings_from seen arr) = uniqStrings_from seen arr.
Proof.
  revert seen. induction arr as [|x r IH]; intros seen; simpl; [reflexivity|].
  destruct (JS.truthy (Skills.norm x)) eqn:T; cbn [negb orb]; [|apply IH].
  destruct (JS.mem (Skills.norm x) seen) eqn:M; [apply IH|].
  cbn [uniqStrings_from]. rewrite T, M. cbn [negb orb]. now rewrite IH.
Qed.

Lemma uniqStrings_from_app (a b seen : list string) :
  uniqStrings_from seen (a ++ b)
  = uniqStrings_from seen a
    ++ uniqStrings_from (rev (List.map Skills.norm (uniqStrings_from seen a)) ++ seen) b.
Proof.
  revert seen. induction a as [|x r IH]; intros seen; simpl; [reflexivity|].
  destruct (JS.truthy (Skills.norm x)) eqn:T; cbn [negb orb]; [|apply IH].
  destruct (JS.mem (Skills.norm x) seen) eqn:M; [apply IH|].
  cbn [List.map rev app]. rewrite IH, <- app_assoc. reflexivity.
Qed.

End UniqStringsFacts.

(** X4: [uniqStrings] keeps, for each distinct non-empty normalized value
    (trimmed, lower case) of the array, the first element that has it, in
    the order of these first occurrences; elements whose normalized value
    is empty are dropped. *)
Theorem uniqStrings_first_occurrences (arr : list string) :
  let out := Server.uniqStrings arr in
  List.map Skills.norm out = JS.uniq (filter JS.truthy (List.map Skills.norm arr))
  /\ Forall (fun s => find (fun x => String.eqb (Skills.norm x) (Skills.norm s)) arr
                      = Some s) out.
Proof.
  cbv zeta. split.
  - unfold Server.uniqStrings, JS.uniq.
    now rewrite (uniqStrings_from_keys arr [] []).
  - apply Forall_forall. intros s H. now apply (uniqStrings_from_first arr []).
Qed.

(** X5: deduplicating in steps is deduplicating at once: the way the
    handler accumulates keywords, [uniqStrings([...uniqStrings(a), ...b])],
    gives [uniqStrings([...a, ...b])]; in particular [uniqStrings] applied
    twice is [uniqStrings]. *)
Theorem uniqStrings_accumulates (a b : list string) :
  Server.uniqStrings (Server.uniqStrings a ++ b) = Server.uniqStrings (a ++ b)
  /\ Server.uniqStrings (Server.uniqStrings a) = Server.uniqStrings a.
Proof.
  unfold Server.uniqStrings. split.
  - rewrite !uniqStrings_from_app, uniqStrings_from_idem. reflexivity.
  - apply uniqStrings_from_idem.
Qed.

Section SplitListFacts.
Import Server.

Lemma chars_app (a b : string) :
  list_ascii_of_string (a ++ b) = list_ascii_of_string a ++ list_ascii_of_string b.
Proof. induction a as [|c r IH]; simpl; [reflexivity | now rewrite IH]. Qed.

Lemma trimStart_chars (s : string) (c : ascii) :
  In c (list_ascii_of_string (JS.trimStart s)) -> In c (list_ascii_of_string s).
Proof.
  induction s as [|d r IH]; simpl; [tauto|].
  destruct (JS.is_space d); simpl; auto.
Qed.

Lemma trimEnd_chars (s : string) (c : ascii) :
  In c (list_ascii_of_string (JS.trimEnd s)) -> In c (list_ascii_of_string s).
Proof.
  induction s as [|d r IH]; simpl; [tauto|].
  destruct (JS.trimEnd r) as [|e r'].
  - destruct (JS.is_space d); simpl; tauto.
  - simpl in *. tauto.
Qed.

Lemma trim_chars (s : string) (c : ascii) :
  In c (list_ascii_of_string (JS.trim s)) -> In c (list_ascii_of_string s).
Proof. intros H. now apply trimStart_chars, trimEnd_chars. Qed.

Lemma push_char_Forall (P : string -> Prop) (c : ascii) (l : list string) :
  l <> [] -> (forall p, P p -> P (String c p)) -> Forall P l ->
  Forall P (Chunker.push_char c l).
Proof.
  intros N Hc H. destruct l as [|p r]; [congruence|]. simpl.
  inversion H; subst. constructor; auto.
Qed.

Lemma split_list_chars_nonempty (s : string) : split_list_chars s <> [].
Proof.
  induction s as [|c r IH]; simpl; [discriminate|].
  destruct (_ || _); [discriminate | apply push_char_nonempty].
Qed.

Lemma split_list_chars_free (s : string) :
  Forall (fun p => Forall (fun c => Server.is_list_separator c = false) (list_ascii_of_string p))
    (split_list_chars s).
Proof.
  induction s as [|c r IH]; simpl.
  - repeat constructor.
  - destruct ((JS.code c =? 59)%nat || (JS.code c =? 44)%nat) eqn:E.
    + constructor; [constructor | exact IH].
    + apply push_char_Forall; [apply split_list_chars_nonempty | | exact IH].
      intros p Hp. simpl. constructor; [exact E | exact Hp].
Qed.

Lemma splitList_string_items (s : string) : Forall Server.list_item (splitList_string s).
Proof.
  unfold splitList_string. apply Forall_forall. intros x Hx.
  apply filter_In in Hx. destruct Hx as [Hx T].
  apply in_map_iff in Hx. destruct Hx as (p & <- & Hp).
  split; [intros E; rewrite E in T; discriminate|].
  split; [apply trim_idem|].
  pose proof (split_list_chars_free s) as F. rewrite Forall_forall in F.
  specialize (F p Hp). rewrite Forall_forall in *.
  intros c Hc. apply F. now apply trim_chars.
Qed.

Lemma split_list_chars_single (x : string) :
  Forall (fun c => Server.is_list_separator c = false) (list_ascii_of_string x) ->
  split_list_chars x = [x].
Proof.
  induction x as [|c r IH]; intros H; simpl; [reflexivity|].
  simpl in H. inversion H as [|? ? Hc Hr]; subst.
  unfold Server.is_list_separator in Hc. rewrite Hc, (IH Hr). reflexivity.
Qed.

Lemma split_list_chars_cons (x rest : string) :
  Forall (fun c => Server.is_list_separator c = false) (list_ascii_of_string x) ->
  split_list_chars (x ++ String ","%char rest) = x :: split_list_chars rest.
Proof.
  induction x as [|c r IH]; intros H; simpl; [reflexivity|].
  simpl in H. inversion H as [|? ? Hc Hr]; subst.
  unfold Server.is_list_separator in Hc. rewrite Hc, (IH Hr). reflexivity.
Qed.

Lemma split_list_chars_join (items : list string) :
  items <> [] -> Forall Server.list_item items ->
  split_list_chars (JS.join "," items) = items.
Proof.
  induction items as [|x r IH]; intros N H; [congruence|].
  inversion H as [|? ? (_ & _ & Fx) Hr]; subst.
  destruct r as [|y r'].
  - simpl. now apply split_list_chars_single.
  - change (JS.join "," (x :: y :: r')) with (x ++ String ","%char (JS.join "," (y :: r')))%string.
    rewrite split_list_chars_cons by exact Fx. f_equal. apply IH; [discriminate | exact Hr].
Qed.

Lemma map_id_on {A : Type} (f : A -> A) (l : list A) :
  Forall (fun x => f x = x) l -> List.map f l = l.
Proof. induction 1; simpl; congruence. Qed.

Lemma filter_id_on {A : Type} (f : A -> bool) (l : list A) :
  Forall (fun x => f x = true) l -> filter f l = l.
Proof. induction 1 as [|x l Hx _ IH]; simpl; [reflexivity|]. now rewrite Hx, IH. Qed.

Lemma splitList_items (v : FormValue) : Forall Server.list_item (splitList v).
Proof.
  destruct v as [|s|l]; simpl.
  - constructor.
  - destruct (JS.truthy s); [apply splitList_string_items | constructor].
  - apply Forall_forall. intros x Hx. apply in_flat_map in Hx.
    destruct Hx as (s & _ & Hx). destruct (JS.truthy s); [|contradiction].
    pose proof (splitList_string_items s) as F. rewrite Forall_forall in F. now apply F.
Qed.

End SplitListFacts.

(** X6: every item [splitList] returns, from a single field or a repeated
    one, is non-empty, has no whitespace around it and contains neither a
    comma nor a semicolon; an absent or empty field gives no item. *)
Theorem splitList_items_clean (v : Server.FormValue) :
  Forall Server.list_item (Server.splitList v)
  /\ Server.splitList Server.FAbsent = []
  /\ Server.splitList (Server.FStr EmptyString) = [].
Proof.
  split; [apply splitList_items | split; reflexivity].
Qed.

(** X7: [splitList] undoes [join(',')]: a list of items that are
    non-empty, trimmed and free of separators is read back unchanged
    from its comma-separated text. *)
Theorem splitList_join_round_trip (items : list string) :
  Forall Server.list_item items ->
  Server.splitList (Server.FStr (JS.join "," items)) = items.
Proof.
  intros H. destruct items as [|x r]; [reflexivity|].
  assert (T : JS.truthy (JS.join "," (x :: r)) = true).
  { inversion H as [|? ? (N & _) _]; subst.
    destruct x; [congruence|]. destruct r; reflexivity. }
  cbn [Server.splitList]. rewrite T. unfold Server.splitList_string.
  rewrite split_list_chars_join by (discriminate || exact H).
  rewrite map_id_on.
  - apply filter_id_on. eapply Forall_impl; [|exact H].
    intros a (N & _). destruct a; [congruence | reflexivity].
  - eapply Forall_impl; [|exact H]. now intros a (_ & E & _).
Qed.

Lemma splitList_join_round_trip_witness :
  Server.splitList (Server.FStr (JS.join "," ["Boston"; "New York"; "remote"]%string))
  = ["Boston"; "New York"; "remote"]%string.
Proof.
  apply (splitList_join_round_trip ["Boston"; "New York"; "remote"]%string).
  repeat constructor; discriminate.
Defined.

(** ** Tokens *)

Section TokenFacts.
Import Matching.

Lemma blank_others_chars (s : string) :
  Forall (fun c => keep_char c = true) (list_ascii_of_string (blank_others s)).
Proof.
  induction s as [|c r IH]; simpl; constructor; [|exact IH].
  destruct (keep_char c) eqn:E; [exact E | reflexivity].
Qed.

Lemma split_ws_nonempty (st : bool) (s : string) : split_ws_from st s <> [].
Proof.
  revert st. induction s as [|c r IH]; intros st; simpl; [discriminate|].
  destruct (JS.is_space c); [destruct st; [apply IH | discriminate]|].
  apply push_char_nonempty.
Qed.

(** The fields of a split hold characters of the string that are no
    spaces. *)
Lemma split_ws_fields (st : bool) (s : string) :
  Forall (fun p => Forall (fun c => JS.is_space c = false /\ In c (list_ascii_of_string s))
                     (list_ascii_of_string p))
    (split_ws_from st s).
Proof.
  revert st. induction s as [|c r IH]; intros st; simpl.
  - repeat constructor.
  - assert (W : forall l,
               Forall (fun p => Forall (fun c0 => JS.is_space c0 = false
                                                  /\ In c0 (list_ascii_of_string r))
                                  (list_ascii_of_string p)) l ->
               Forall (fun p => Forall (fun c0 => JS.is_space c0 = false
                                                  /\ (c = c0 \/ In c0 (list_ascii_of_string r)))
                                  (list_ascii_of_string p)) l).
    { intros l. apply Forall_impl. intros p. apply Forall_impl. tauto. }
    destruct (JS.is_space c) eqn:E.
    + destruct st; [apply W, IH|]. constructor; [constructor | apply W, IH].
    + apply push_char_Forall; [apply split_ws_nonempty | | apply W, IH].
      intros p Hp. simpl. constructor; [tauto | exact Hp].
Qed.

Lemma is_space_code (c : ascii) : JS.is_space c = false -> (JS.code c =? 32)%nat = false.
Proof.
  unfold JS.is_space. intros H. apply orb_false_iff in H. destruct H as [H _].
  apply orb_false_iff in H. tauto.
Qed.

Lemma tokenize_tokens (s : string) : Forall Matching.token (tokenize s).
Proof.
  apply Forall_forall. intros t Ht. unfold tokenize in Ht.
  apply filter_In in Ht. destruct Ht as [Hin Hp].
  apply andb_true_iff in Hp. destruct Hp as [T S].
  split; [intros E; rewrite E in T; discriminate|].
  split; [now apply negb_true_iff|].
  pose proof (split_ws_fields false (blank_others (JS.toLowerCase s))) as F.
  rewrite Forall_forall in F. specialize (F t Hin).
  pose proof (blank_others_chars (JS.toLowerCase s)) as K.
  rewrite Forall_forall in *. intros c Hc. destruct (F c Hc) as [Sp Hin'].
  unfold Matching.token_char. rewrite (K c Hin'), (is_space_code c Sp). reflexivity.
Qed.

Lemma token_char_lower (c : ascii) : Matching.token_char c = true -> JS.lower_char c = c.
Proof.
  destruct c as [[] [] [] [] [] [] [] []]; vm_compute; intros H;
    first [reflexivity | discriminate].
Qed.

Lemma token_char_keep (c : ascii) : Matching.token_char c = true -> keep_char c = true.
Proof. unfold Matching.token_char. intros H. apply andb_true_iff in H. tauto. Qed.

Lemma token_char_no_space (c : ascii) : Matching.token_char c = true -> JS.is_space c = false.
Proof.
  destruct c as [[] [] [] [] [] [] [] []]; vm_compute; intros H;
    first [reflexivity | discriminate].
Qed.

Lemma token_chars_fixed (t : string) :
  Forall (fun c => Matching.token_char c = true) (list_ascii_of_string t) ->
  blank_others (JS.toLowerCase t) = t /\ split_ws_from false t = [t].
Proof.
  induction t as [|c r IH]; intros H; [split; reflexivity|].
  simpl in H. inversion H as [|? ? Hc Hr]; subst.
  destruct (IH Hr) as [E1 E2]. split.
  - simpl. rewrite (token_char_lower c Hc), (token_char_keep c Hc), E1. reflexivity.
  - simpl. rewrite (token_char_no_space c Hc), E2. reflexivity.
Qed.

Lemma tokenize_token (t : string) : Matching.token t -> tokenize t = [t].
Proof.
  intros (N & S & C). unfold tokenize, split_ws.
  destruct (token_chars_fixed t C) as [E1 E2]. rewrite E1, E2.
  destruct t as [|c r]; [congruence|]. cbn [filter JS.truthy andb].
  now rewrite S.
Qed.

End TokenFacts.

(** X8: [tokenize] reads a text piece by piece: the tokens of two texts
    joined by a blank are the tokens of the first followed by those of
    the second, so the tokens of [words.join(' ')] are the tokens of each
    word in turn. *)
Theorem tokenize_joined_words (a b : string) (l : list string) :
  Matching.tokenize (a ++ " " ++ b) = Matching.tokenize a ++ Matching.tokenize b
  /\ Matching.tokenize (JS.join " " l) = flat_map Matching.tokenize l.
Proof. split; [apply tokenize_app | apply tokenize_join]. Qed.

(** X9: every token [tokenize] returns is a non-empty word over [a-z],
    [0-9], [+], [#], [.] and [-] that is no stop word; and such tokens,
    joined by blanks, are read back unchanged, so tokenizing the joined
    tokens of a text gives the tokens of the text again. *)
Theorem tokenize_tokens_round_trip (s : string) (l : list string) :
  Forall Matching.token (Matching.tokenize s)
  /\ Matching.tokenize (JS.join " " (Matching.tokenize s)) = Matching.tokenize s
  /\ (Forall Matching.token l -> Matching.tokenize (JS.join " " l) = l).
Proof.
  assert (R : forall l', Forall Matching.token l' -> Matching.tokenize (JS.join " " l') = l').
  { intros l' H. rewrite tokenize_join. induction H as [|t l' Ht _ IH]; [reflexivity|].
    simpl. now rewrite (tokenize_token t Ht), IH. }
  split; [apply tokenize_tokens|]. split; [apply R, tokenize_tokens | apply R].
Qed.

Lemma tokenize_tokens_round_trip_witness :
  Matching.tokenize (JS.join " " ["c++"; "node.js"; "remote"]%string)
  = ["c++"; "node.js"; "remote"]%string.
Proof.
  apply (proj2 (proj2 (tokenize_tokens_round_trip EmptyString
                         ["c++"; "node.js"; "remote"]%string))).
  repeat constructor; discriminate.
Defined.

Section DerivedTokenFacts.
Import Matching.

Lemma fold_set_add_known (l acc : list string) :
  incl l acc -> fold_left JS.set_add l acc = acc.
Proof.
  induction l as [|x r IH]; intros H; [reflexivity|]. simpl.
  unfold JS.set_add at 2.
  rewrite (proj2 (mem_In x acc)) by (apply H; now left).
  apply IH. intros y Hy. apply H. now right.
Qed.

Lemma uniq_app_known (l m : list string) : incl m l -> JS.uniq (l ++ m) = JS.uniq l.
Proof.
  intros H. rewrite uniq_app. apply fold_set_add_known.
  intros x Hx. apply uniq_In. now apply H.
Qed.

Lemma firstn_200_length {A : Type} (l : list A) : List.length (firstn 200 l) <= 200.
Proof. rewrite length_firstn. lia. Qed.

Lemma deriveSkillTokens_eq (doc : ProfileDoc) :
  deriveSkillTokens doc = firstn 200 (JS.uniq (flat_map tokenize (Matching.skill_words doc))).
Proof. unfold deriveSkillTokens. now rewrite tokenize_join. Qed.

Lemma derivePreferenceTokens_eq (doc : ProfileDoc) :
  derivePreferenceTokens doc = firstn 200 (JS.uniq (flat_map tokenize (Matching.preference_bag doc))).
Proof.
  unfold derivePreferenceTokens. fold (Matching.preference_bag doc).
  rewrite tokenize_app, tokenize_join, uniq_app_known; [reflexivity|].
  unfold Matching.preference_bag. cbv zeta.
  destruct (about (profile doc)) as [|c r] eqn:E.
  - intros x [].
  - cbn [JS.truthy]. intros x Hx. rewrite flat_map_app. apply in_or_app. left.
    simpl. now rewrite app_nil_r.
Qed.

Lemma flat_map_tokens (l : list string) (t : string) :
  In t (flat_map tokenize l) -> Matching.token t /\ exists w, In w l /\ In t (tokenize w).
Proof.
  intros H. apply in_flat_map in H. destruct H as (w & Hw & Ht). split; [|eauto].
  pose proof (tokenize_tokens w) as F. rewrite Forall_forall in F. auto.
Qed.

Lemma derived_tokens (l : list string) :
  let toks := firstn 200 (JS.uniq (flat_map tokenize l)) in
  NoDup toks /\ List.length toks <= 200
  /\ Forall (fun t => Matching.token t /\ exists w, In w l /\ In t (tokenize w)) toks.
Proof.
  cbv zeta. split; [apply NoDup_firstn_of, uniq_NoDup|].
  split; [apply firstn_200_length|].
  apply Forall_forall. intros t Ht. apply In_firstn_In in Ht.
  rewrite uniq_In in Ht. now apply flat_map_tokens.
Qed.

End DerivedTokenFacts.

(** X10: the keywords of a job are exactly the tokens of its title,
    company, location, description and keyword list, each once. *)
Theorem jobKeywords_are_field_tokens (j : Matching.Job) :
  NoDup (Matching.jobKeywords j)
  /\ forall t, In t (Matching.jobKeywords j)
               <-> exists w, In w (Matching.job_words j) /\ In t (Matching.tokenize w).
Proof.
  rewrite jobKeywords_eq. split; [apply uniq_NoDup|].
  intros t. rewrite uniq_In, in_flat_map. reflexivity.
Qed.

(** X11: the skill tokens and the preference tokens of a profile are at
    most 200 distinct tokens, each a token of one of the strings the
    function collects; they are the first 200 distinct tokens of these
    strings, so appending [about] once more to the preference text adds
    nothing. *)
Theorem derived_tokens_spec (doc : Matching.ProfileDoc) :
  let stoks := Matching.deriveSkillTokens doc in
  let ptoks := Matching.derivePreferenceTokens doc in
  stoks = firstn 200 (JS.uniq (flat_map Matching.tokenize (Matching.skill_words doc)))
  /\ ptoks = firstn 200 (JS.uniq (flat_map Matching.tokenize (Matching.preference_bag doc)))
  /\ NoDup stoks /\ NoDup ptoks
  /\ List.length stoks <= 200 /\ List.length ptoks <= 200
  /\ Forall (fun t => Matching.token t /\ exists w, In w (Matching.skill_words doc)
                                          /\ In t (Matching.tokenize w)) stoks
  /\ Forall (fun t => Matching.token t /\ exists w, In w (Matching.preference_bag doc)
                                          /\ In t (Matching.tokenize w)) ptoks.
Proof.
  cbv zeta. rewrite deriveSkillTokens_eq, derivePreferenceTokens_eq.
  destruct (derived_tokens (Matching.skill_words doc)) as (A1 & A2 & A3).
  destruct (derived_tokens (Matching.preference_bag doc)) as (B1 & B2 & B3).
  repeat split; assumption.
Qed.

(** ** Similarity *)

Section JaccardFacts.
Import Num Matching.
Local Open Scope Z_scope.

Lemma jaccard_sym (a b : list string) :
  NoDup a -> NoDup b -> jaccard a b = jaccard b a.
Proof.
  intros Ha Hb. unfold jaccard. rewrite (inter_length_sym a b Ha Hb).
  now rewrite (Nat.add_comm (List.length a)).
Qed.

Lemma hundred_eq : hundred = S754_finite false 7036874417766400 (-46).
Proof. reflexivity. Qed.

Lemma mul_hundred_comm (x : number) : plain x -> mul x hundred = mul hundred x.
Proof.
  intros [->|(m & e & ->)]; [reflexivity|].
  rewrite hundred_eq. unfold mul, SFmul.
  now rewrite Pos.mul_comm, Z.add_comm.
Qed.

(** A value of the unit interval, times 100 and rounded, is a whole
    number from 0 to 100. *)
Lemma percent_whole (x : number) :
  unit_from (-200) x ->
  exists k, 0 <= k <= 100 /\ Math_round (mul x hundred) = of_Z k.
Proof.
  intros U. rewrite mul_hundred_comm.
  2:{ destruct U as [->|(m & e & -> & _)]; [now left | right; eauto]. }
  destruct U as [->|(m & e & -> & D & He & Hm)].
  - exists 0. split; [lia | reflexivity].
  - rewrite hundred_eq.
    destruct (mul_le_const 7036874417766400 m (-46) e eq_refl D ltac:(lia) He Hm)
      as (m' & e' & E & D' & He' & Hm').
    rewrite E. unfold Math_round.
    destruct (Z.leb_spec 0 e') as [X|X]; [lia|].
    set (d := 2 ^ (- e')).
    assert (Hd : 0 < d) by (apply pow2_pos; lia).
    assert (Hn : Z.pos m' <= 100 * d).
    { unfold d. replace (- e') with (46 + (-46 - e')) by lia.
      rewrite pow2_split by lia.
      change (Z.pos 7036874417766400) with (100 * 2 ^ 46) in Hm'. lia. }
    set (r := (2 * Z.pos m' + d) / (2 * d)).
    assert (Hr : 0 <= r <= 100).
    { unfold r. split.
      - apply Z.div_pos; lia.
      - assert ((2 * Z.pos m' + d) / (2 * d) < 101); [|lia].
        apply Z.div_lt_upper_bound; lia. }
    exists r. split; [exact Hr|].
    destruct (Z.eqb_spec r 0) as [->|N]; reflexivity.
Qed.

(** The quotient of two counts is no zero when the first is none. *)
Lemma div_counts_pos (i u : nat) :
  (0 < i <= u)%nat -> Z.of_nat u < 2 ^ 53 ->
  exists m e, div (of_nat i) (of_nat u) = S754_finite false m e.
Proof.
  intros Hiu Hb. unfold of_nat.
  destruct (Z.of_nat u) as [|pu|pu] eqn:Eu; try lia.
  destruct (of_Z_small pu Hb) as (mu & Ou & Vu & Du). rewrite Ou.
  destruct (Z.of_nat i) as [|pi|pi] eqn:Ei; try lia.
  assert (Hi : Z.pos pi <= Z.pos pu) by lia.
  destruct (of_Z_small pi ltac:(lia)) as (mi & Oi & Vi & Di). rewrite Oi.
  pose proof (digits2_pos_mono pi pu Hi) as Dm.
  pose proof (digits2_pos_lt pu 53 Hb) as Dub.
  set (di := Z.pos (digits2_pos pi)) in *. set (du := Z.pos (digits2_pos pu)) in *.
  assert (0 < di) by (unfold di; lia).
  assert (Lex : di - 53 < du - 53 \/ (di - 53 = du - 53 /\ Z.pos mi <= Z.pos mu)).
  { destruct (Z.eq_dec di du) as [X|X]; [right|left; lia].
    split; [lia|]. rewrite Vi, Vu, X.
    apply Z.mul_le_mono_nonneg_r; [apply Z.pow_nonneg; lia | exact Hi]. }
  destruct (div_le_one mi mu (di - 53) (du - 53) Di Du ltac:(lia) ltac:(lia) Lex)
    as (m & e & E & _).
  eauto.
Qed.

(** A normal number divided by itself is 1. *)
Lemma div_same (m : positive) (e : Z) :
  Z.pos (digits2_pos m) = prec ->
  div (S754_finite false m e) (S754_finite false m e) = one.
Proof.
  intros D. unfold div, SFdiv, SFdiv_core_binary.
  cbn [Zdigits2]. rewrite D.
  replace (prec + e - (prec + e)) with 0 by lia.
  replace (e - e) with 0 by lia.
  change (Z.min (fexp prec emax 0) 0) with (-53).
  change (0 - -53) with 53.
  assert (Q : Z.div_eucl (Z.shiftl (Z.pos m) 53) (Z.pos m) = (2 ^ 53, 0)).
  { rewrite Z.shiftl_mul_pow2 by lia.
    pose proof (Z.div_eucl_eq (Z.pos m * 2 ^ 53) (Z.pos m) ltac:(lia)) as Eq.
    pose proof (Z.mod_pos_bound (Z.pos m * 2 ^ 53) (Z.pos m) ltac:(lia)) as Bd.
    unfold Z.modulo in Bd.
    destruct (Z.div_eucl (Z.pos m * 2 ^ 53) (Z.pos m)) as [q r].
    set (k := 2 ^ 53) in *.
    assert (Hq : q = k) by nia. subst q.
    assert (Hr : r = 0) by lia. now subst r. }
  cbv iota.
  change (IntDef.Z.div_eucl (IntDef.Z.shiftl (Z.pos m) 53) (Z.pos m))
    with (Z.div_eucl (Z.shiftl (Z.pos m) 53) (Z.pos m)).
  rewrite Q. rewrite new_location_zero. reflexivity.
Qed.

Lemma of_Z_normal (p : positive) :
  Z.pos p < 2 ^ 53 ->
  exists m e, of_Z (Z.pos p) = S754_finite false m e /\ Z.pos (digits2_pos m) = prec.
Proof.
  intros H. destruct (of_Z_small p H) as (m & E & _ & D). eauto.
Qed.

Lemma filter_mem_self (a : list string) : filter (fun x => JS.mem x a) a = a.
Proof.
  apply filter_id_on, Forall_forall. intros x Hx. now apply mem_In.
Qed.

Lemma jaccard_self (a : list string) :
  a <> [] -> Z.of_nat (List.length a) < 2 ^ 32 -> jaccard a a = one.
Proof.
  intros N L. unfold jaccard. rewrite filter_mem_self.
  replace (List.length a + List.length a - List.length a)%nat with (List.length a) by lia.
  destruct (Nat.eqb_spec (List.length a) 0) as [E|E].
  - destruct a; [congruence | discriminate].
  - unfold of_nat. destruct (Z.of_nat (List.length a)) as [|p|p] eqn:Ep; try lia.
    destruct (of_Z_normal p ltac:(lia)) as (m & e & -> & D).
    now apply div_same.
Qed.

Lemma filter_nil_iff {A : Type} (f : A -> bool) (l : list A) :
  filter f l = [] <-> forall x, In x l -> f x = false.
Proof.
  induction l as [|y r IH]; simpl; [tauto|].
  destruct (f y) eqn:E.
  - split; [discriminate|]. intros H. specialize (H y (or_introl eq_refl)). congruence.
  - rewrite IH. split; [intros H x [<-|Hx]; auto | auto].
Qed.

Lemma jaccard_zero_iff (a b : list string) :
  NoDup a -> Z.of_nat (List.length a) < 2 ^ 32 -> Z.of_nat (List.length b) < 2 ^ 32 ->
  jaccard a b = zero <-> forall x, In x a -> ~ In x b.
Proof.
  intros Ha La Lb. unfold jaccard.
  pose proof (filter_mem_length a b Ha) as F.
  pose proof (filter_length_le (fun x => JS.mem x b) a) as G.
  destruct (filter (fun x => JS.mem x b) a) as [|y r] eqn:Ef.
  - split; [intros _|intros _].
    + intros x Hx. apply mem_false_iff. revert x Hx. now apply filter_nil_iff.
    + cbn [List.length]. rewrite Nat.sub_0_r.
      destruct (Nat.eqb_spec (List.length a + List.length b) 0) as [E|E]; [reflexivity|].
      unfold of_nat. cbn [Z.of_nat].
      destruct (Z.of_nat (List.length a + List.length b)) as [|p|p] eqn:Ep; try lia.
      destruct (of_Z_normal p ltac:(lia)) as (m & e & -> & _). reflexivity.
  - split.
    + intros H. exfalso. cbn [List.length] in *.
      destruct (Nat.eqb_spec (List.length a + List.length b - S (List.length r)) 0) as [E|E];
        [lia|].
      destruct (div_counts_pos (S (List.length r))
                  (List.length a + List.length b - S (List.length r))
                  ltac:(lia) ltac:(lia)) as (m & e & X).
      rewrite X in H. discriminate.
    + intros H. exfalso.
      assert (Hy : In y (filter (fun x => JS.mem x b) a)) by (rewrite Ef; now left).
      apply filter_In in Hy. destruct Hy as [Hy M]. apply mem_In in M. now apply (H y).
Qed.

End JaccardFacts.

(** X12: on sets (arrays without repetition) of array size, the
    similarity [jaccard] does not depend on the order of its arguments,
    it is 0 exactly when the two sets have no element in common, and it
    is 1 for a non-empty set and itself. *)
Theorem jaccard_symmetric_extremes (a b : list string) :
  NoDup a -> NoDup b ->
  (Z.of_nat (List.length a) < 2 ^ 32)%Z -> (Z.of_nat (List.length b) < 2 ^ 32)%Z ->
  Matching.jaccard a b = Matching.jaccard b a
  /\ (Matching.jaccard a b = Num.zero <-> forall x, In x a -> ~ In x b)
  /\ (a <> [] -> Matching.jaccard a a = Num.one).
Proof.
  intros Ha Hb La Lb. split; [now apply jaccard_sym|].
  split; [now apply jaccard_zero_iff|].
  intros N. now apply jaccard_self.
Qed.

Lemma jaccard_symmetric_extremes_witness :
  Matching.jaccard ["python"; "rust"]%string ["rust"; "go"; "sql"]%string
  = Matching.jaccard ["rust"; "go"; "sql"]%string ["python"; "rust"]%string
  /\ Matching.jaccard ["python"; "rust"]%string ["python"; "rust"]%string = Num.one.
Proof.
  destruct (jaccard_symmetric_extremes ["python"; "rust"]%string
              ["rust"; "go"; "sql"]%string) as (S & _ & O).
  - repeat constructor; simpl; intuition discriminate.
  - repeat constructor; simpl; intuition discriminate.
  - vm_compute. reflexivity.
  - vm_compute. reflexivity.
  - split; [exact S | apply O; discriminate].
Defined.

(** ** Evidence of merged skills *)

Section EvidenceFacts.
Import Skills.

Lemma slice0_idem (n : nat) (s : string) : JS.slice0 n (JS.slice0 n s) = JS.slice0 n s.
Proof.
  revert s. induction n as [|n IH]; intros [|c r]; try reflexivity.
  change (JS.slice0 (S n) (String c r)) with (String c (JS.slice0 n r)).
  change (JS.slice0 (S n) (String c (JS.slice0 n r)))
    with (String c (JS.slice0 n (JS.slice0 n r))).
  now rewrite IH.
Qed.

(** What the merging loop returns: entries of the accumulator, or input
    entries with their snippets cut. *)
Lemma merge_evidence_loop_In (es : list Evidence) (seen : list string)
  (acc : list Evidence) (e : Evidence) :
  In e (merge_evidence_loop es seen acc) ->
  In e acc
  \/ exists e0, In e0 es
                /\ e = {| artifact_id := artifact_id e0;
                          snippet := JS.slice0 240 (snippet e0) |}.
Proof.
  revert seen acc. induction es as [|e1 es IH]; intros seen acc H; simpl in H; [now left|].
  destruct (JS.mem _ seen).
  - destruct (3 <=? List.length acc); [now left|].
    destruct (IH _ _ H) as [X|(e0 & X & Y)]; [now left|].
    right. exists e0. split; [now right | exact Y].
  - assert (G : In e (acc ++ [{| artifact_id := artifact_id e1;
                                 snippet := JS.slice0 240 (snippet e1) |}]) ->
                In e acc \/ exists e0, In e0 (e1 :: es)
                  /\ e = {| artifact_id := artifact_id e0;
                            snippet := JS.slice0 240 (snippet e0) |}).
    { intros X. apply in_app_or in X. destruct X as [X|[<-|[]]]; [now left|].
      right. exists e1. split; [now left | reflexivity]. }
    destruct (3 <=? List.length (acc ++ _)); [now apply G|].
    destruct (IH _ _ H) as [X|(e0 & X & Y)]; [now apply G|].
    right. exists e0. split; [now right | exact Y].
Qed.

Lemma merge_evidence_In (es : list Evidence) (e : Evidence) :
  In e (merge_evidence es) ->
  exists e0, In e0 es
             /\ e = {| artifact_id := artifact_id e0;
                       snippet := JS.slice0 240 (snippet e0) |}.
Proof.
  intros H. destruct (merge_evidence_loop_In es [] [] e H) as [[]|X]. exact X.
Qed.

Lemma merge_evidence_short (es : list Evidence) :
  Forall (fun e => String.length (snippet e) <= 240) (merge_evidence es).
Proof.
  apply Forall_forall. intros e H. destruct (merge_evidence_In es e H) as (e0 & _ & ->).
  cbn [snippet]. rewrite slice0_length. lia.
Qed.

(** *** A name met again has merged evidence *)

Lemma merge_one_short (m : Map) (s : Skill) (v : Skill) :
  In (key s) (List.map fst m) ->
  map_get (key s) (merge_one m s) = Some v -> Skills.short v.
Proof.
  intros Hin. unfold merge_one. fold (key s).
  destruct (map_get (key s) m) as [cur|] eqn:E.
  - rewrite map_get_set, String.eqb_refl. intros [= <-]. apply merge_evidence_short.
  - apply map_get_None in E. contradiction.
Qed.

Lemma fold_merge_short (l : list Skill) (m : Map) (k : string) (v : Skill) :
  In k (List.map fst m) -> In k (keys l) ->
  map_get k (fold_left merge_one l m) = Some v -> Skills.short v.
Proof.
  revert m. induction l as [|s l IH]; intros m Hm Hl; simpl in *; [tauto|].
  destruct (in_dec string_dec k (keys l)) as [Hin|Hout].
  - apply IH; auto using merge_one_keeps_keys.
  - destruct Hl as [<-|Hl]; [|contradiction].
    rewrite map_get_fold_other by assumption.
    now apply merge_one_short.
Qed.

(** *** The map of the base skills *)

Lemma map_of_fold_wf (es acc : Map) :
  wf acc -> Forall (fun e => key (snd e) = fst e) es ->
  wf (fold_left (fun m e => map_set (fst e) (snd e) m) es acc).
Proof.
  revert acc. induction es as [|[k v] es IH]; intros acc W H; simpl; [exact W|].
  inversion H as [|? ? Hk Hr]; subst. apply IH; [|exact Hr].
  destruct W as [Hn Hf]. split.
  - rewrite map_set_keys. now apply set_add_NoDup.
  - now apply map_set_Forall.
Qed.

Lemma map_of_base_wf (base : list Skill) : wf (map_of (List.map base_entry base)).
Proof.
  apply map_of_fold_wf; [apply wf_nil|].
  apply Forall_forall. intros e He. apply in_map_iff in He.
  now destruct He as (s & <- & _).
Qed.

Lemma map_of_fold_keys (es acc : Map) :
  List.map fst (fold_left (fun m e => map_set (fst e) (snd e) m) es acc)
  = fold_left JS.set_add (List.map fst es) (List.map fst acc).
Proof.
  revert acc. induction es as [|[k v] es IH]; intros acc; simpl; [reflexivity|].
  now rewrite IH, map_set_keys.
Qed.

Lemma map_of_base_keys (base : list Skill) :
  List.map fst (map_of (List.map base_entry base)) = JS.uniq (keys base).
Proof. unfold map_of. now rewrite map_of_fold_keys, base_entry_keys. Qed.

Lemma map_of_fold_Forall (P : string * Skill -> Prop) (es acc : Map) :
  Forall P acc -> Forall P es ->
  Forall P (fold_left (fun m e => map_set (fst e) (snd e) m) es acc).
Proof.
  revert acc. induction es as [|[k v] es IH]; intros acc Ha He; simpl; [exact Ha|].
  inversion He; subst. apply IH; [|assumption]. now apply map_set_Forall.
Qed.

(** An output skill is the value under its key in the final map. *)
Lemma mergeSkills_In (base incoming : list Skill) (r : Skill) :
  In r (mergeSkills base incoming) ->
  let M := fold_left merge_one incoming (map_of (List.map base_entry base)) in
  In (key r, r) M /\ map_get (key r) M = Some r.
Proof.
  intros H M. unfold mergeSkills, map_values in H. fold M in H.
  apply In_firstn_In, in_map_iff in H. destruct H as ([k v] & Hv & He).
  simpl in Hv. subst v.
  assert (W : wf M) by apply fold_merge_wf, map_of_base_wf.
  destruct W as [Hnd Hk]. rewrite Forall_forall in Hk.
  pose proof (Hk _ He) as Hkey. simpl in Hkey. rewrite Hkey.
  split; [exact He | now apply In_map_get].
Qed.

(** *** Where evidence comes from *)

Lemma traced_weaken (src src' : list Skill) (entry : string * Skill) :
  incl src src' -> Skills.traced src entry -> Skills.traced src' entry.
Proof.
  intros I T e He. destruct (T e He) as (s & e' & Hs & R). exists s, e'. auto.
Qed.

Lemma merge_one_traced (src : list Skill) (m : Map) (s : Skill) :
  In s src -> Forall (Skills.traced src) m -> Forall (Skills.traced src) (merge_one m s).
Proof.
  intros Hs Hm. unfold merge_one. fold (key s).
  destruct (map_get (key s) m) as [cur|] eqn:E; apply map_set_Forall; auto.
  - apply map_get_In in E. rewrite Forall_forall in Hm. specialize (Hm _ E).
    intros e He. cbn [snd fst evidence] in *.
    apply merge_evidence_In in He. destruct He as (e0 & H0 & ->).
    apply in_app_or in H0. destruct H0 as [H0|H0].
    + destruct (Hm e0 H0) as (s' & e' & Hs' & Hk & He' & Ha & Hsn).
      exists s', e'. cbn [fst] in Hk.
      split; [exact Hs'|]. split; [exact Hk|]. split; [exact He'|].
      split; [exact Ha|]. cbn [snippet].
      right. destruct Hsn as [->| ->]; [reflexivity | apply slice0_idem].
    + exists s, e0. split; [exact Hs|]. split; [reflexivity|]. split; [exact H0|].
      split; [reflexivity | now right].
  - intros e He. cbn [snd fst evidence] in *. apply In_firstn_In in He.
    exists s, e. split; [exact Hs|]. split; [reflexivity|]. split; [exact He|].
    split; [reflexivity | now left].
Qed.

Lemma fold_merge_traced (src l : list Skill) (m : Map) :
  incl l src -> Forall (Skills.traced src) m -> Forall (Skills.traced src) (fold_left merge_one l m).
Proof.
  revert m. induction l as [|s l IH]; intros m I H; simpl; [exact H|].
  apply IH; [intros x Hx; apply I; now right|].
  apply merge_one_traced; [apply I; now left | exact H].
Qed.

Lemma base_traced (base : list Skill) :
  Forall (Skills.traced base) (map_of (List.map base_entry base)).
Proof.
  apply map_of_fold_Forall; [constructor|].
  apply Forall_forall. intros entry He. apply in_map_iff in He.
  destruct He as (s & <- & Hs). intros e H. cbn [base_entry snd fst evidence] in *.
  apply In_firstn_In in H. exists s, e. split; [exact Hs|]. split; [reflexivity|].
  split; [exact H|]. split; [reflexivity | now left].
Qed.

End EvidenceFacts.

(** X13: a skill whose name occurs both in [base] and in [incoming] went
    through the merging loop: every snippet of it in the result has at
    most 240 characters, it has at most three evidence entries, and no
    two of them are the same. *)
Theorem mergeSkills_merged_evidence (base incoming : list Skills.Skill) (r : Skills.Skill) :
  In r (Skills.mergeSkills base incoming) ->
  In (Skills.key r) (Skills.keys base) -> In (Skills.key r) (Skills.keys incoming) ->
  Skills.short r /\ List.length (Skills.evidence r) <= 3 /\ NoDup (Skills.evidence r).
Proof.
  intros Hr Hb Hi. destruct (mergeSkills_In base incoming r Hr) as [_ G].
  assert (Hm : In (Skills.key r)
                 (List.map fst (Skills.map_of (List.map Skills.base_entry base)))).
  { rewrite map_of_base_keys. now apply uniq_In. }
  split; [exact (fold_merge_short _ _ _ _ Hm Hi G)|].
  exact (fold_merge_clean _ _ _ _ Hm Hi G).
Qed.

Lemma mergeSkills_merged_evidence_witness :
  let long := JS.repeat_char "a"%char 241 in
  let s := {| Skills.name := "Python"; Skills.level := Skills.beginner;
              Skills.evidence := [ {| Skills.artifact_id := "a1"; Skills.snippet := long |} ] |} in
  let r := {| Skills.name := "Python"; Skills.level := Skills.beginner;
              Skills.evidence := [ {| Skills.artifact_id := "a1";
                                      Skills.snippet := JS.repeat_char "a"%char 240 |} ] |} in
  Skills.short r /\ List.length (Skills.evidence r) <= 3 /\ NoDup (Skills.evidence r).
Proof.
  cbv zeta.
  apply (mergeSkills_merged_evidence
           [ {| Skills.name := "Python"; Skills.level := Skills.beginner;
                Skills.evidence := [ {| Skills.artifact_id := "a1";
                                        Skills.snippet := JS.repeat_char "a"%char 241 |} ] |} ]
           [ {| Skills.name := "Python"; Skills.level := Skills.beginner;
                Skills.evidence := [ {| Skills.artifact_id := "a1";
                                        Skills.snippet := JS.repeat_char "a"%char 241 |} ] |} ]).
  - vm_compute. left. reflexivity.
  - vm_compute. left. reflexivity.
  - vm_compute. left. reflexivity.
Defined.

(** X14: [mergeSkills] never makes evidence up: every evidence entry of
    every skill it returns is an entry of an input skill of the same
    normalized name, with the same artifact id and with the snippet as it
    came or cut to its first 240 characters. *)
Theorem mergeSkills_evidence_from_inputs (base incoming : list Skills.Skill) :
  Forall (fun r =>
            Forall (fun e =>
                      exists s e', In s (base ++ incoming)
                                   /\ Skills.key s = Skills.key r
                                   /\ In e' (Skills.evidence s)
                                   /\ Skills.comes_from e e')
              (Skills.evidence r))
    (Skills.mergeSkills base incoming).
Proof.
  apply Forall_forall. intros r Hr. destruct (mergeSkills_In base incoming r Hr) as [He _].
  assert (T : Forall (Skills.traced (base ++ incoming))
                (fold_left Skills.merge_one incoming
                   (Skills.map_of (List.map Skills.base_entry base)))).
  { apply fold_merge_traced; [apply incl_appr, incl_refl|].
    eapply Forall_impl; [|apply base_traced].
    intros entry. apply traced_weaken, incl_appl, incl_refl. }
  rewrite Forall_forall in T. specialize (T _ He).
  apply Forall_forall. intros e Hin. exact (T e Hin).
Qed.

(** ** Prefilter *)

Section PrefilterMore.
Import Num Matching.
Local Open Scope Z_scope.

Lemma job_score_job (sset pset : list string) (JOBS : list Job) :
  List.map job (List.map (score_job sset pset) JOBS) = JOBS.
Proof. rewrite map_map. simpl. apply map_id. Qed.

Lemma prefilter_length (JOBS : list Job) (stoks ptoks : list string) (topN : nat) :
  List.length (prefilterCandidates JOBS stoks ptoks topN)
  = Nat.min topN (List.length JOBS).
Proof.
  unfold prefilterCandidates. rewrite length_firstn.
  now rewrite (Permutation_length (sort_perm _)), length_map.
Qed.

Lemma prefilter_In (JOBS : list Job) (stoks ptoks : list string) (topN : nat) (c : Candidate) :
  In c (prefilterCandidates JOBS stoks ptoks topN) ->
  exists j, In j JOBS /\ c = score_job (JS.uniq stoks) (JS.uniq ptoks) j.
Proof.
  unfold prefilterCandidates. intros H. apply In_firstn_In in H.
  apply (Permutation_in _ (sort_perm _)) in H. apply in_map_iff in H.
  destruct H as (j & <- & Hj). eauto.
Qed.

Lemma sort_all_zero (l : list Candidate) :
  Forall (fun c => composite c = zero) l -> sort l = l.
Proof.
  induction 1 as [|x l Hx Hl IH]; [reflexivity|].
  cbn [sort fold_right]. fold (sort l). rewrite IH.
  destruct Hl as [|y r Hy _]; [reflexivity|].
  cbn [sort_insert]. unfold comparator. now rewrite Hx, Hy.
Qed.

Lemma score_job_no_tokens (j : Job) :
  Z.of_nat (List.length (jobKeywords j)) < 2 ^ 32 ->
  score_job [] [] j = Matching.unscored j.
Proof.
  intros L. unfold score_job.
  assert (Lj : Z.of_nat (List.length (JS.uniq (jobKeywords j))) < 2 ^ 32).
  { pose proof (uniq_length (jobKeywords j)). lia. }
  rewrite (jaccard_empty _ Lj). reflexivity.
Qed.

End PrefilterMore.

(** X15: the prefilter neither invents nor repeats a job: it returns
    [min(topN, catalog size)] candidates, and their jobs are the first
    [topN] of a rearrangement of the catalog. *)
Theorem prefilter_returns_catalog_jobs
  (JOBS : list Matching.Job) (skillTokens prefTokens : list string) (topN : nat) :
  let pre := Matching.prefilterCandidates JOBS skillTokens prefTokens topN in
  List.length pre = Nat.min topN (List.length JOBS)
  /\ exists l, Permutation l JOBS /\ List.map Matching.job pre = firstn topN l.
Proof.
  cbv zeta. split; [apply prefilter_length|].
  exists (List.map Matching.job
            (Matching.sort (List.map (Matching.score_job (JS.uniq skillTokens)
                                        (JS.uniq prefTokens)) JOBS))).
  split.
  - rewrite <- (job_score_job (JS.uniq skillTokens) (JS.uniq prefTokens) JOBS) at 2.
    apply Permutation_map, sort_perm.
  - unfold Matching.prefilterCandidates. now rewrite firstn_map.
Qed.

(** X16: for a catalog and token lists of array size, the two baseline
    scores of every candidate, [Math.round(similarity * 100)], are whole
    numbers from 0 to 100. *)
Theorem prefilter_baselines_whole
  (JOBS : list Matching.Job) (skillTokens prefTokens : list string) (topN : nat)
  (Hskill : (Z.of_nat (List.length skillTokens) < 2 ^ 32)%Z)
  (Hpref : (Z.of_nat (List.length prefTokens) < 2 ^ 32)%Z)
  (Hjobs : Forall (fun j => (Z.of_nat (List.length (Matching.jobKeywords j)) < 2 ^ 32)%Z)
             JOBS) :
  Forall (fun c => exists ks kp,
              (0 <= ks <= 100)%Z /\ (0 <= kp <= 100)%Z
              /\ Matching.baseline_skill c = Num.of_Z ks
              /\ Matching.baseline_preference c = Num.of_Z kp)
    (Matching.prefilterCandidates JOBS skillTokens prefTokens topN).
Proof.
  apply Forall_forall. intros c Hc.
  destruct (prefilter_In _ _ _ _ _ Hc) as (j & Hj & ->).
  rewrite Forall_forall in Hjobs. specialize (Hjobs j Hj).
  assert (Lj : (Z.of_nat (List.length (JS.uniq (Matching.jobKeywords j))) < 2 ^ 32)%Z).
  { pose proof (uniq_length (Matching.jobKeywords j)). lia. }
  assert (Ls : (Z.of_nat (List.length (JS.uniq skillTokens)) < 2 ^ 32)%Z).
  { pose proof (uniq_length skillTokens). lia. }
  assert (Lp : (Z.of_nat (List.length (JS.uniq prefTokens)) < 2 ^ 32)%Z).
  { pose proof (uniq_length prefTokens). lia. }
  destruct (percent_whole _ (jaccard_unit _ _ (uniq_NoDup skillTokens) Ls Lj))
    as (ks & Hks & Es).
  destruct (percent_whole _ (jaccard_unit _ _ (uniq_NoDup prefTokens) Lp Lj))
    as (kp & Hkp & Ep).
  exists ks, kp. cbn [Matching.score_job Matching.baseline_skill Matching.baseline_preference].
  auto.
Qed.

Lemma prefilter_baselines_whole_witness :
  Forall (fun c => exists ks kp,
              (0 <= ks <= 100)%Z /\ (0 <= kp <= 100)%Z
              /\ Matching.baseline_skill c = Num.of_Z ks
              /\ Matching.baseline_preference c = Num.of_Z kp)
    (Matching.prefilterCandidates
       [ Matching.job_of "j1" "Accountant" ["ledger"; "audit"]%string;
         Matching.job_of "j2" "Engineer" ["python"; "rust"]%string ]
       ["python"]%string ["remote"; "rust"]%string 2).
Proof.
  apply (prefilter_baselines_whole
           [ Matching.job_of "j1" "Accountant" ["ledger"; "audit"]%string;
             Matching.job_of "j2" "Engineer" ["python"; "rust"]%string ]
           ["python"]%string ["remote"; "rust"]%string 2).
  - vm_compute. reflexivity.
  - vm_compute. reflexivity.
  - repeat constructor; vm_compute; reflexivity.
Defined.

(** X17: a profile without any token ranks nothing: for a catalog of
    array size, every candidate has composite and baselines 0, and the
    candidates come in catalog order. *)
Theorem prefilter_without_tokens (JOBS : list Matching.Job) (topN : nat)
  (Hjobs : Forall (fun j => (Z.of_nat (List.length (Matching.jobKeywords j)) < 2 ^ 32)%Z)
             JOBS) :
  Matching.prefilterCandidates JOBS [] [] topN = firstn topN (List.map Matching.unscored JOBS).
Proof.
  unfold Matching.prefilterCandidates. change (JS.uniq []) with (@nil string).
  assert (E : List.map (Matching.score_job [] []) JOBS = List.map Matching.unscored JOBS).
  { apply map_ext_in. intros j Hj. rewrite Forall_forall in Hjobs.
    now apply score_job_no_tokens, Hjobs. }
  rewrite E, sort_all_zero; [reflexivity|].
  apply Forall_forall. intros c Hc. apply in_map_iff in Hc.
  now destruct Hc as (j & <- & _).
Qed.

Lemma prefilter_without_tokens_witness :
  Matching.prefilterCandidates
    [ Matching.job_of "j1" "Accountant" ["ledger"]%string;
      Matching.job_of "j2" "Engineer" ["python"]%string ] [] [] 5
  = firstn 5 (List.map Matching.unscored
                [ Matching.job_of "j1" "Accountant" ["ledger"]%string;
                  Matching.job_of "j2" "Engineer" ["python"]%string ]).
Proof.
  apply (prefilter_without_tokens
           [ Matching.job_of "j1" "Accountant" ["ledger"]%string;
             Matching.job_of "j2" "Engineer" ["python"]%string ] 5).
  repeat constructor; vm_compute; reflexivity.
Defined.

(** ** Reranker *)

Section RerankerMore.
Import Num Matching.

Lemma slice0Z_length (A : Type) (k : Z) (l : list A) :
  (0 <= k)%Z -> List.length (slice0Z k l) = Nat.min (Z.to_nat k) (List.length l).
Proof.
  intros H. unfold slice0Z. destruct (Z.leb_spec 0 k); [|lia]. apply length_firstn.
Qed.

Lemma filter_some_none (A B : Type) (f : A -> option B) (l : list A) :
  Forall (fun x => f x = None) l -> filter_some (List.map f l) = [].
Proof. induction 1 as [|x l Hx _ IH]; simpl; [reflexivity|]. now rewrite Hx. Qed.

Lemma rerank_length (anthropic : bool) (StringToNumber : string -> number)
  (ask_rerank : ProfileDoc -> list Candidate -> Z -> LLMReply)
  (JOBS : list Job) (doc : ProfileDoc) (candidates : list Candidate) (limit : Z)
  (out : list RankedJob) :
  rerankWithClaude anthropic StringToNumber ask_rerank JOBS doc candidates limit = Some out ->
  (0 <= limit)%Z -> (Z.of_nat (List.length out) <= limit)%Z.
Proof.
  unfold rerankWithClaude. intros H L.
  assert (G : forall (A : Type) (l : list A),
             (Z.of_nat (List.length (slice0Z limit l)) <= limit)%Z).
  { intros A l. rewrite slice0Z_length by exact L. lia. }
  destruct anthropic; cbn [negb] in H.
  - destruct (ask_rerank doc candidates limit) as [|ms]; [discriminate|].
    destruct (_ =? 0)%nat; injection H as <-; [rewrite length_map|]; apply G.
  - injection H as <-. rewrite length_map. apply G.
Qed.

End RerankerMore.

(** X18: whatever the service replies, and also without it, the reranker
    returns at most [limit] entries (for a limit that is not negative). *)
Theorem rerank_at_most_limit (anthropic : bool) (StringToNumber : string -> Num.number)
  (ask_rerank : Matching.ProfileDoc -> list Matching.Candidate -> Z -> Matching.LLMReply)
  (JOBS : list Matching.Job) (doc : Matching.ProfileDoc)
  (candidates : list Matching.Candidate) (limit : Z) (out : list Matching.RankedJob) :
  Matching.rerankWithClaude anthropic StringToNumber ask_rerank JOBS doc candidates limit
  = Some out ->
  (0 <= limit)%Z -> (Z.of_nat (List.length out) <= limit)%Z.
Proof. apply rerank_length. Qed.

(** X19: a reply without a usable match (no match at all, or only ids
    that [byId] does not know) is replaced by the lexical baseline: the
    first [limit] candidates with their baseline scores, the rounded blend
    as overall score, and the reasons ['Baseline']. *)
Theorem rerank_unusable_reply_falls_back (StringToNumber : string -> Num.number)
  (ask_rerank : Matching.ProfileDoc -> list Matching.Candidate -> Z -> Matching.LLMReply)
  (JOBS : list Matching.Job) (doc : Matching.ProfileDoc)
  (candidates : list Matching.Candidate) (limit : Z) (ms : list Matching.RawMatch) :
  ask_rerank doc candidates limit = Matching.Matches ms ->
  Forall (fun m => Matching.byId JOBS (Matching.job_id m) = Matching.Missing) ms ->
  Matching.rerankWithClaude true StringToNumber ask_rerank JOBS doc candidates limit
  = Some (List.map Matching.fallback_ranked (Matching.slice0Z limit candidates)).
Proof.
  intros Hask Hms. unfold Matching.rerankWithClaude. cbn [negb]. rewrite Hask.
  rewrite filter_some_none; [reflexivity|].
  eapply Forall_impl; [|exact Hms]. intros m Hm. cbv beta in *.
  unfold Matching.ranked_of_match. now rewrite Hm.
Qed.

Lemma rerank_at_most_limit_witness :
  let c1 := Matching.unscored (Matching.job_of "j1" "Engineer" []) in
  (Z.of_nat (List.length (List.map (Matching.baseline_ranked false) [c1])) <= 1)%Z.
Proof.
  cbv zeta.
  apply (rerank_at_most_limit false (fun _ => S754_nan) (fun _ _ _ => Matching.Threw) []
           (Matching.doc_about "")
           [Matching.unscored (Matching.job_of "j1" "Engineer" []);
            Matching.unscored (Matching.job_of "j2" "Nurse" [])] 1).
  - reflexivity.
  - lia.
Defined.

Lemma rerank_unusable_reply_falls_back_witness :
  let JOBS := [Matching.job_of "j1" "Engineer" []] in
  let c1 := Matching.unscored (Matching.job_of "j1" "Engineer" []) in
  let m := {| Matching.job_id := "j9";
              Matching.raw_preference := Json.JNum (Num.of_Z 80);
              Matching.raw_skill := Json.JNum (Num.of_Z 60);
              Matching.raw_overall := Json.JUndefined;
              Matching.raw_reason_preference := Json.JUndefined;
              Matching.raw_reason_skill := Json.JUndefined |} in
  Matching.rerankWithClaude true (fun _ => S754_nan) (fun _ _ _ => Matching.Matches [m])
    JOBS (Matching.doc_about "remote") [c1] 5
  = Some (List.map Matching.fallback_ranked (Matching.slice0Z 5 [c1])).
Proof.
  cbv zeta.
  apply (rerank_unusable_reply_falls_back (fun _ => S754_nan)
           (fun _ _ _ => Matching.Matches
              [ {| Matching.job_id := "j9";
                   Matching.raw_preference := Json.JNum (Num.of_Z 80);
                   Matching.raw_skill := Json.JNum (Num.of_Z 60);
                   Matching.raw_overall := Json.JUndefined;
                   Matching.raw_reason_preference := Json.JUndefined;
                   Matching.raw_reason_skill := Json.JUndefined |} ])
           [Matching.job_of "j1" "Engineer" []] (Matching.doc_about "remote")
           [Matching.unscored (Matching.job_of "j1" "Engineer" [])] 5
           [ {| Matching.job_id := "j9";
                Matching.raw_preference := Json.JNum (Num.of_Z 80);
                Matching.raw_skill := Json.JNum (Num.of_Z 60);
                Matching.raw_overall := Json.JUndefined;
                Matching.raw_reason_preference := Json.JUndefined;
                Matching.raw_reason_skill := Json.JUndefined |} ]).
  - reflexivity.
  - repeat constructor.
Defined.

(** ** Profile build *)

Section NumberTextFacts.
Import Server.
Local Open Scope Z_scope.

Lemma string_app_assoc (a b c : string) : ((a ++ b) ++ c = a ++ (b ++ c))%string.
Proof. induction a as [|x r IH]; simpl; [reflexivity | now rewrite IH]. Qed.

Lemma string_app_empty (a : string) : (a ++ "" = a)%string.
Proof. induction a as [|x r IH]; simpl; [reflexivity | now rewrite IH]. Qed.

Lemma code_digit_char (d : nat) : (d < 10)%nat -> JS.code (digit_char d) = (48 + d)%nat.
Proof.
  intros H. unfold JS.code, digit_char. apply nat_ascii_embedding. lia.
Qed.

Lemma is_digit_digit_char (d : nat) : (d < 10)%nat -> is_digit (digit_char d) = true.
Proof.
  intros H. unfold is_digit. rewrite code_digit_char by exact H.
  apply andb_true_iff. split; apply Nat.leb_le; lia.
Qed.

Lemma read_digits_app (s t : string) (acc : option Z) :
  Forall (fun c => is_digit c = true) (list_ascii_of_string s) -> s <> EmptyString ->
  exists a, read_digits s acc = Some a /\ read_digits (s ++ t) acc = read_digits t (Some a).
Proof.
  revert acc. induction s as [|c r IH]; intros acc H N; [congruence|].
  simpl in H. inversion H as [|? ? Hc Hr]; subst. cbn [read_digits append]. rewrite Hc.
  destruct r as [|c' r'].
  - eexists. split; reflexivity.
  - apply IH; [exact Hr | discriminate].
Qed.

(** The digits of [n], read back, give [n]. *)
Lemma digits_fuel_read (f n : nat) (acc : string) :
  (n < 10 ^ S f)%nat ->
  exists s, digits_fuel (S f) n acc = (s ++ acc)%string
            /\ s <> EmptyString
            /\ Forall (fun c => is_digit c = true) (list_ascii_of_string s)
            /\ forall a, read_digits s a
                         = Some (match a with Some v => v | None => 0 end
                                 * 10 ^ Z.of_nat (String.length s) + Z.of_nat n).
Proof.
  revert n acc.
  assert (One : forall n acc, (n / 10 = 0)%nat ->
            exists s, String (digit_char (n mod 10)) acc = (s ++ acc)%string
              /\ s <> EmptyString
              /\ Forall (fun c => is_digit c = true) (list_ascii_of_string s)
              /\ forall a, read_digits s a
                           = Some (match a with Some v => v | None => 0 end
                                   * 10 ^ Z.of_nat (String.length s) + Z.of_nat n)).
  { intros n acc E.
    assert (Hd : (n mod 10 < 10)%nat) by (apply Nat.mod_upper_bound; lia).
    exists (String (digit_char (n mod 10)) EmptyString).
      split; [reflexivity|]. split; [discriminate|].
      split; [repeat constructor; now apply is_digit_digit_char|].
      intros a. cbn [read_digits]. rewrite is_digit_digit_char by exact Hd.
      rewrite code_digit_char by exact Hd.
      assert (n mod 10 = n)%nat.
      { pose proof (Nat.div_mod_eq n 10). lia. }
      replace (48 + n mod 10 - 48)%nat with n by lia.
      cbn [String.length]. change (10 ^ Z.of_nat 1) with 10.
      destruct a; f_equal; lia. }
  induction f as [|f IH]; intros n acc H.
  - cbn [digits_fuel].
    assert (E : (n / 10 = 0)%nat) by (apply Nat.div_small; simpl in H; lia).
    rewrite E. cbn [Nat.eqb]. now apply One.
  - change (digits_fuel (S (S f)) n acc)
      with (if (n / 10 =? 0)%nat then String (digit_char (n mod 10)) acc
            else digits_fuel (S f) (n / 10) (String (digit_char (n mod 10)) acc)).
    assert (Hd : (n mod 10 < 10)%nat) by (apply Nat.mod_upper_bound; lia).
    destruct (Nat.eqb_spec (n / 10) 0) as [E|E]; [now apply One|].
    + assert (Hq : (n / 10 < 10 ^ S f)%nat).
      { apply Nat.Div0.div_lt_upper_bound. rewrite (Nat.pow_succ_r' 10 (S f)) in H. lia. }
      pose proof (Nat.div_mod_eq n 10) as DM.
      set (q := (n / 10)%nat) in *. set (r := (n mod 10)%nat) in *.
      destruct (IH q (String (digit_char r) acc) Hq) as (s & Es & Ns & Fs & Rs).
      exists (s ++ String (digit_char r) EmptyString)%string.
      split; [rewrite Es, string_app_assoc; reflexivity|].
      split; [destruct s; [congruence | discriminate]|].
      split.
      { rewrite chars_app. apply Forall_app. split; [exact Fs|].
        repeat constructor. now apply is_digit_digit_char. }
      intros a.
      destruct (read_digits_app s (String (digit_char r) EmptyString) a Fs Ns)
        as (v & Ev & ->).
      rewrite Rs in Ev. injection Ev as <-.
      cbn [read_digits]. rewrite is_digit_digit_char by exact Hd.
      rewrite code_digit_char by exact Hd.
      replace (48 + r - 48)%nat with r by lia.
      f_equal. rewrite string_length_app. cbn [String.length].
      rewrite Nat2Z.inj_add, Z.pow_add_r by lia. change (10 ^ Z.of_nat 1) with 10.
      assert (Z.of_nat n = 10 * Z.of_nat q + Z.of_nat r) by lia.
      lia.
Qed.

Lemma pow10_gt (n : nat) : (n < 10 ^ S n)%nat.
Proof.
  induction n as [|n IH]; [simpl; lia|].
  rewrite Nat.pow_succ_r'. lia.
Qed.

Lemma nat_to_string_read (n : nat) :
  read_digits (nat_to_string n) None = Some (Z.of_nat n).
Proof.
  unfold nat_to_string.
  destruct (digits_fuel_read n n EmptyString (pow10_gt n)) as (s & E & _ & _ & R).
  rewrite E, string_app_empty, R. f_equal; lia.
Qed.

Lemma nat_to_string_inj (n m : nat) : nat_to_string n = nat_to_string m -> n = m.
Proof.
  intros H. pose proof (nat_to_string_read n) as A. rewrite H, nat_to_string_read in A.
  injection A as A. lia.
Qed.

End NumberTextFacts.

Section ProcessFacts.
Import Matching Server.

Variable anthropic : bool.
Variable SAVE_OUTPUTS : bool.
Variable parsePDFBuffer : string -> string.
Variable extractFromResume : FormValue -> list Chunker.Chunk -> option Extraction.
Variable extractFromPaper : string -> list Chunker.Chunk -> option Extraction.
Variable stringify : ProfileDoc -> string.
Variable limit_size_taken : bool.
Variable writable : string -> bool.

Local Abbreviation process_ :=
  (process anthropic SAVE_OUTPUTS parsePDFBuffer extractFromResume extractFromPaper stringify
     limit_size_taken writable).

Lemma paper_sources_ids (idx : nat) (fs : list File) :
  List.map (fun p => a_id (fst p)) (paper_sources parsePDFBuffer idx fs)
  = List.map Server.paper_id (seq (S idx) (List.length fs)).
Proof.
  revert idx. induction fs as [|f fs IH]; intros idx; [reflexivity|].
  cbn [paper_sources List.map List.length seq fst a_id]. now rewrite IH.
Qed.

Lemma paper_sources_excerpts (idx : nat) (fs : list File) :
  Forall (fun p => String.length (text_excerpt (fst p)) <= 3600
                   /\ a_type (fst p) = "pdf"%string)
    (paper_sources parsePDFBuffer idx fs).
Proof.
  revert idx. induction fs as [|f fs IH]; intros idx; [constructor|].
  cbn [paper_sources]. constructor; [|apply IH].
  cbn [fst text_excerpt a_type]. rewrite slice0_length. split; [lia | reflexivity].
Qed.

(** *** The writes of a saved profile *)

Lemma write_artifacts_saved (arts : list Artifact) (fs fs' : list (string * string)) :
  write_artifacts writable arts fs = (fs', true) ->
  fs' = fold_left (fun acc a => write_file (Server.artifact_file (a_id a)) (text_excerpt a) acc)
          arts fs.
Proof.
  revert fs. induction arts as [|a arts IH]; intros fs; cbn [write_artifacts fold_left].
  - now intros [= <-].
  - unfold writeFile. destruct (writable _); [apply IH | discriminate].
Qed.

Lemma write_artifacts_refused (arts : list Artifact) (fs fs' : list (string * string)) :
  write_artifacts writable arts fs = (fs', false) -> exists name, writable name = false.
Proof.
  revert fs. induction arts as [|a arts IH]; intros fs; cbn [write_artifacts].
  - discriminate.
  - unfold writeFile. destruct (writable _) eqn:W; [apply IH | eauto].
Qed.

Lemma save_outputs_saved (stamp : string) (doc : ProfileDoc) (fs fs' : list (string * string)) :
  save_outputs stringify writable stamp doc fs = (fs', true) ->
  fs' = Server.all_saved stringify stamp doc fs.
Proof.
  unfold save_outputs, writeFile, Server.all_saved. cbv zeta.
  destruct (writable _); [|discriminate]. destruct (writable _); [|discriminate].
  apply write_artifacts_saved.
Qed.

Lemma save_outputs_refused (stamp : string) (doc : ProfileDoc) (fs fs' : list (string * string)) :
  save_outputs stringify writable stamp doc fs = (fs', false) ->
  exists name, writable name = false.
Proof.
  unfold save_outputs, writeFile. cbv zeta.
  destruct (writable ("profile_" ++ stamp ++ ".json")%string) eqn:W1; [|eauto].
  destruct (writable "latest.json") eqn:W2; [|eauto].
  apply write_artifacts_refused.
Qed.

Lemma write_artifacts_every (arts : list Artifact) (fs : list (string * string)) :
  (forall name, writable name = true) ->
  write_artifacts writable arts fs
  = (fold_left (fun acc a => write_file (Server.artifact_file (a_id a)) (text_excerpt a) acc)
       arts fs, true).
Proof.
  intros W. revert fs. induction arts as [|a arts IH]; intros fs; [reflexivity|].
  cbn [write_artifacts fold_left]. unfold writeFile. rewrite W. apply IH.
Qed.

Lemma save_outputs_every (stamp : string) (doc : ProfileDoc) (fs : list (string * string)) :
  (forall name, writable name = true) ->
  save_outputs stringify writable stamp doc fs = (Server.all_saved stringify stamp doc fs, true).
Proof.
  intros W. unfold save_outputs, writeFile, Server.all_saved. cbv zeta.
  rewrite !W. now apply write_artifacts_every.
Qed.

(** *** The answers of /process *)

(** The sources of a request and what /process answers from them. *)
Lemma process_200 (stamp : string) (req : ProcessRequest) (st st' : State)
  (doc : ProfileDoc) :
  process_ stamp req st = (Profile200 doc, st') ->
  let srcs := (match resume req with Some f => [resume_source parsePDFBuffer f] | None => [] end)
              ++ paper_sources parsePDFBuffer 0 (papers req) in
  exists sk pj kw prof,
    extract_all anthropic extractFromResume extractFromPaper (about_of (body_about req))
      (match resume req with Some _ => true | None => false end) srcs
    = Some ((sk, pj, kw), prof)
    /\ doc = {| session_id := "profile-with-preferences";
                artifacts := List.map fst srcs;
                skills := sk; projects := pj; doc_keywords := kw;
                profile := merge_explicit prof (splitList (pref_locations req))
                             (splitList (pref_work_modes req));
                counts := ((match resume req with Some _ => 1 | None => 0 end),
                           List.length (papers req)) |}
    /\ st' = {| LAST_PROFILE := Some doc;
                outputs := if SAVE_OUTPUTS
                           then Server.all_saved stringify stamp doc (outputs st)
                           else outputs st |}.
Proof.
  intros H srcs. unfold process in H. cbv zeta in H. revert H.
  destruct (upload_accepted limit_size_taken req); cbn [negb]; [|discriminate].
  destruct (resume req) as [f|] eqn:Er;
    [|destruct (papers req) as [|p ps] eqn:Ep; [discriminate|]];
    fold srcs; (destruct (extract_all _ _ _ _ _ srcs) as [[[[sk pj] kw] prof]|];
                [|discriminate]);
    (destruct SAVE_OUTPUTS;
     [ destruct (save_outputs _ _ _ _ _) as [fs saved] eqn:S;
       destruct saved; [|discriminate];
       apply save_outputs_saved in S; subst fs
     | ]);
    intros H; injection H as <- <-; exists sk, pj, kw, prof; auto.
Qed.

(** A 500 comes from an extraction that threw, with the state as it was,
    or from a refused write, with the new profile already in place. *)
Lemma process_500 (stamp : string) (req : ProcessRequest) (st st' : State) (e : string) :
  process_ stamp req st = (ServerError e, st') ->
  let srcs := (match resume req with Some f => [resume_source parsePDFBuffer f] | None => [] end)
              ++ paper_sources parsePDFBuffer 0 (papers req) in
  st' = st
  \/ (SAVE_OUTPUTS = true /\ (exists name, writable name = false)
      /\ upload_accepted limit_size_taken req = true
      /\ (resume req <> None \/ papers req <> [])
      /\ exists sk pj kw prof,
           extract_all anthropic extractFromResume extractFromPaper (about_of (body_about req))
             (match resume req with Some _ => true | None => false end) srcs
           = Some ((sk, pj, kw), prof)
           /\ LAST_PROFILE st'
              = Some {| session_id := "profile-with-preferences";
                        artifacts := List.map fst srcs;
                        skills := sk; projects := pj; doc_keywords := kw;
                        profile := merge_explicit prof (splitList (pref_locations req))
                                     (splitList (pref_work_modes req));
                        counts := ((match resume req with Some _ => 1 | None => 0 end),
                                   List.length (papers req)) |}).
Proof.
  intros H srcs. unfold process in H. cbv zeta in H. revert H.
  destruct (upload_accepted limit_size_taken req); cbn [negb]; [|discriminate].
  destruct (resume req) as [f|] eqn:Er;
    [|destruct (papers req) as [|p ps] eqn:Ep; [discriminate|]];
    fold srcs;
    (destruct (extract_all _ _ _ _ _ srcs) as [[[[sk pj] kw] prof]|];
     [|intros H; injection H as _ <-; now left]);
    (destruct SAVE_OUTPUTS; [|discriminate]);
    destruct (save_outputs _ _ _ _ _) as [fs saved] eqn:S;
    (destruct saved; [discriminate|]);
    intros H; injection H as _ <-; right;
    (split; [reflexivity|]);
    (split; [exact (save_outputs_refused _ _ _ _ S)|]);
    (split; [reflexivity|]);
    (split; [first [left; discriminate | right; discriminate]|]);
    exists sk, pj, kw, prof; split; reflexivity.
Qed.

Lemma process_refused (stamp : string) (req : ProcessRequest) (st st' : State)
  (resp : Response) :
  process_ stamp req st = (resp, st') ->
  (forall doc, resp <> Profile200 doc) -> (forall e, resp <> ServerError e) ->
  st' = st.
Proof.
  unfold process. cbv zeta. intros H N2 N5. revert H.
  destruct (upload_accepted limit_size_taken req); cbn [negb];
    [|intros H; now injection H].
  destruct (resume req) as [f|] eqn:Er;
    [|destruct (papers req) as [|p ps] eqn:Ep; [intros H; now injection H|]];
    (destruct (extract_all _ _ _ _ _ _) as [[[[sk pj] kw] prof]|];
     [|intros H; injection H as <- _; exfalso; eapply N5; reflexivity]);
    (destruct SAVE_OUTPUTS;
     [ destruct (save_outputs _ _ _ _ _) as [fs saved]; destruct saved | ]);
    intros H; injection H as <- _; exfalso;
    first [eapply N2; reflexivity | eapply N5; reflexivity].
Qed.

(** The converse: a request the middleware takes, with a document, whose
    extraction succeeds and whose writes are not refused, is answered
    200. *)
Lemma process_built (stamp : string) (req : ProcessRequest) (st : State)
  (sk : list Skills.Skill) (pj : list Project) (kw : list string) (prof : Profile) :
  upload_accepted limit_size_taken req = true ->
  resume req <> None \/ papers req <> [] ->
  (SAVE_OUTPUTS = true -> forall name, writable name = true) ->
  let srcs := (match resume req with Some f => [resume_source parsePDFBuffer f] | None => [] end)
              ++ paper_sources parsePDFBuffer 0 (papers req) in
  extract_all anthropic extractFromResume extractFromPaper (about_of (body_about req))
    (match resume req with Some _ => true | None => false end) srcs
  = Some ((sk, pj, kw), prof) ->
  let doc := {| session_id := "profile-with-preferences";
                artifacts := List.map fst srcs;
                skills := sk; projects := pj; doc_keywords := kw;
                profile := merge_explicit prof (splitList (pref_locations req))
                             (splitList (pref_work_modes req));
                counts := ((match resume req with Some _ => 1 | None => 0 end),
                           List.length (papers req)) |} in
  process_ stamp req st
  = (Profile200 doc,
     {| LAST_PROFILE := Some doc;
        outputs := if SAVE_OUTPUTS
                   then Server.all_saved stringify stamp doc (outputs st)
                   else outputs st |}).
Proof.
  intros U H W srcs E doc. unfold process. cbv zeta. rewrite U. cbn [negb].
  destruct (resume req) as [f|] eqn:Er;
    [|destruct (papers req) as [|p ps] eqn:Ep; [destruct H; congruence|]];
    fold srcs; rewrite E; fold doc;
    (destruct SAVE_OUTPUTS; [rewrite save_outputs_every by now apply W|]); reflexivity.
Qed.


Lemma process_upload_refused (stamp : string) (req : ProcessRequest) (st : State) :
  upload_accepted limit_size_taken req = false ->
  process_ stamp req st = (UploadError, st).
Proof. intros U. unfold process. now rewrite U. Qed.

Lemma paper_id_inj (i j : nat) : Server.paper_id i = Server.paper_id j -> i = j.
Proof. unfold Server.paper_id. intros H. injection H as H. now apply nat_to_string_inj. Qed.

Lemma NoDup_map_inj {A B : Type} (f : A -> B) (l : list A) :
  (forall x y, f x = f y -> x = y) -> NoDup l -> NoDup (List.map f l).
Proof.
  intros Hf. induction 1 as [|x l Hx _ IH]; simpl; constructor; [|exact IH].
  intros Hin. apply in_map_iff in Hin. destruct Hin as (y & E & Hy).
  apply Hf in E. now subst y.
Qed.

Lemma artifact_ids_NoDup (req : ProcessRequest) : NoDup (Server.artifact_ids req).
Proof.
  unfold Server.artifact_ids.
  assert (P : NoDup (List.map Server.paper_id (seq 1 (List.length (papers req))))).
  { apply NoDup_map_inj; [exact paper_id_inj | apply seq_NoDup]. }
  destruct (resume req); [|exact P]. cbn [app]. constructor; [|exact P].
  intros Hin. apply in_map_iff in Hin. destruct Hin as (i & E & _). discriminate E.
Qed.

Lemma sources_ids (req : ProcessRequest) :
  List.map a_id
    (List.map fst
       ((match resume req with Some f => [resume_source parsePDFBuffer f] | None => [] end)
        ++ paper_sources parsePDFBuffer 0 (papers req)))
  = Server.artifact_ids req.
Proof.
  unfold Server.artifact_ids. rewrite map_map, map_app, paper_sources_ids.
  now destruct (resume req).
Qed.

Lemma process_200_ids (stamp : string) (req : ProcessRequest) (st st' : State)
  (doc : ProfileDoc) :
  process_ stamp req st = (Profile200 doc, st') ->
  List.map a_id (artifacts doc) = Server.artifact_ids req.
Proof.
  intros E. destruct (process_200 _ _ _ _ _ E) as (sk & pj & kw & prof & _ & -> & _).
  cbn [artifacts]. apply sources_ids.
Qed.


End ProcessFacts.

(** A write that is refused after the profile was built: the answer is
    500, and the last profile is the new one although no snapshot was
    written. *)
Example process_refused_write_keeps_profile :
  exists doc files,
    Server.process false true Server.plain_text Server.no_extraction Server.no_extraction
      Server.no_stringify true Server.no_snapshot "t0"
      Server.request_with_documents Server.initial_state
    = (Server.ServerError "Processing failed",
       {| Server.LAST_PROFILE := Some doc; Server.outputs := files |})
    /\ Server.read_file "latest.json" files = None.
Proof. eexists. eexists. split; [vm_compute; reflexivity | reflexivity]. Qed.

(** X20: what [/process] does to the state. A rejected request (400) and
    an upload the middleware refuses leave the last profile and the output
    files as they were; after a 200 the last profile is the document sent,
    and the output files are untouched when saving is off; a 500 leaves
    the state as it was unless saving is on and a write was refused: the
    last profile is assigned before the files are written, and is then
    already the document that would have been sent. *)
Theorem process_state_effect (anthropic SAVE_OUTPUTS : bool)
  (parsePDFBuffer : string -> string)
  (extractFromResume : Server.FormValue -> list Chunker.Chunk -> option Server.Extraction)
  (extractFromPaper : string -> list Chunker.Chunk -> option Server.Extraction)
  (stringify : Matching.ProfileDoc -> string)
  (limit_size_taken : bool) (writable : string -> bool)
  (stamp : string) (req : Server.ProcessRequest) (st : Server.State) :
  match Server.process anthropic SAVE_OUTPUTS parsePDFBuffer extractFromResume
          extractFromPaper stringify limit_size_taken writable stamp req st with
  | (Server.Profile200 doc, st') =>
      Server.LAST_PROFILE st' = Some doc
      /\ Server.outputs st'
         = (if SAVE_OUTPUTS
            then Server.all_saved stringify stamp doc (Server.outputs st)
            else Server.outputs st)
  | (Server.ServerError _, st') =>
      st' = st
      \/ (SAVE_OUTPUTS = true /\ (exists name, writable name = false)
          /\ exists doc st2,
               Server.process anthropic SAVE_OUTPUTS parsePDFBuffer extractFromResume
                 extractFromPaper stringify limit_size_taken Server.every_write stamp req st
               = (Server.Profile200 doc, st2)
               /\ Server.LAST_PROFILE st' = Some doc)
  | (_, st') => st' = st
  end.
Proof.
  destruct (Server.process _ _ _ _ _ _ _ _ _ _ _) as [resp st'] eqn:E.
  destruct resp as [e|e|doc|b|].
  - apply (process_refused _ _ _ _ _ _ _ _ _ _ _ _ _ E); discriminate.
  - destruct (process_500 _ _ _ _ _ _ _ _ _ _ _ _ _ E)
      as [->|(S & R & U & H & sk & pj & kw & prof & X & L)]; [now left|].
    right. split; [exact S|]. split; [exact R|].
    eexists. eexists. split; [|exact L].
    apply process_built; auto.
  - destruct (process_200 _ _ _ _ _ _ _ _ _ _ _ _ _ E) as (sk & pj & kw & prof & _ & _ & ->).
    split; reflexivity.
  - apply (process_refused _ _ _ _ _ _ _ _ _ _ _ _ _ E); discriminate.
  - apply (process_refused _ _ _ _ _ _ _ _ _ _ _ _ _ E); discriminate.
Qed.

(** X21: the document of a 200 lists one artifact per uploaded file, with
    the id [a1] for the resume and [p1], [p2], ... for the papers in
    order; these ids are pairwise distinct, the counts are those of the
    request, and every artifact is a ['pdf'] with an excerpt of at most
    3600 characters. *)
Theorem process_artifacts (anthropic SAVE_OUTPUTS : bool)
  (parsePDFBuffer : string -> string)
  (extractFromResume : Server.FormValue -> list Chunker.Chunk -> option Server.Extraction)
  (extractFromPaper : string -> list Chunker.Chunk -> option Server.Extraction)
  (stringify : Matching.ProfileDoc -> string)
  (limit_size_taken : bool) (writable : string -> bool)
  (stamp : string) (req : Server.ProcessRequest) (st st' : Server.State)
  (doc : Matching.ProfileDoc) :
  Server.process anthropic SAVE_OUTPUTS parsePDFBuffer extractFromResume
    extractFromPaper stringify limit_size_taken writable stamp req st
  = (Server.Profile200 doc, st') ->
  List.map Matching.a_id (Matching.artifacts doc) = Server.artifact_ids req
  /\ NoDup (Server.artifact_ids req)
  /\ Matching.counts doc
     = ((match Server.resume req with Some _ => 1 | None => 0 end),
        List.length (Server.papers req))
  /\ Forall (fun a => Matching.a_type a = "pdf"%string
                      /\ String.length (Matching.text_excerpt a) <= 3600)
       (Matching.artifacts doc).
Proof.
  intros E.
  destruct (process_200 _ _ _ _ _ _ _ _ _ _ _ _ _ E) as (sk & pj & kw & prof & _ & -> & _).
  cbn [Matching.artifacts Matching.counts].
  split; [apply sources_ids|]. split; [apply artifact_ids_NoDup|].
  split; [reflexivity|].
  rewrite map_app. apply Forall_app. split.
  - destruct (Server.resume req) as [f|]; [|constructor].
    constructor; [|constructor]. split; [reflexivity|].
    cbn [fst Server.resume_source Matching.text_excerpt].
    rewrite slice0_length. lia.
  - pose proof (paper_sources_excerpts parsePDFBuffer 0 (Server.papers req)) as F.
    rewrite Forall_forall in *. intros a Ha. apply in_map_iff in Ha.
    destruct Ha as (p & <- & Hp). destruct (F p Hp). auto.
Qed.



(** The same run, for the artifacts of the document. *)
Lemma process_artifacts_witness :
  exists doc st',
    Server.process false false Server.plain_text Server.no_extraction Server.no_extraction
      Server.no_stringify true Server.every_write "t0"
      Server.request_with_documents Server.initial_state = (Server.Profile200 doc, st')
    /\ List.map Matching.a_id (Matching.artifacts doc) = ["a1"; "p1"]%string.
Proof.
  destruct (Server.process false false Server.plain_text Server.no_extraction
              Server.no_extraction Server.no_stringify true Server.every_write
              "t0" Server.request_with_documents Server.initial_state) as [resp st'] eqn:E.
  destruct resp as [e|e|doc|b|]; try (vm_compute in E; discriminate E).
  exists doc, st'. split; [reflexivity|].
  exact (proj1 (process_artifacts false false Server.plain_text Server.no_extraction
                  Server.no_extraction Server.no_stringify true Server.every_write "t0"
                  Server.request_with_documents Server.initial_state st' doc E)).
Defined.

Section NormFacts.
Import Matching Server.

Lemma lower_char_idem (c : ascii) : JS.lower_char (JS.lower_char c) = JS.lower_char c.
Proof. destruct c as [[] [] [] [] [] [] [] []]; reflexivity. Qed.

Lemma toLowerCase_idem (s : string) : JS.toLowerCase (JS.toLowerCase s) = JS.toLowerCase s.
Proof. induction s as [|c r IH]; simpl; [reflexivity|]. now rewrite lower_char_idem, IH. Qed.

Lemma toLowerCase_empty (s : string) : JS.toLowerCase s = EmptyString -> s = EmptyString.
Proof. destruct s; [reflexivity | discriminate]. Qed.

Lemma trimEnd_lower (s : string) :
  JS.trimEnd (JS.toLowerCase s) = JS.toLowerCase (JS.trimEnd s).
Proof.
  induction s as [|c r IH]; simpl; [reflexivity|].
  rewrite IH, lower_char_space.
  destruct (JS.trimEnd r); simpl; [destruct (JS.is_space c)|]; reflexivity.
Qed.

Lemma trim_lower (s : string) : JS.trim (JS.toLowerCase s) = JS.toLowerCase (JS.trim s).
Proof. unfold JS.trim. now rewrite trimStart_lower, trimEnd_lower. Qed.

Lemma norm_idem (s : string) : Skills.norm (Skills.norm s) = Skills.norm s.
Proof. unfold Skills.norm. now rewrite trim_lower, trim_idem, toLowerCase_idem. Qed.

Lemma list_item_norm (x : string) : Server.list_item x -> Skills.norm x <> EmptyString.
Proof.
  intros (N & T & _) E. unfold Skills.norm in E. rewrite T in E.
  now apply toLowerCase_empty in E.
Qed.

Lemma uniqStrings_covers (arr : list string) (s : string) :
  In s arr -> Skills.norm s <> EmptyString ->
  In (Skills.norm s) (List.map Skills.norm (uniqStrings arr)).
Proof.
  intros H N. unfold uniqStrings.
  pose proof (uniqStrings_from_keys arr [] [] (fun _ => eq_refl)) as K.
  cbn [app] in K. rewrite <- K. fold (JS.uniq (filter JS.truthy (List.map Skills.norm arr))).
  apply uniq_In, filter_In. split; [now apply in_map|].
  destruct (Skills.norm s); [congruence | reflexivity].
Qed.

End NormFacts.

Section ExplicitFacts.
Import Matching Server.

Lemma merge_explicit_locations (prof : Profile) (els ews : list string) (l : string) :
  Forall Server.list_item els -> In l els ->
  In (Skills.norm l)
     (List.map Skills.norm (locations (preferences (merge_explicit prof els ews)))).
Proof.
  intros F H. unfold merge_explicit. cbv zeta. cbn [preferences].
  assert (L : forall p3 p2 : Preferences,
             locations p3 = locations p2 ->
             In (Skills.norm l) (List.map Skills.norm (locations p2)) ->
             In (Skills.norm l) (List.map Skills.norm (locations p3))).
  { intros p3 p2 ->. auto. }
  rewrite Forall_forall in F.
  match goal with
  | |- In _ (List.map _ (locations (if ?c then ?a else set_summary ?a ?s))) =>
      apply (L _ a); [destruct c; reflexivity|]
  end.
  destruct els as [|e els']; [contradiction|].
  set (els := e :: els') in *.
  match goal with
  | |- In _ (List.map _ (locations (match ews with [] => ?a | _ :: _ => set_work_modes ?a ?w end))) =>
      apply (L _ a); [destruct ews; reflexivity|]
  end.
  cbn [locations set_locations].
  apply uniqStrings_covers; [apply in_or_app; now right|].
  now apply list_item_norm, F.
Qed.

Lemma merge_explicit_work_modes (prof : Profile) (els ews : list string) (w : string) :
  Forall Server.list_item ews -> In w ews ->
  In (Skills.norm w)
     (List.map Skills.norm (work_modes (preferences (merge_explicit prof els ews)))).
Proof.
  intros F H. unfold merge_explicit. cbv zeta. cbn [preferences].
  assert (L : forall p3 p2 : Preferences,
             work_modes p3 = work_modes p2 ->
             In (Skills.norm w) (List.map Skills.norm (work_modes p2)) ->
             In (Skills.norm w) (List.map Skills.norm (work_modes p3))).
  { intros p3 p2 ->. auto. }
  rewrite Forall_forall in F.
  match goal with
  | |- In _ (List.map _ (work_modes (if ?c then ?a else set_summary ?a ?s))) =>
      apply (L _ a); [destruct c; reflexivity|]
  end.
  destruct ews as [|e ews']; [contradiction|].
  set (ews := e :: ews') in *.
  cbn [work_modes set_work_modes].
  rewrite <- (norm_idem w).
  apply uniqStrings_covers.
  - apply in_or_app. right. now apply in_map.
  - rewrite norm_idem. now apply list_item_norm, F.
Qed.

Lemma merge_explicit_summary (prof : Profile) (els ews : list string) :
  Forall Server.list_item els -> Forall Server.list_item ews -> els <> [] \/ ews <> [] ->
  summary (preferences (merge_explicit prof els ews)) <> EmptyString.
Proof.
  intros Fl Fw H.
  assert (C : locations (preferences (merge_explicit prof els ews)) <> []
              \/ work_modes (preferences (merge_explicit prof els ews)) <> []).
  { destruct H as [H|H].
    - left. destruct els as [|e r]; [congruence|].
      pose proof (merge_explicit_locations prof (e :: r) ews e Fl (or_introl eq_refl)) as I.
      intros E. now rewrite E in I.
    - right. destruct ews as [|e r]; [congruence|].
      pose proof (merge_explicit_work_modes prof els (e :: r) e Fw (or_introl eq_refl)) as I.
      intros E. now rewrite E in I. }
  revert C. unfold merge_explicit. cbv zeta. cbn [preferences].
  match goal with
  | |- context [if JS.truthy (summary ?p2) then _ else _] => set (P2 := p2)
  end.
  destruct (summary P2) as [|c r] eqn:S; cbn [JS.truthy].
  - cbn [locations work_modes summary set_summary]. intros C.
    destruct (work_modes P2) as [|wm wms]; destruct (locations P2) as [|lc lcs];
      cbn [app]; try discriminate.
    destruct C; congruence.
  - intros _. rewrite S. discriminate.
Qed.

End ExplicitFacts.

(** X23: the explicit preferences of a request reach the profile: after
    a 200, every location typed into [pref_locations] and every work mode
    typed into [pref_work_modes] is among the profile's preferred
    locations and work modes (compared trimmed and in lower case), and
    when one was given the summary of the preferences is not empty. *)
Theorem process_explicit_preferences (anthropic SAVE_OUTPUTS : bool)
  (parsePDFBuffer : string -> string)
  (extractFromResume : Server.FormValue -> list Chunker.Chunk -> option Server.Extraction)
  (extractFromPaper : string -> list Chunker.Chunk -> option Server.Extraction)
  (stringify : Matching.ProfileDoc -> string)
  (limit_size_taken : bool) (writable : string -> bool)
  (stamp : string) (req : Server.ProcessRequest) (st st' : Server.State)
  (doc : Matching.ProfileDoc) :
  Server.process anthropic SAVE_OUTPUTS parsePDFBuffer extractFromResume
    extractFromPaper stringify limit_size_taken writable stamp req st = (Server.Profile200 doc, st') ->
  let p := Matching.preferences (Matching.profile doc) in
  let explicitLocations := Server.splitList (Server.pref_locations req) in
  let explicitWorkModes := Server.splitList (Server.pref_work_modes req) in
  (forall l, In l explicitLocations ->
     In (Skills.norm l) (List.map Skills.norm (Matching.locations p)))
  /\ (forall w, In w explicitWorkModes ->
        In (Skills.norm w) (List.map Skills.norm (Matching.work_modes p)))
  /\ (explicitLocations <> [] \/ explicitWorkModes <> [] ->
      Matching.summary p <> EmptyString).
Proof.
  intros E p els ews.
  destruct (process_200 _ _ _ _ _ _ _ _ _ _ _ _ _ E) as (sk & pj & kw & prof & _ & D & _).
  subst doc. unfold p. cbn [Matching.profile]. fold els ews.
  pose proof (splitList_items (Server.pref_locations req)) as Fl.
  pose proof (splitList_items (Server.pref_work_modes req)) as Fw.
  split; [intros l Hl; now apply merge_explicit_locations|].
  split; [intros w Hw; now apply merge_explicit_work_modes|].
  now apply merge_explicit_summary.
Qed.

Lemma process_explicit_preferences_witness :
  exists doc st',
    Server.process false false Server.plain_text Server.no_extraction Server.no_extraction Server.no_stringify true Server.every_write "t0"
      Server.request_with_documents Server.initial_state = (Server.Profile200 doc, st')
    /\ In "boston"%string
         (List.map Skills.norm
            (Matching.locations (Matching.preferences (Matching.profile doc))))
    /\ In "remote"%string
         (List.map Skills.norm
            (Matching.work_modes (Matching.preferences (Matching.profile doc)))).
Proof.
  destruct (Server.process false false Server.plain_text Server.no_extraction Server.no_extraction Server.no_stringify true Server.every_write
              "t0" Server.request_with_documents Server.initial_state) as [resp st'] eqn:E.
  destruct resp as [e|e|doc|b|]; try (vm_compute in E; discriminate E).
  exists doc, st'. split; [reflexivity|].
  destruct (process_explicit_preferences false false Server.plain_text Server.no_extraction Server.no_extraction
              Server.no_stringify true Server.every_write "t0" Server.request_with_documents Server.initial_state st' doc E)
    as (L & W & _).
  split.
  - apply (L "Boston"%string). vm_compute. left. reflexivity.
  - apply (W "Remote"%string). vm_compute. left. reflexivity.
Defined.

(** ** Output files *)

Section OutputsFacts.
Import Matching Server.

Lemma sort_insert_name_perm (x : string) (l : list string) :
  Permutation (Server.sort_insert_name x l) (x :: l).
Proof.
  induction l as [|y r IH]; simpl; [reflexivity|].
  destruct (String.ltb y x); [|reflexivity].
  rewrite IH. apply perm_swap.
Qed.

Lemma sort_names_perm (l : list string) : Permutation (Server.sort_names l) l.
Proof.
  induction l as [|x l IH]; simpl; [reflexivity|].
  rewrite sort_insert_name_perm. now constructor.
Qed.

Lemma ltb_false_leb (x y : string) : String.ltb y x = false -> String.leb x y = true.
Proof.
  unfold String.ltb, String.leb. rewrite (String.compare_antisym x y).
  destruct (String.compare y x); simpl; congruence.
Qed.

Lemma ltb_true_leb (x y : string) : String.ltb y x = true -> String.leb y x = true.
Proof. unfold String.ltb, String.leb. destruct (String.compare y x); congruence. Qed.

Lemma sort_insert_name_sorted (x : string) (l : list string) :
  Sorted (fun a b => String.leb a b = true) l ->
  Sorted (fun a b => String.leb a b = true) (Server.sort_insert_name x l).
Proof.
  induction 1 as [|y r Hr IH Hy]; simpl; [repeat constructor|].
  destruct (String.ltb y x) eqn:L.
  - constructor; [exact IH|].
    destruct r as [|z r']; simpl.
    + constructor. now apply ltb_true_leb.
    + destruct (String.ltb z x); constructor.
      * now inversion Hy.
      * now apply ltb_true_leb.
  - constructor; [now constructor|]. constructor. now apply ltb_false_leb.
Qed.

Lemma sort_names_sorted (l : list string) :
  Sorted (fun a b => String.leb a b = true) (Server.sort_names l).
Proof.
  induction l as [|x l IH]; simpl; [constructor|]. now apply sort_insert_name_sorted.
Qed.

Lemma outputs_list_In (st : State) (name : string) :
  In name (Server.outputs_list st)
  <-> In name (Server.readdir (outputs st)) /\ Server.endsWith ".json" name = true.
Proof.
  unfold Server.outputs_list. split.
  - intros H. apply (Permutation_in _ (sort_names_perm _)) in H. now apply filter_In.
  - intros H. apply (Permutation_in _ (Permutation_sym (sort_names_perm _))).
    now apply filter_In.
Qed.

Lemma read_file_In (name content : string) (fs : list (string * string)) :
  read_file name fs = Some content -> In name (Server.readdir fs).
Proof.
  induction fs as [|[n c] fs IH]; simpl; [discriminate|].
  destruct (String.eqb_spec name n) as [->|N]; [now left|]. intros H. right. now apply IH.
Qed.

Lemma endsWith_app (a suffix : string) : Server.endsWith suffix (a ++ suffix) = true.
Proof.
  induction a as [|c r IH]; simpl.
  - destruct suffix; simpl; [reflexivity|]. now rewrite Ascii.eqb_refl, String.eqb_refl.
  - rewrite IH. apply orb_true_r.
Qed.

Lemma endsWith_split (suffix s : string) :
  Server.endsWith suffix s = true -> exists a, s = (a ++ suffix)%string.
Proof.
  induction s as [|c r IH]; cbn [Server.endsWith]; intros H; apply orb_true_iff in H.
  - destruct H as [H|H]; [|discriminate]. apply String.eqb_eq in H. now exists EmptyString.
  - destruct H as [H|H].
    + apply String.eqb_eq in H. now exists EmptyString.
    + destruct (IH H) as [a ->]. now exists (String c a).
Qed.

Lemma artifact_file_not_json (id : string) : Server.endsWith ".json" (Server.artifact_file id) = false.
Proof.
  destruct (Server.endsWith ".json" (Server.artifact_file id)) eqn:E; [|reflexivity].
  apply endsWith_split in E. destruct E as [a E]. unfold Server.artifact_file in E.
  apply (f_equal list_ascii_of_string) in E.
  change ("artifact_" ++ id ++ ".txt")%string with (("artifact_" ++ id) ++ ".txt")%string in E
    || rewrite <- string_app_assoc in E.
  rewrite !chars_app in E. apply (f_equal (@rev ascii)) in E.
  rewrite !rev_app_distr in E. discriminate E.
Qed.

End OutputsFacts.

(** X24: [/outputs/list] answers with the names of the output files that
    end in [.json], each name of the directory that does, in ascending
    order of code units; the text file of an artifact is never listed. *)
Theorem outputs_list_spec (st : Server.State) :
  Sorted (fun a b => String.leb a b = true) (Server.outputs_list st)
  /\ (forall name,
        In name (Server.outputs_list st)
        <-> In name (Server.readdir (Server.outputs st)) /\ Server.endsWith ".json" name = true)
  /\ (forall id, ~ In (Server.artifact_file id) (Server.outputs_list st)).
Proof.
  split; [apply sort_names_sorted|]. split; [apply outputs_list_In|].
  intros id H. apply outputs_list_In in H. destruct H as [_ H].
  now rewrite artifact_file_not_json in H.
Qed.

(** ** Saved files *)

Section FileFacts.
Import Matching Server.

Lemma read_filter_other (name other : string) (fs : list (string * string)) :
  name <> other ->
  read_file name (filter (fun f => negb (String.eqb other (fst f))) fs) = read_file name fs.
Proof.
  intros N. induction fs as [|[n c] fs IH]; [reflexivity|]. cbn [filter fst].
  destruct (String.eqb_spec other n) as [->|Hn]; cbn [negb read_file].
  - rewrite IH. destruct (String.eqb_spec name n); [congruence | reflexivity].
  - now rewrite IH.
Qed.

Lemma read_write_file (name other content : string) (fs : list (string * string)) :
  read_file name (write_file other content fs)
  = if String.eqb name other then Some content else read_file name fs.
Proof.
  unfold write_file. cbn [read_file].
  destruct (String.eqb_spec name other) as [E|E]; [reflexivity|].
  now apply read_filter_other.
Qed.

Lemma string_app_inv_tail (a b t : string) : (a ++ t = b ++ t)%string -> a = b.
Proof.
  intros H. apply (f_equal list_ascii_of_string) in H. rewrite !chars_app in H.
  apply app_inv_tail in H. apply (f_equal string_of_list_ascii) in H.
  now rewrite !string_of_list_ascii_of_string in H.
Qed.

Lemma artifact_file_inj (a b : string) : Server.artifact_file a = Server.artifact_file b -> a = b.
Proof.
  unfold Server.artifact_file. intros H.
  apply (string_app_inv_tail a b ".txt"). simpl in H. now injection H.
Qed.

(** What the loop over the artifacts leaves in the files. *)
Lemma write_artifacts_read (arts : list Artifact) (fs : list (string * string)) (name : string) :
  NoDup (List.map a_id arts) ->
  read_file name
    (fold_left (fun acc a => write_file (Server.artifact_file (a_id a)) (text_excerpt a) acc) arts fs)
  = match find (fun a => String.eqb name (Server.artifact_file (a_id a))) arts with
    | Some a => Some (text_excerpt a)
    | None => read_file name fs
    end.
Proof.
  revert fs. induction arts as [|a arts IH]; intros fs H; [reflexivity|].
  inversion H as [|? ? Hn Hr]; subst. cbn [fold_left find]. rewrite IH by exact Hr.
  destruct (find (fun a0 => String.eqb name (Server.artifact_file (a_id a0))) arts) as [b|] eqn:F.
  - apply find_some in F. destruct F as [Hb Eb]. apply String.eqb_eq in Eb.
    destruct (String.eqb_spec name (Server.artifact_file (a_id a))) as [E|E]; [|reflexivity].
    exfalso. apply Hn. rewrite E in Eb. apply artifact_file_inj in Eb. rewrite Eb.
    now apply in_map.
  - rewrite read_write_file.
    now destruct (String.eqb name (Server.artifact_file (a_id a))).
Qed.

Lemma find_artifact (arts : list Artifact) (a : Artifact) :
  NoDup (List.map a_id arts) -> In a arts ->
  find (fun b => String.eqb (Server.artifact_file (a_id a)) (Server.artifact_file (a_id b))) arts = Some a.
Proof.
  induction arts as [|b arts IH]; intros H Hin; [contradiction|].
  inversion H as [|? ? Hn Hr]; subst. cbn [find].
  destruct Hin as [->|Hin]; [now rewrite String.eqb_refl|].
  destruct (String.eqb_spec (Server.artifact_file (a_id a)) (Server.artifact_file (a_id b))) as [E|E].
  - exfalso. apply Hn. apply artifact_file_inj in E. rewrite <- E. now apply in_map.
  - now apply IH.
Qed.

Lemma find_no_artifact (arts : list Artifact) (name : string) :
  (forall a, In a arts -> name <> Server.artifact_file (a_id a)) ->
  find (fun b => String.eqb name (Server.artifact_file (a_id b))) arts = None.
Proof.
  induction arts as [|b arts IH]; intros H; [reflexivity|]. cbn [find].
  destruct (String.eqb_spec name (Server.artifact_file (a_id b))) as [E|E].
  - exfalso. exact (H b (or_introl eq_refl) E).
  - apply IH. intros a Ha. apply H. now right.
Qed.

Lemma save_outputs_files (stringify : ProfileDoc -> string) (stamp : string)
  (doc : ProfileDoc) (fs : list (string * string)) :
  NoDup (List.map a_id (artifacts doc)) ->
  let fs' := Server.all_saved stringify stamp doc fs in
  read_file "latest.json" fs' = Some (stringify doc)
  /\ read_file (Server.profile_file stamp) fs' = Some (stringify doc)
  /\ (forall a, In a (artifacts doc) ->
        read_file (Server.artifact_file (a_id a)) fs' = Some (text_excerpt a))
  /\ (forall name,
        name <> "latest.json"%string -> name <> Server.profile_file stamp ->
        (forall a, In a (artifacts doc) -> name <> Server.artifact_file (a_id a)) ->
        read_file name fs' = read_file name fs).
Proof.
  intros N. unfold Server.all_saved. cbv zeta.
  split; [|split; [|split]].
  - rewrite write_artifacts_read by exact N.
    rewrite find_no_artifact by (intros a _; discriminate).
    now rewrite read_write_file.
  - rewrite write_artifacts_read by exact N.
    rewrite find_no_artifact by (intros a _; discriminate).
    rewrite !read_write_file. now rewrite String.eqb_refl.
  - intros a Ha. rewrite write_artifacts_read by exact N.
    now rewrite find_artifact.
  - intros name N1 N2 N3. rewrite write_artifacts_read by exact N.
    rewrite find_no_artifact by exact N3. rewrite !read_write_file.
    destruct (String.eqb_spec name "latest.json"); [congruence|].
    destruct (String.eqb_spec name (Server.profile_file stamp)); [congruence | reflexivity].
Qed.

End FileFacts.

(** X25: with saving on, a 200 leaves in the outputs directory the
    document as text under [latest.json] and under [profile_<stamp>.json]
    and, for each artifact, its excerpt under [artifact_<id>.txt]; every
    other file is as it was, and [/outputs/list] then lists the two
    [.json] files. *)
Theorem process_saved_files (anthropic : bool)
  (parsePDFBuffer : string -> string)
  (extractFromResume : Server.FormValue -> list Chunker.Chunk -> option Server.Extraction)
  (extractFromPaper : string -> list Chunker.Chunk -> option Server.Extraction)
  (stringify : Matching.ProfileDoc -> string)
  (limit_size_taken : bool) (writable : string -> bool)
  (stamp : string) (req : Server.ProcessRequest) (st st' : Server.State)
  (doc : Matching.ProfileDoc) :
  Server.process anthropic true parsePDFBuffer extractFromResume
    extractFromPaper stringify limit_size_taken writable stamp req st = (Server.Profile200 doc, st') ->
  Server.read_file "latest.json" (Server.outputs st') = Some (stringify doc)
  /\ Server.read_file (Server.profile_file stamp) (Server.outputs st') = Some (stringify doc)
  /\ (forall a, In a (Matching.artifacts doc) ->
        Server.read_file (Server.artifact_file (Matching.a_id a)) (Server.outputs st')
        = Some (Matching.text_excerpt a))
  /\ (forall name,
        name <> "latest.json"%string -> name <> Server.profile_file stamp ->
        (forall a, In a (Matching.artifacts doc) -> name <> Server.artifact_file (Matching.a_id a)) ->
        Server.read_file name (Server.outputs st') = Server.read_file name (Server.outputs st))
  /\ In "latest.json"%string (Server.outputs_list st')
  /\ In (Server.profile_file stamp) (Server.outputs_list st').
Proof.
  intros E.
  assert (N : NoDup (List.map Matching.a_id (Matching.artifacts doc))).
  { rewrite (process_200_ids _ _ _ _ _ _ _ _ _ _ _ _ _ E). apply artifact_ids_NoDup. }
  destruct (process_200 _ _ _ _ _ _ _ _ _ _ _ _ _ E) as (sk & pj & kw & prof & _ & _ & ->).
  cbn [Server.outputs].
  destruct (save_outputs_files stringify stamp doc (Server.outputs st) N) as (A & B & C & D).
  split; [exact A|]. split; [exact B|]. split; [exact C|]. split; [exact D|].
  split; apply outputs_list_In; cbn [Server.outputs].
  - split; [now apply (read_file_In _ _ _ A) | reflexivity].
  - split; [now apply (read_file_In _ _ _ B)|].
    unfold Server.profile_file. rewrite <- string_app_assoc. apply endsWith_app.
Qed.

Lemma process_saved_files_witness :
  exists doc st',
    Server.process false true Server.plain_text Server.no_extraction Server.no_extraction Server.no_stringify true Server.every_write "t0"
      Server.request_with_documents Server.initial_state = (Server.Profile200 doc, st')
    /\ Server.read_file "latest.json" (Server.outputs st') = Some (Server.no_stringify doc).
Proof.
  destruct (Server.process false true Server.plain_text Server.no_extraction Server.no_extraction Server.no_stringify true Server.every_write
              "t0" Server.request_with_documents Server.initial_state) as [resp st'] eqn:E.
  destruct resp as [e|e|doc|b|]; try (vm_compute in E; discriminate E).
  exists doc, st'. split; [reflexivity|].
  exact (proj1 (process_saved_files false Server.plain_text Server.no_extraction Server.no_extraction
                  Server.no_stringify true Server.every_write "t0" Server.request_with_documents Server.initial_state st' doc E)).
Defined.

(** ** Recommendation *)

Section RecommendFacts.
Import Matching Server.

Variable anthropic : bool.
Variable JOBS : list Job.
Variable parse_doc : string -> option ProfileDoc.
Variable StringToNumber : string -> Num.number.
Variable ask_rerank : ProfileDoc -> list Candidate -> Z -> LLMReply.

Local Abbreviation recommend_ :=
  (recommend anthropic JOBS parse_doc StringToNumber ask_rerank).

Lemma recommend_same_profile (limit : option string) (st1 st2 : State) :
  Server.stored_profile parse_doc st1 = Server.stored_profile parse_doc st2 ->
  recommend_ limit st1 = recommend_ limit st2.
Proof. unfold recommend, Server.stored_profile. intros ->. reflexivity. Qed.

Lemma recommend_with_profile (limit : option string) (st : State) (doc : ProfileDoc) :
  Server.stored_profile parse_doc st = Some doc ->
  forall msg, recommend_ limit st <> BadRequest msg.
Proof.
  unfold recommend, Server.stored_profile. intros -> msg. cbv zeta.
  destruct JOBS; [discriminate|].
  destruct (if wantAll limit then _ else _); discriminate.
Qed.

Lemma rerank_length_without (doc : ProfileDoc) (candidates : list Candidate) (limit : Z)
  (out : list RankedJob) :
  rerankWithClaude false StringToNumber ask_rerank JOBS doc candidates limit = Some out ->
  (0 <= limit)%Z ->
  List.length out = Nat.min (Z.to_nat limit) (List.length candidates).
Proof.
  unfold rerankWithClaude. cbn [negb]. intros H L. injection H as <-.
  now rewrite length_map, slice0Z_length.
Qed.

Lemma rerank_jobs_without (doc : ProfileDoc) (candidates : list Candidate) (out : list RankedJob) :
  rerankWithClaude false StringToNumber ask_rerank JOBS doc candidates
    (Z.of_nat (List.length candidates)) = Some out ->
  List.map rj_job out = List.map (fun c => Some (job c)) candidates.
Proof.
  unfold rerankWithClaude. cbn [negb]. intros H. injection H as <-.
  rewrite slice0Z_of_nat, firstn_all, map_map. reflexivity.
Qed.

Lemma prefilter_all_jobs (stoks ptoks : list string) :
  Permutation
    (List.map job (prefilterCandidates JOBS stoks ptoks (List.length JOBS))) JOBS.
Proof.
  unfold prefilterCandidates.
  rewrite firstn_all2
    by (rewrite (Permutation_length (sort_perm _)), length_map; lia).
  rewrite <- (job_score_job (JS.uniq stoks) (JS.uniq ptoks) JOBS) at 2.
  apply Permutation_map, sort_perm.
Qed.

Lemma desiredLimit_le (limit : option string) :
  (desiredLimit (List.length JOBS) limit <= Z.of_nat (List.length JOBS))%Z.
Proof. unfold desiredLimit. destruct (wantAll limit); lia. Qed.

Lemma desiredLimit_all (limit : option string) :
  wantAll limit = true -> desiredLimit (List.length JOBS) limit = Z.of_nat (List.length JOBS).
Proof. unfold desiredLimit. now intros ->. Qed.

(** What a recommendation answers once a profile is found. *)
Lemma recommend_200 (limit : option string) (st : State) (body : RecommendBody) :
  recommend_ limit st = Recommend200 body ->
  (0 <= desiredLimit (List.length JOBS) limit)%Z ->
  returned body = List.length (matches body)
  /\ total_jobs body = List.length JOBS
  /\ (Z.of_nat (returned body) <= desiredLimit (List.length JOBS) limit)%Z
  /\ (anthropic = false ->
      Z.of_nat (returned body) = desiredLimit (List.length JOBS) limit)
  /\ List.length (profile_terms body) <= 30
  /\ List.length (preference_terms body) <= 30.
Proof.
  unfold recommend. cbv zeta.
  destruct (match match read_file "latest.json" (outputs st) with
                  | Some text => parse_doc text
                  | None => None
                  end with
            | Some d => Some d
            | None => LAST_PROFILE st
            end) as [doc|]; [|discriminate].
  pose proof (desiredLimit_le limit) as DLn.
  destruct JOBS as [|j js] eqn:EJ.
  - intros H D. injection H as <-. cbn [returned matches total_jobs profile_terms
      preference_terms List.length] in *. repeat split; lia.
  - rewrite <- EJ in *. clear EJ j js.
    set (n := List.length JOBS) in *.
    set (DL := desiredLimit n limit) in *.
    set (stoks := deriveSkillTokens doc). set (ptoks := derivePreferenceTokens doc).
    assert (T30 : forall l : list string, List.length (firstn 30 l) <= 30)
      by (intros l; rewrite length_firstn; lia).
    destruct (wantAll limit) eqn:W.
    + assert (EDL : DL = Z.of_nat n) by now apply desiredLimit_all.
      set (pre := prefilterCandidates JOBS stoks ptoks n).
      assert (Lpre : List.length pre = n)
        by (unfold pre; rewrite prefilter_length; fold n; lia).
      set (top := firstn (Nat.min 60 (List.length pre)) pre).
      assert (Ltop : List.length top = Nat.min 60 n)
        by (unfold top; rewrite length_firstn, Lpre; lia).
      destruct (rerankWithClaude anthropic StringToNumber ask_rerank JOBS doc top
                  (Z.of_nat (List.length top))) as [ai|] eqn:R; [|discriminate].
      intros H D. injection H as <-.
      cbn [returned matches total_jobs profile_terms preference_terms].
      rewrite length_app, length_map, length_skipn, Lpre, Ltop.
      pose proof (rerank_length _ _ _ _ _ _ _ _ R ltac:(lia)) as B.
      split; [reflexivity|]. split; [reflexivity|]. split; [lia|].
      split; [|split; apply T30].
      intros ->. apply rerank_length_without in R; lia.
    + set (pre := prefilterCandidates JOBS stoks ptoks (Z.to_nat (Z.max 40 (DL * 2)))).
      assert (Lpre : List.length pre = Nat.min (Z.to_nat (Z.max 40 (DL * 2))) n)
        by (unfold pre; now rewrite prefilter_length).
      destruct (rerankWithClaude anthropic StringToNumber ask_rerank JOBS doc pre DL)
        as [ranked|] eqn:R; [|discriminate].
      intros H D. injection H as <-.
      cbn [returned matches total_jobs profile_terms preference_terms].
      pose proof (rerank_length _ _ _ _ _ _ _ _ R D) as B.
      split; [reflexivity|]. split; [reflexivity|]. split; [exact B|].
      split; [|split; apply T30].
      intros ->. apply rerank_length_without in R; lia.
Qed.

Lemma recommend_all_without (limit : option string) (st : State) (doc : ProfileDoc) :
  anthropic = false -> Server.stored_profile parse_doc st = Some doc -> wantAll limit = true ->
  exists body,
    recommend_ limit st = Recommend200 body
    /\ total_jobs body = List.length JOBS
    /\ returned body = List.length JOBS
    /\ Permutation (List.map rj_job (matches body)) (List.map Some JOBS).
Proof.
  intros -> P W. unfold recommend. unfold Server.stored_profile in P. rewrite P. cbv zeta.
  destruct JOBS as [|j js] eqn:EJ.
  - eexists. split; [reflexivity|]. cbn. auto.
  - rewrite <- EJ in *. clear EJ j js. rewrite W.
    set (n := List.length JOBS) in *.
    set (stoks := deriveSkillTokens doc). set (ptoks := derivePreferenceTokens doc).
    set (pre := prefilterCandidates JOBS stoks ptoks n).
    assert (Lpre : List.length pre = n)
      by (unfold pre; rewrite prefilter_length; fold n; lia).
    set (top := firstn (Nat.min 60 (List.length pre)) pre).
    destruct (rerankWithClaude false StringToNumber ask_rerank JOBS doc top
                (Z.of_nat (List.length top))) as [ai|] eqn:R; [|discriminate R].
    pose proof (rerank_jobs_without _ _ _ R) as J.
    assert (M : List.map rj_job (ai ++ List.map fallback_ranked (skipn (List.length top) pre))
                = List.map (fun c => Some (job c)) pre).
    { rewrite map_app, J, map_map. cbn [fallback_ranked rj_job].
      rewrite <- map_app. f_equal. unfold top at 2.
      rewrite length_firstn, Nat.min_l by lia. unfold top. apply firstn_skipn. }
    eexists. split; [reflexivity|].
    cbn [total_jobs returned matches]. split; [reflexivity|].
    split.
    + rewrite <- (length_map rj_job), M, length_map. exact Lpre.
    + rewrite M, <- (map_map job Some). apply Permutation_map.
      unfold pre, n. apply prefilter_all_jobs.
Qed.

End RecommendFacts.

Section ProcessRecommendFacts.
Import Matching Server.

Lemma process_outputs_unsaved (anthropic : bool) (parsePDFBuffer : string -> string)
  (extractFromResume : FormValue -> list Chunker.Chunk -> option Extraction)
  (extractFromPaper : string -> list Chunker.Chunk -> option Extraction)
  (stringify : ProfileDoc -> string) (limit_size_taken : bool) (writable : string -> bool)
  (stamp : string) (req : ProcessRequest) (st : State) :
  outputs (snd (process anthropic false parsePDFBuffer extractFromResume extractFromPaper
                  stringify limit_size_taken writable stamp req st)) = outputs st.
Proof.
  destruct (process _ _ _ _ _ _ _ _ _ _ _) as [resp st'] eqn:E. cbn [snd].
  destruct resp as [e|e|doc|b|].
  - now rewrite (process_refused _ _ _ _ _ _ _ _ _ _ _ _ _ E) by discriminate.
  - destruct (process_500 _ _ _ _ _ _ _ _ _ _ _ _ _ E) as [->|[S _]];
      [reflexivity | discriminate S].
  - destruct (process_200 _ _ _ _ _ _ _ _ _ _ _ _ _ E) as (sk & pj & kw & prof & _ & _ & ->).
    reflexivity.
  - now rewrite (process_refused _ _ _ _ _ _ _ _ _ _ _ _ _ E) by discriminate.
  - now rewrite (process_refused _ _ _ _ _ _ _ _ _ _ _ _ _ E) by discriminate.
Qed.

End ProcessRecommendFacts.

(** X26: after [/process] has answered 200, [/jobs/recommend] finds a
    profile: it never answers 400; and when saving is on and the text of
    the document parses back to the document, the profile it works from is
    the document just sent. *)
Theorem process_then_recommend (anthropic SAVE_OUTPUTS : bool) (JOBS : list Matching.Job)
  (parsePDFBuffer : string -> string)
  (extractFromResume : Server.FormValue -> list Chunker.Chunk -> option Server.Extraction)
  (extractFromPaper : string -> list Chunker.Chunk -> option Server.Extraction)
  (stringify : Matching.ProfileDoc -> string)
  (limit_size_taken : bool) (writable : string -> bool)
  (parse_doc : string -> option Matching.ProfileDoc)
  (StringToNumber : string -> Num.number)
  (ask_rerank : Matching.ProfileDoc -> list Matching.Candidate -> Z -> Matching.LLMReply)
  (stamp : string) (req : Server.ProcessRequest) (limit : option string)
  (st st' : Server.State) (doc : Matching.ProfileDoc) :
  Server.process anthropic SAVE_OUTPUTS parsePDFBuffer extractFromResume
    extractFromPaper stringify limit_size_taken writable stamp req st = (Server.Profile200 doc, st') ->
  (forall msg,
     Server.recommend anthropic JOBS parse_doc StringToNumber ask_rerank limit st'
     <> Server.BadRequest msg)
  /\ (SAVE_OUTPUTS = true -> parse_doc (stringify doc) = Some doc ->
      Server.stored_profile parse_doc st' = Some doc).
Proof.
  intros E.
  assert (L : Server.LAST_PROFILE st' = Some doc).
  { destruct (process_200 _ _ _ _ _ _ _ _ _ _ _ _ _ E) as (sk & pj & kw & prof & _ & _ & ->).
    reflexivity. }
  split.
  - assert (P : exists d, Server.stored_profile parse_doc st' = Some d).
    { unfold Server.stored_profile. rewrite L.
      destruct (match Server.read_file "latest.json" (Server.outputs st') with
                | Some text => parse_doc text
                | None => None
                end); eauto. }
    destruct P as [d P]. now apply (recommend_with_profile _ _ _ _ _ _ _ d).
  - intros -> R. unfold Server.stored_profile.
    assert (N : NoDup (List.map Matching.a_id (Matching.artifacts doc))).
    { rewrite (process_200_ids _ _ _ _ _ _ _ _ _ _ _ _ _ E). apply artifact_ids_NoDup. }
    destruct (process_200 _ _ _ _ _ _ _ _ _ _ _ _ _ E) as (sk & pj & kw & prof & _ & _ & ->).
    cbn [Server.outputs].
    destruct (save_outputs_files stringify stamp doc (Server.outputs st) N) as [F _].
    now rewrite F, R.
Qed.

Lemma process_then_recommend_witness :
  exists doc st',
    Server.process false true Server.plain_text Server.no_extraction Server.no_extraction Server.no_stringify true Server.every_write "t0"
      Server.request_with_documents Server.initial_state = (Server.Profile200 doc, st')
    /\ forall msg,
         Server.recommend false [] (fun _ => None) (fun _ => S754_nan)
           (fun _ _ _ => Matching.Threw) None st' <> Server.BadRequest msg.
Proof.
  destruct (Server.process false true Server.plain_text Server.no_extraction Server.no_extraction Server.no_stringify true Server.every_write
              "t0" Server.request_with_documents Server.initial_state) as [resp st'] eqn:E.
  destruct resp as [e|e|doc|b|]; try (vm_compute in E; discriminate E).
  exists doc, st'. split; [reflexivity|].
  exact (proj1 (process_then_recommend false true [] Server.plain_text Server.no_extraction Server.no_extraction
                  Server.no_stringify true Server.every_write (fun _ => None) (fun _ => S754_nan)
                  (fun _ _ _ => Matching.Threw) "t0" Server.request_with_documents None
                  Server.initial_state st' doc E)).
Defined.

(** X27: the snapshot on disk comes first: while [latest.json] is there
    and parses, and saving is off, a later [/process] does not change what
    [/jobs/recommend] answers; it keeps working from the snapshot. *)
Theorem recommend_prefers_snapshot (anthropic : bool) (JOBS : list Matching.Job)
  (parsePDFBuffer : string -> string)
  (extractFromResume : Server.FormValue -> list Chunker.Chunk -> option Server.Extraction)
  (extractFromPaper : string -> list Chunker.Chunk -> option Server.Extraction)
  (stringify : Matching.ProfileDoc -> string)
  (limit_size_taken : bool) (writable : string -> bool)
  (parse_doc : string -> option Matching.ProfileDoc)
  (StringToNumber : string -> Num.number)
  (ask_rerank : Matching.ProfileDoc -> list Matching.Candidate -> Z -> Matching.LLMReply)
  (stamp : string) (req : Server.ProcessRequest) (limit : option string)
  (st : Server.State) (text : string) (d : Matching.ProfileDoc) :
  Server.read_file "latest.json" (Server.outputs st) = Some text ->
  parse_doc text = Some d ->
  let st' := snd (Server.process anthropic false parsePDFBuffer extractFromResume
                    extractFromPaper stringify limit_size_taken writable stamp req st) in
  Server.stored_profile parse_doc st' = Some d
  /\ Server.recommend anthropic JOBS parse_doc StringToNumber ask_rerank limit st'
     = Server.recommend anthropic JOBS parse_doc StringToNumber ask_rerank limit st.
Proof.
  intros F P st'.
  assert (S' : Server.stored_profile parse_doc st' = Some d).
  { unfold Server.stored_profile, st'. now rewrite process_outputs_unsaved, F, P. }
  split; [exact S'|]. apply recommend_same_profile.
  rewrite S'. unfold Server.stored_profile. now rewrite F, P.
Qed.

Lemma recommend_prefers_snapshot_witness :
  let st := {| Server.LAST_PROFILE := None;
               Server.outputs := [("latest.json", "{}")]%string |} in
  let st' := snd (Server.process false false Server.plain_text Server.no_extraction Server.no_extraction
                    Server.no_stringify true Server.every_write "t0" Server.request_with_documents st) in
  Server.stored_profile (fun _ => Some (Matching.doc_about "old")) st'
  = Some (Matching.doc_about "old").
Proof.
  cbv zeta.
  exact (proj1 (recommend_prefers_snapshot false [] Server.plain_text Server.no_extraction Server.no_extraction
                  Server.no_stringify true Server.every_write (fun _ => Some (Matching.doc_about "old"))
                  (fun _ => S754_nan) (fun _ _ _ => Matching.Threw) "t0"
                  Server.request_with_documents None
                  {| Server.LAST_PROFILE := None;
                     Server.outputs := [("latest.json", "{}")]%string |}
                  "{}" (Matching.doc_about "old") eq_refl eq_refl)).
Defined.

(** X28: asked for all jobs without the rerank capability, a
    recommendation returns every job of the catalog exactly once. *)
Theorem recommend_all_without_capability (JOBS : list Matching.Job)
  (parse_doc : string -> option Matching.ProfileDoc)
  (StringToNumber : string -> Num.number)
  (ask_rerank : Matching.ProfileDoc -> list Matching.Candidate -> Z -> Matching.LLMReply)
  (limit : option string) (st : Server.State) (doc : Matching.ProfileDoc) :
  Server.stored_profile parse_doc st = Some doc -> Server.wantAll limit = true ->
  exists body,
    Server.recommend false JOBS parse_doc StringToNumber ask_rerank limit st
    = Server.Recommend200 body
    /\ Server.total_jobs body = List.length JOBS
    /\ Server.returned body = List.length JOBS
    /\ Permutation (List.map Matching.rj_job (Server.matches body)) (List.map Some JOBS).
Proof. intros P W. now apply (recommend_all_without false JOBS parse_doc _ _ limit st doc). Qed.

Lemma recommend_all_without_capability_witness :
  let JOBS := [ Matching.job_of "j1" "Accountant" ["ledger"]%string;
                Matching.job_of "j2" "Engineer" ["python"]%string ] in
  let st := {| Server.LAST_PROFILE := Some (Matching.doc_about "python");
               Server.outputs := [] |} in
  exists body,
    Server.recommend false JOBS (fun _ => None) (fun _ => S754_nan)
      (fun _ _ _ => Matching.Threw) None st = Server.Recommend200 body
    /\ Server.returned body = 2.
Proof.
  cbv zeta.
  destruct (recommend_all_without_capability
              [ Matching.job_of "j1" "Accountant" ["ledger"]%string;
                Matching.job_of "j2" "Engineer" ["python"]%string ]
              (fun _ => None) (fun _ => S754_nan) (fun _ _ _ => Matching.Threw) None
              {| Server.LAST_PROFILE := Some (Matching.doc_about "python");
                 Server.outputs := [] |}
              (Matching.doc_about "python") eq_refl eq_refl)
    as (body & E & _ & R & _).
  exists body. split; [exact E | exact R].
Defined.

(** X29: a recommendation that answers 200 for a limit that is not
    negative reports as [returned] the number of its matches, which is at
    most the effective limit and so at most [total_jobs], the size of the
    catalog; without the rerank capability it is exactly the effective
    limit. The two term lists have at most 30 entries. *)
Theorem recommend_returned_bounds (anthropic : bool) (JOBS : list Matching.Job)
  (parse_doc : string -> option Matching.ProfileDoc)
  (StringToNumber : string -> Num.number)
  (ask_rerank : Matching.ProfileDoc -> list Matching.Candidate -> Z -> Matching.LLMReply)
  (limit : option string) (st : Server.State) (body : Server.RecommendBody) :
  Server.recommend anthropic JOBS parse_doc StringToNumber ask_rerank limit st
  = Server.Recommend200 body ->
  (0 <= Server.desiredLimit (List.length JOBS) limit)%Z ->
  Server.returned body = List.length (Server.matches body)
  /\ Server.total_jobs body = List.length JOBS
  /\ (Z.of_nat (Server.returned body) <= Server.desiredLimit (List.length JOBS) limit
      <= Z.of_nat (Server.total_jobs body))%Z
  /\ (anthropic = false ->
      Z.of_nat (Server.returned body) = Server.desiredLimit (List.length JOBS) limit)
  /\ List.length (Server.profile_terms body) <= 30
  /\ List.length (Server.preference_terms body) <= 30.
Proof.
  intros E D.
  destruct (recommend_200 anthropic JOBS parse_doc StringToNumber ask_rerank limit st body E D)
    as (A & B & C & F & G & H).
  pose proof (desiredLimit_le JOBS limit) as L.
  repeat split; auto; rewrite B; exact L.
Qed.

Lemma recommend_returned_bounds_witness :
  let JOBS := [ Matching.job_of "j1" "Accountant" ["ledger"]%string;
                Matching.job_of "j2" "Engineer" ["python"]%string ] in
  let st := {| Server.LAST_PROFILE := Some (Matching.doc_about "python");
               Server.outputs := [] |} in
  exists body,
    Server.recommend false JOBS (fun _ => None) (fun _ => S754_nan)
      (fun _ _ _ => Matching.Threw) (Some "1"%string) st = Server.Recommend200 body
    /\ Server.returned body = List.length (Server.matches body)
    /\ Z.of_nat (Server.returned body) = 1%Z.
Proof.
  cbv zeta.
  destruct (Server.recommend false
              [ Matching.job_of "j1" "Accountant" ["ledger"]%string;
                Matching.job_of "j2" "Engineer" ["python"]%string ]
              (fun _ => None) (fun _ => S754_nan) (fun _ _ _ => Matching.Threw)
              (Some "1"%string)
              {| Server.LAST_PROFILE := Some (Matching.doc_about "python");
                 Server.outputs := [] |}) as [e|e|d|body|] eqn:E;
    try (vm_compute in E; discriminate E).
  exists body. split; [reflexivity|].
  destruct (recommend_returned_bounds false _ _ _ _ _ _ body E ltac:(vm_compute; discriminate))
    as (A & _ & _ & F & _).
  split; [exact A | exact (F eq_refl)].
Defined.

(** ** Completion service *)

Section CompletionFacts.
Import Completion.

Lemma try_models_spec (create : string -> Reply) (models : list string)
  (lastErr : option Error) :
  let '(out, asked) := try_models create models lastErr in
  (exists rest, models = asked ++ rest)
  /\ ((asked = models /\ Forall (unavailable create) models
       /\ ((models = []
            /\ out = Throws (match lastErr with
                             | Some e => e
                             | None =>
                                 new_error "No available Claude models from candidate list."
                             end))
           \/ exists before model e,
                models = before ++ [model] /\ create model = Fails e /\ out = Throws e))
      \/ exists before model,
           asked = before ++ [model]
           /\ Forall (unavailable create) before
           /\ match create model with
              | Message text => out = Returns text
              | Fails e => notFound e = false /\ out = Throws e
              end).
Proof.
  revert lastErr. induction models as [|m rest IH]; intros lastErr.
  - cbn [try_models]. split; [now exists []|]. left.
    split; [reflexivity|]. split; [constructor|]. now left.
  - cbn [try_models]. destruct (create m) as [text|e] eqn:C.
    + split; [now exists rest|]. right. exists [], m. rewrite C. auto.
    + destruct (notFound e) eqn:N.
      * specialize (IH (Some e)). destruct (try_models create rest (Some e)) as [out asked].
        destruct IH as [[r Hr] IH]. split; [exists r; now rewrite Hr|].
        assert (U : unavailable create m) by (exists e; auto).
        destruct IH as [(A & F & O)|(before & model & A & F & O)].
        -- left. subst asked. split; [reflexivity|]. split; [now constructor|].
           right. destruct O as [[-> ->]|(before & model & e' & -> & C' & ->)].
           ++ now exists [], m, e.
           ++ now exists (m :: before), model, e'.
        -- right. exists (m :: before), model. subst asked.
           split; [reflexivity|]. split; [now constructor | exact O].
      * split; [now exists rest|]. right. exists [], m. rewrite C. auto.
Qed.

End CompletionFacts.

(** X30: [callClaude] asks the candidate models in order and stops at the
    first one that is available. Without a configured client it throws
    at once and asks no model. Otherwise the models it asked are a prefix
    of the candidates, every one before the last asked failed with a
    not-found error, and the outcome is that of the last model asked: its
    message, or its error. When every candidate is unavailable, all were
    asked and the error of the last one is thrown. *)
Theorem callClaude_first_available (create : string -> Completion.Reply)
  (models : list string) :
  Completion.callClaude false create models
  = (Completion.Throws (Completion.new_error "Anthropic client not configured"), [])
  /\ let '(out, asked) := Completion.callClaude true create models in
     (exists rest, models = asked ++ rest)
     /\ ((asked = models /\ Forall (Completion.unavailable create) models
          /\ ((models = []
               /\ out = Completion.Throws
                          (Completion.new_error
                             "No available Claude models from candidate list."))
              \/ exists before model e,
                   models = before ++ [model]
                   /\ create model = Completion.Fails e
                   /\ out = Completion.Throws e))
         \/ exists before model,
              asked = before ++ [model]
              /\ Forall (Completion.unavailable create) before
              /\ match create model with
                 | Completion.Message text => out = Completion.Returns text
                 | Completion.Fails e =>
                     Completion.notFound e = false /\ out = Completion.Throws e
                 end).
Proof.
  split; [reflexivity|]. unfold Completion.callClaude. cbn [negb].
  exact (try_models_spec create models None).
Qed.

(** The second model answers after the first is reported missing with a
    message of mixed case. *)
Example callClaude_falls_through :
  let create := fun model =>
    if String.eqb model "claude-3-5-haiku-20241022" then Completion.Message "{}"
    else Completion.Fails
           {| Completion.status := Some 400%Z;
              Completion.message := "Unknown Model requested";
              Completion.as_string := "Error: Unknown Model requested" |} in
  Completion.callClaude true create (Completion.MODEL_CANDIDATES None)
  = (Completion.Returns "{}",
     ["claude-3-5-sonnet-20241022"; "claude-3-5-haiku-20241022"]%string).
Proof. reflexivity. Qed.
